(** * Data quality checker: a model of [data_quality_checker.py]

    The development follows the class [DataQualityChecker]: a data frame
    model, the eight checks that fill [quality_report], the loader and
    the orchestration [run_all_checks].

    Numbers.  The program computes on binary64 floats (numpy [float64] and
    Python [float]).  Every check is written once, over an interface
    [Float64] of the operations the source uses, and the interface is
    instantiated twice:
    - [binary64]: Rocq's primitive IEEE 754 binary64 floats, the numbers
      the program really computes with, used for every concrete run;
    - [exact]: rationals with a not-a-number element, arithmetic without
      rounding, overflow or infinities; the program never runs on it, it
      only tells which failures on binary64 are due to rounding and
      overflow. *)

From Stdlib Require Import ZArith QArith Qround Lqa Floats Ascii String List Sorted Bool Lia.
From stdpp Require Import base option list strings gmap pretty.

Local Open Scope Z_scope.

(** ** The arithmetic interface *)

Class Float64 (F : Type) := {
  fadd : F -> F -> F;
  fsub : F -> F -> F;
  fmul : F -> F -> F;
  fdiv : F -> F -> F;
  (** [<] and [<=]; both are false when an argument is not a number *)
  flt : F -> F -> bool;
  fle : F -> F -> bool;
  (** [==] of the language: false on not-a-number *)
  feq : F -> F -> bool;
  fisnan : F -> bool;
  fnan : F;
  (** conversion of an integer, [float(z)] *)
  fofZ : Z -> F;
  (** [floor], as an integer; 0 where [floor] has no integer value *)
  ffloor : F -> Z;
  (** the literals of the source *)
  c0_25 : F;
  c0_5 : F;
  c0_6 : F;
  c0_75 : F;
  c1_5 : F;
  c100 : F;
}.

(** *** binary64 *)

Module B64.

Definition ofZ (z : Z) : float :=
  SF2Prim (binary_normalize prec emax z 0 false).

(** The integer part towards minus infinity of a finite float
    [(-1)^s * m * 2^e]. *)
Definition floor (f : float) : Z :=
  match Prim2SF f with
  | S754_finite s m e =>
      let v := if s then Z.neg m else Z.pos m in
      if 0 <=? e then v * 2 ^ e else v / 2 ^ (- e)
  | _ => 0
  end.

End B64.

#[export] Instance binary64 : Float64 float := {|
  fadd := PrimFloat.add;
  fsub := PrimFloat.sub;
  fmul := PrimFloat.mul;
  fdiv := PrimFloat.div;
  flt := PrimFloat.ltb;
  fle := PrimFloat.leb;
  feq := PrimFloat.eqb;
  fisnan := PrimFloat.is_nan;
  fnan := PrimFloat.nan;
  fofZ := B64.ofZ;
  ffloor := B64.floor;
  c0_25 := 0x1p-2%float;
  c0_5 := 0x1p-1%float;
  c0_6 := 0x1.3333333333333p-1%float;
  c0_75 := 0x1.8p-1%float;
  c1_5 := 0x1.8p+0%float;
  c100 := 0x1.9p+6%float;
|}.

(** *** Exact arithmetic *)

Inductive exact : Type :=
  | ENaN
  | EFin (q : Q).

Module Ex.

Definition lift2 (op : Q -> Q -> Q) (x y : exact) : exact :=
  match x, y with
  | EFin a, EFin b => EFin (op a b)
  | _, _ => ENaN
  end.

Definition div (x y : exact) : exact :=
  match x, y with
  | EFin a, EFin b => if Qeq_bool b 0 then ENaN else EFin (a / b)
  | _, _ => ENaN
  end.

Definition cmp (op : Q -> Q -> bool) (x y : exact) : bool :=
  match x, y with
  | EFin a, EFin b => op a b
  | _, _ => false
  end.

Definition Qlt_bool (a b : Q) : bool := negb (Qle_bool b a).

Definition isnan (x : exact) : bool :=
  match x with ENaN => true | EFin _ => false end.

Definition floor (x : exact) : Z :=
  match x with ENaN => 0 | EFin a => Qfloor a end.

End Ex.

#[export] Instance exact_arith : Float64 exact := {|
  fadd := Ex.lift2 Qplus;
  fsub := Ex.lift2 Qminus;
  fmul := Ex.lift2 Qmult;
  fdiv := Ex.div;
  flt := Ex.cmp Ex.Qlt_bool;
  fle := Ex.cmp Qle_bool;
  feq := Ex.cmp Qeq_bool;
  fisnan := Ex.isnan;
  fnan := ENaN;
  fofZ := fun z => EFin (inject_Z z);
  ffloor := Ex.floor;
  c0_25 := EFin (1 # 4);
  c0_5 := EFin (1 # 2);
  c0_6 := EFin (3 # 5);
  c0_75 := EFin (3 # 4);
  c1_5 := EFin (3 # 2);
  c100 := EFin (100 # 1);
|}.

(** ** Data frames

    A column is a typed array, as a pandas block is.  [int64] and [bool]
    arrays have no missing value; in a [float64] array the missing value
    is not-a-number; an [object] array holds strings or [None]; a
    [datetime64[ns]] array holds instants or [NaT]. *)

Inductive coldata (F : Type) : Type :=
  | IntCol (vs : list Z)
  | FloatCol (vs : list F)
  | ObjectCol (vs : list (option string))
  | DatetimeCol (vs : list (option Z))
  | BoolCol (vs : list bool).
Arguments IntCol {F} vs.
Arguments FloatCol {F} vs.
Arguments ObjectCol {F} vs.
Arguments DatetimeCol {F} vs.
Arguments BoolCol {F} vs.

Record column (F : Type) : Type := Column {
  col_name : string;
  col_data : coldata F;
}.
Arguments Column {F} col_name col_data.
Arguments col_name {F} c.
Arguments col_data {F} c.

(** [df_len] is [len(df)], the length of the index; [df_columns] is
    [df.columns] with the data of each. *)
Record DataFrame (F : Type) : Type := Frame {
  df_len : nat;
  df_columns : list (column F);
}.
Arguments Frame {F} df_len df_columns.
Arguments df_len {F} d.
Arguments df_columns {F} d.

(** One entry of a column, as a scalar. *)
Inductive cell (F : Type) : Type :=
  | CNull
  | CInt (z : Z)
  | CFloat (f : F)
  | CStr (s : string)
  | CTime (t : Z)
  | CBool (b : bool).
Arguments CNull {F}.
Arguments CInt {F} z.
Arguments CFloat {F} f.
Arguments CStr {F} s.
Arguments CTime {F} t.
Arguments CBool {F} b.

(** A pandas [Series]: index labels with their values, in order. *)
Abbreviation series V := (list (string * V)).

(** A dictionary filled by a loop: each item is stored under its key, or
    skipped ([continue]) when it has no value; a later key overwrites an
    earlier equal one. *)
Definition fill_dict {A V : Type} (key : A -> string) (val : A -> option V)
    (m : gmap string V) (items : list A) : gmap string V :=
  foldl (fun m x => match val x with
                    | Some v => <[key x := v]> m
                    | None => m
                    end) m items.

(** [Series.to_dict()] *)
Definition to_dict {V : Type} (s : series V) : gmap string V :=
  fill_dict fst (fun kv => Some kv.2) ∅ s.

Section Frames.
Context {F : Type} `{!Float64 F}.

Definition cells (d : coldata F) : list (cell F) :=
  match d with
  | IntCol vs => map CInt vs
  | FloatCol vs => map (fun f => if fisnan f then CNull else CFloat f) vs
  | ObjectCol vs => map (fun o => match o with Some s => CStr s | None => CNull end) vs
  | DatetimeCol vs => map (fun o => match o with Some t => CTime t | None => CNull end) vs
  | BoolCol vs => map CBool vs
  end.

Definition col_cells (c : column F) : list (cell F) := cells (col_data c).

(** [str(series.dtype)] *)
Definition dtype_str (d : coldata F) : string :=
  match d with
  | IntCol _ => "int64"
  | FloatCol _ => "float64"
  | ObjectCol _ => "object"
  | DatetimeCol _ => "datetime64[ns]"
  | BoolCol _ => "bool"
  end.

(** [select_dtypes(include=[np.number])], [include=["object"]],
    [include=["datetime64"]] *)
Definition is_number (d : coldata F) : bool :=
  match d with IntCol _ | FloatCol _ => true | _ => false end.
Definition is_object (d : coldata F) : bool :=
  match d with ObjectCol _ => true | _ => false end.
Definition is_datetime (d : coldata F) : bool :=
  match d with DatetimeCol _ => true | _ => false end.

Definition select_dtypes (p : coldata F -> bool) (d : DataFrame F) : list (column F) :=
  List.filter (fun c => p (col_data c)) (df_columns d).

Definition isnull (x : cell F) : bool :=
  match x with CNull => true | _ => false end.

Definition dropna (xs : list (cell F)) : list (cell F) :=
  List.filter (fun x => negb (isnull x)) xs.

(** The sum of a boolean array: [True] counts 1. *)
Definition sum_bools (bs : list bool) : nat :=
  fold_right (fun (b : bool) n => if b then S n else n) 0%nat bs.

Definition fofnat (n : nat) : F := fofZ (Z.of_nat n).

(** [x / n * 100] on numpy integers: true division in binary64, which
    yields not-a-number or an infinity when [n] is 0. *)
Definition percent (x n : nat) : F := fmul (fdiv (fofnat x) (fofnat n)) c100.

(** A dataset of the specification: rows across named columns.  Every
    column has [df_len] entries, the labels are pairwise different (what
    the readers produce and [self.df[col]] relies on), and a frame without
    columns has no rows. *)
Definition wf_frame (d : DataFrame F) : Prop :=
  Forall (fun c => length (col_cells c) = df_len d) (df_columns d)
  /\ NoDup (map col_name (df_columns d))
  /\ (df_columns d = [] -> df_len d = 0%nat).

End Frames.

(** ** The results of the checks

    Each record is one dictionary of the report, its fields named after
    the keys of the source. *)

Record basic_info : Type := BasicInfo {
  file_name : string;
  total_rows : nat;
  total_columns : nat;
  load_timestamp : string;
}.

Record missing_info (F : Type) : Type := MissingInfo {
  total_missing : nat;
  missing_by_column : gmap string nat;
  missing_percentage_by_column : gmap string F;
  columns_with_missing : list string;
}.
Arguments MissingInfo {F} _ _ _ _.
Arguments total_missing {F} m.
Arguments missing_by_column {F} m.
Arguments missing_percentage_by_column {F} m.
Arguments columns_with_missing {F} m.

Record types_info : Type := TypesInfo {
  column_types : gmap string string;
  numeric_columns : list string;
  categorical_columns : list string;
  datetime_columns : list string;
}.

Record duplicates_info (F : Type) : Type := DuplicatesInfo {
  total_duplicate_rows : nat;
  duplicate_percentage : F;
}.
Arguments DuplicatesInfo {F} _ _.
Arguments total_duplicate_rows {F} d.
Arguments duplicate_percentage {F} d.

Record outlier_info (F : Type) : Type := OutlierInfo {
  outlier_count : nat;
  outlier_percentage : F;
  lower_bound : F;
  upper_bound : F;
}.
Arguments OutlierInfo {F} _ _ _ _.
Arguments outlier_count {F} o.
Arguments outlier_percentage {F} o.
Arguments lower_bound {F} o.
Arguments upper_bound {F} o.

Record cardinality_info (F : Type) : Type := CardinalityInfo {
  unique_values : nat;
  cardinality_percentage : F;
  high_cardinality : bool;
}.
Arguments CardinalityInfo {F} _ _ _.
Arguments unique_values {F} c.
Arguments cardinality_percentage {F} c.
Arguments high_cardinality {F} c.

Record sample_info : Type := SampleInfo {
  detected_type : string;
  sample_values : list string;
  notes : string;
}.

(** The three tables of [generate_summary_statistics] are keyed by the
    numeric columns; the statistics themselves (mean, deviation, skewness,
    kurtosis) are not part of this model, only which columns they are
    computed for. *)
Record summary_info : Type := SummaryInfo {
  describe : list string;
  skewness : list string;
  kurtosis : list string;
}.

(** Python exceptions, with their message. *)
Inductive exn : Type :=
  | ValueError (msg : string)
  | ZeroDivisionError (msg : string)
  | AttributeError (msg : string)
  | OtherException (msg : string).

Definition exn_str (e : exn) : string :=
  match e with
  | ValueError m | ZeroDivisionError m | AttributeError m | OtherException m => m
  end.

(** What the program takes from outside: the three pandas readers, which
    return a frame or raise; the clock; the display strings of floats and
    instants ([str] on an integer is [pretty]); and Python's [str.isdigit],
    which consults the Unicode database (a string of the model is the
    UTF-8 text of a Python string). *)
Record runtime (F : Type) : Type := Runtime {
  read_csv : string -> exn + DataFrame F;
  read_excel : string -> exn + DataFrame F;
  read_parquet : string -> exn + DataFrame F;
  now : string;
  float_str : F -> string;
  datetime_str : Z -> string;
  str_isdigit : string -> bool;
}.
Arguments Runtime {F} _ _ _ _ _ _ _.
Arguments read_csv {F} r _.
Arguments read_excel {F} r _.
Arguments read_parquet {F} r _.
Arguments now {F} r.
Arguments float_str {F} r _.
Arguments datetime_str {F} r _.
Arguments str_isdigit {F} r _.

(** ** Missing values, data types, duplicates *)

Section Checks.
Context {F : Type} `{!Float64 F}.

(** [self.df.isnull().sum()]: per column, the sum of the null mask. *)
Definition isnull_sum (d : DataFrame F) : series nat :=
  map (fun c => (col_name c, sum_bools (map isnull (col_cells c)))) (df_columns d).

Definition series_sum (s : series nat) : nat :=
  fold_right (fun kv n => (kv.2 + n)%nat) 0%nat s.

Definition missing_values (d : DataFrame F) : missing_info F :=
  let missing_data := isnull_sum d in
  let missing_percentage :=
    map (fun kv => (kv.1, percent kv.2 (df_len d))) missing_data in
  {| total_missing := series_sum missing_data;
     missing_by_column := to_dict missing_data;
     missing_percentage_by_column := to_dict missing_percentage;
     columns_with_missing :=
       map fst (List.filter (fun kv => (0 <? kv.2)%nat) missing_data) |}.

Definition data_types (d : DataFrame F) : types_info :=
  {| column_types :=
       to_dict (map (fun c => (col_name c, dtype_str (col_data c))) (df_columns d));
     numeric_columns := map col_name (select_dtypes is_number d);
     categorical_columns := map col_name (select_dtypes is_object d);
     datetime_columns := map col_name (select_dtypes is_datetime d) |}.

(** Equality of two entries as [duplicated] and [nunique] see it: nulls
    are equal to each other, floats are compared with [==]. *)
Definition cell_eqb (x y : cell F) : bool :=
  match x, y with
  | CNull, CNull => true
  | CInt a, CInt b => a =? b
  | CFloat a, CFloat b => feq a b
  | CStr a, CStr b => String.eqb a b
  | CTime a, CTime b => a =? b
  | CBool a, CBool b => Bool.eqb a b
  | _, _ => false
  end.

Fixpoint row_eqb (r1 r2 : list (cell F)) : bool :=
  match r1, r2 with
  | [], [] => true
  | x :: r1', y :: r2' => cell_eqb x y && row_eqb r1' r2'
  | _, _ => false
  end.

(** Row [i], across all columns. *)
Definition row (d : DataFrame F) (i : nat) : list (cell F) :=
  map (fun c => nth i (col_cells c) CNull) (df_columns d).

Definition rows (d : DataFrame F) : list (list (cell F)) :=
  map (row d) (seq 0 (df_len d)).

(** [keep="first"]: a row is marked when an earlier row equals it. *)
Fixpoint duplicated_from (seen rs : list (list (cell F))) : list bool :=
  match rs with
  | [] => []
  | r :: rs' => existsb (row_eqb r) seen :: duplicated_from (seen ++ [r]) rs'
  end.

(** [df.empty]: some axis has length 0. *)
Definition df_empty (d : DataFrame F) : bool :=
  (df_len d =? 0)%nat || (length (df_columns d) =? 0)%nat.

(** [df.duplicated()]; on an empty frame pandas returns an empty mask. *)
Definition duplicated (d : DataFrame F) : list bool :=
  if df_empty d then [] else duplicated_from [] (rows d).

Definition duplicates (d : DataFrame F) : duplicates_info F :=
  let duplicate_rows := sum_bools (duplicated d) in
  {| total_duplicate_rows := duplicate_rows;
     duplicate_percentage := percent duplicate_rows (df_len d) |}.

End Checks.

(** ** Quantiles and outliers *)

(** Two's complement wrap-around of [int64] arithmetic. *)
Definition wrap64 (z : Z) : Z := (z + 2 ^ 63) mod 2 ^ 64 - 2 ^ 63.

(** [arr[i]] with Python's negative indices. *)
Definition at_index {V : Type} (s : list V) (i : Z) : option V :=
  if i <? 0 then s !! Z.to_nat (Z.of_nat (length s) + i) else s !! Z.to_nat i.

Section Quantile.
Context {F : Type} `{!Float64 F}.

(** The element type of the array: its order, its conversion to a float
    and its subtraction ([int64] subtraction for an integer array). *)
Context {V : Type} (leb : V -> V -> bool) (toF : V -> F) (sub : V -> V -> F).

Fixpoint insert_sorted (x : V) (l : list V) : list V :=
  match l with
  | [] => [x]
  | y :: l' => if leb x y then x :: l else y :: insert_sorted x l'
  end.

Definition sort (l : list V) : list V := fold_right insert_sorted [] l.

(** numpy's [_lerp(a, b, t)]: [a + (b - a) * t], and [b - (b - a) * (1 - t)]
    where [t >= 0.5]. *)
Definition lerp (a b : V) (t : F) : F :=
  let diff_b_a := sub b a in
  if fle c0_5 t then fsub (toF b) (fmul diff_b_a (fsub (fofZ 1) t))
  else fadd (toF a) (fmul diff_b_a t).

(** [np.percentile(values, 100 * q, method="linear")] on a non-empty array
    without nulls: the virtual index [(n - 1) * q], the two neighbours in
    the sorted array, and their interpolation. *)
Definition percentile (q : F) (values : list V) : F :=
  let arr := sort values in
  let n := Z.of_nat (length arr) in
  let virtual_index := fmul (fofZ (n - 1)) q in
  let floor_index := ffloor virtual_index in
  let '(previous_index, next_index) :=
    if fle (fofZ (n - 1)) virtual_index then (-1, -1)
    else if flt virtual_index (fofZ 0) then (0, 0)
    else (floor_index, floor_index + 1) in
  let gamma := fsub virtual_index (fofZ previous_index) in
  match at_index arr previous_index, at_index arr next_index with
  | Some previous, Some next => lerp previous next gamma
  | _, _ => fnan
  end.

End Quantile.

Section Outliers.
Context {F : Type} `{!Float64 F}.

Definition float_values (vs : list F) : list F :=
  List.filter (fun f => negb (fisnan f)) vs.

(** [Series.quantile(q)] of a numeric column: the percentile of its
    non-null values, not-a-number when there is none. *)
Definition quantile (d : coldata F) (q : F) : F :=
  match d with
  | IntCol [] => fnan
  | IntCol vs => percentile Z.leb fofZ (fun b a => fofZ (wrap64 (b - a))) q vs
  | FloatCol vs =>
      match float_values vs with
      | [] => fnan
      | xs => percentile fle (fun x => x) fsub q xs
      end
  | _ => fnan
  end.

(** The entries of a numeric column as they are compared with a float. *)
Definition as_floats (d : coldata F) : list F :=
  match d with
  | IntCol vs => map fofZ vs
  | FloatCol vs => vs
  | _ => []
  end.

Definition Q1 (c : column F) : F := quantile (col_data c) c0_25.
Definition Q3 (c : column F) : F := quantile (col_data c) c0_75.
Definition IQR (c : column F) : F := fsub (Q3 c) (Q1 c).

(** One turn of the loop of [check_numeric_outliers]: [None] is the
    [continue] of a column without non-null value. *)
Definition outliers_of (d : DataFrame F) (c : column F) : option (outlier_info F) :=
  match dropna (col_cells c) with
  | [] => None
  | _ =>
      let lower := fsub (Q1 c) (fmul c1_5 (IQR c)) in
      let upper := fadd (Q3 c) (fmul c1_5 (IQR c)) in
      let count :=
        sum_bools (map (fun x => flt x lower || flt upper x) (as_floats (col_data c))) in
      Some {| outlier_count := count;
              outlier_percentage := percent count (df_len d);
              lower_bound := lower;
              upper_bound := upper |}
  end.

Definition numeric_outliers (d : DataFrame F) : gmap string (outlier_info F) :=
  fill_dict col_name (outliers_of d) ∅ (select_dtypes is_number d).

End Outliers.

(** Scenario B, on binary64. *)
Definition scenario_B : DataFrame float :=
  Frame 6 [Column "x" (IntCol [1; 2; 3; 4; 5; 100])].

(** ** Strings *)

(** [s.endswith(suffix)] *)
Definition endswith (s suffix : string) : bool :=
  let n := String.length s in
  let m := String.length suffix in
  (m <=? n)%nat && String.eqb (substring (n - m) m s) suffix.

(** [s.split("/")[-1]]: what follows the last slash. *)
Fixpoint last_component_from (acc s : string) : string :=
  match s with
  | EmptyString => acc
  | String c s' =>
      if Ascii.eqb c "/" then last_component_from EmptyString s'
      else last_component_from (acc +:+ String c EmptyString) s'
  end.
Definition last_component (s : string) : string := last_component_from EmptyString s.

(** [s.replace(".", "", 1)]: the first point, if any, is removed. *)
Fixpoint replace_first_point (s : string) : string :=
  match s with
  | EmptyString => EmptyString
  | String c s' => if Ascii.eqb c "." then s' else String c (replace_first_point s')
  end.

Definition digit_char (c : ascii) : bool :=
  let n := nat_of_ascii c in (48 <=? n)%nat && (n <=? 57)%nat.

Fixpoint all_digits (s : string) : bool :=
  match s with
  | EmptyString => true
  | String c s' => digit_char c && all_digits s'
  end.

(** [s.isdigit()] as it is on ASCII text: not empty, and every character
    one of [0] to [9].  The digit test of the sample runtimes. *)
Definition ascii_isdigit (s : string) : bool :=
  match s with
  | EmptyString => false
  | _ => all_digits s
  end.

(** [unique()]: the values in the order of their first appearance. *)
Fixpoint unique_by {A : Type} (eqb : A -> A -> bool) (l : list A) : list A :=
  match l with
  | [] => []
  | x :: l' => x :: List.filter (fun y => negb (eqb x y)) (unique_by eqb l')
  end.

(** ** Samples, cardinality, summary statistics *)

Section Samples.
Context {F : Type} `{!Float64 F}.
Variable rt : runtime F.

(** [str(x)] of one non-null entry, as [astype(str)] gives it. *)
Definition astype_str (x : cell F) : string :=
  match x with
  | CNull => "nan"
  | CInt z => pretty z
  | CFloat f => float_str rt f
  | CStr s => s
  | CTime t => datetime_str rt t
  | CBool b => if b then "True" else "False"
  end.

(** The test of the source on one sample: [s.replace(".", "", 1).isdigit()] *)
Definition numeric_literal (s : string) : bool :=
  str_isdigit rt (replace_first_point s).

Definition no_values : string := "<no non-null values>".
Definition numeric_flag : string := "⚠️ POSSIBLE NUMERIC STORED AS STRING".

(** [self.df[col].dropna().astype(str).unique()[:sample_size].tolist()] *)
Definition first_samples (sample_size : nat) (c : column F) : list string :=
  take sample_size (unique_by String.eqb (map astype_str (dropna (col_cells c)))).

(** One turn of the loop of [inspect_column_samples]. *)
Definition sample_of (sample_size : nat) (c : column F) : sample_info :=
  let dtype := dtype_str (col_data c) in
  let samples :=
    match first_samples sample_size c with
    | [] => [no_values]
    | l => l
    end in
  let flag :=
    if String.eqb dtype "object" then
      let numeric_like := sum_bools (map numeric_literal samples) in
      if (0 <? length samples)%nat
         && flt c0_6 (fdiv (fofnat numeric_like) (fofnat (length samples)))
      then numeric_flag else EmptyString
    else EmptyString in
  {| detected_type := dtype; sample_values := samples; notes := flag |}.

Definition column_samples (sample_size : nat) (d : DataFrame F) : gmap string sample_info :=
  fill_dict col_name (fun c => Some (sample_of sample_size c)) ∅ (df_columns d).

End Samples.

Section Cardinality.
Context {F : Type} `{!Float64 F}.

(** [Series.nunique(dropna=True)], a Python [int]. *)
Definition nunique (c : column F) : nat :=
  length (unique_by cell_eqb (dropna (col_cells c))).

(** One turn of the loop of [check_cardinality].  [unique_count] and
    [len(self.df)] are Python integers, and their division raises on a
    zero divisor. *)
Definition cardinality_of (d : DataFrame F) (c : column F) : exn + cardinality_info F :=
  let unique_count := nunique c in
  if (df_len d =? 0)%nat then inl (ZeroDivisionError "division by zero")
  else inr {| unique_values := unique_count;
              cardinality_percentage := percent unique_count (df_len d);
              high_cardinality := flt (fmul (fofnat (df_len d)) c0_5) (fofnat unique_count) |}.

Fixpoint cardinality_loop (d : DataFrame F) (cols : list (column F))
    (cardinality : gmap string (cardinality_info F))
    : exn + gmap string (cardinality_info F) :=
  match cols with
  | [] => inr cardinality
  | c :: cols' =>
      match cardinality_of d c with
      | inl e => inl e
      | inr r => cardinality_loop d cols' (<[col_name c := r]> cardinality)
      end
  end.

Definition cardinality (d : DataFrame F) : exn + gmap string (cardinality_info F) :=
  cardinality_loop d (select_dtypes is_object d) ∅.

(** [describe()] refuses a frame without columns. *)
Definition summary_statistics (d : DataFrame F) : exn + summary_info :=
  match select_dtypes is_number d with
  | [] => inl (ValueError "Cannot describe a DataFrame without columns")
  | numeric_cols =>
      let keys := map col_name numeric_cols in
      inr {| describe := keys; skewness := keys; kurtosis := keys |}
  end.

End Cardinality.

(** ** The checker object *)

Inductive check_result (F : Type) : Type :=
  | RBasicInfo (b : basic_info)
  | RMissingValues (m : missing_info F)
  | RDataTypes (t : types_info)
  | RDuplicates (d : duplicates_info F)
  | ROutliers (o : gmap string (outlier_info F))
  | RCardinality (c : gmap string (cardinality_info F))
  | RSummaryStatistics (s : summary_info)
  | RSampleInspection (s : gmap string sample_info).
Arguments RBasicInfo {F} b.
Arguments RMissingValues {F} m.
Arguments RDataTypes {F} t.
Arguments RDuplicates {F} d.
Arguments ROutliers {F} o.
Arguments RCardinality {F} c.
Arguments RSummaryStatistics {F} s.
Arguments RSampleInspection {F} s.

Inductive log_entry : Type :=
  | LogInfo (msg : string)
  | LogError (msg : string).

(** The attributes of [self], with what the object has logged and
    printed so far. *)
Record checker (F : Type) : Type := Checker {
  self_file_path : option string;
  self_df : option (DataFrame F);
  self_file_name : string;
  self_quality_report : gmap string (check_result F);
  logged : list log_entry;
  printed : list string;
}.
Arguments Checker {F} _ _ _ _ _ _.
Arguments self_file_path {F} c.
Arguments self_df {F} c.
Arguments self_file_name {F} c.
Arguments self_quality_report {F} c.
Arguments logged {F} c.
Arguments printed {F} c.

(** How a method ends: it returns a value or raises. *)
Inductive outcome (A : Type) : Type :=
  | Returned (a : A)
  | Raised (e : exn).
Arguments Returned {A} a.
Arguments Raised {A} e.

(** A method: from the object before the call to how the call ends and
    the object after it. *)
Definition method (F A : Type) : Type := checker F -> outcome A * checker F.

Definition ret {F A : Type} (a : A) : method F A := fun self => (Returned a, self).

Definition bind {F A B : Type} (m : method F A) (k : A -> method F B) : method F B :=
  fun self =>
    match m self with
    | (Returned a, self') => k a self'
    | (Raised e, self') => (Raised e, self')
    end.

Definition raise {F A : Type} (e : exn) : method F A := fun self => (Raised e, self).

Notation "x <- m ;; k" := (bind m (fun x => k))
  (at level 100, m at next level, right associativity).
Notation "m ;;; k" := (bind m (fun _ => k))
  (at level 100, right associativity).

(** Python's truth value of [None] and of a string. *)
Definition truthy (o : option string) : bool :=
  match o with
  | Some (String _ _) => true
  | _ => false
  end.

Section Checker.
Context {F : Type} `{!Float64 F}.
Variable rt : runtime F.

(** [self.quality_report[key] = value] *)
Definition set_report (key : string) (value : check_result F) : method F unit :=
  fun self =>
    (Returned tt,
     Checker (self_file_path self) (self_df self) (self_file_name self)
       (<[key := value]> (self_quality_report self)) (logged self) (printed self)).

Definition set_df (d : DataFrame F) : method F unit :=
  fun self =>
    (Returned tt,
     Checker (self_file_path self) (Some d) (self_file_name self)
       (self_quality_report self) (logged self) (printed self)).

Definition logging (entry : log_entry) : method F unit :=
  fun self =>
    (Returned tt,
     Checker (self_file_path self) (self_df self) (self_file_name self)
       (self_quality_report self) (logged self ++ [entry]) (printed self)).

Definition print (line : string) : method F unit :=
  fun self =>
    (Returned tt,
     Checker (self_file_path self) (self_df self) (self_file_name self)
       (self_quality_report self) (logged self) (printed self ++ [line])).

(** [self.df.attr]: an attribute of [None] does not exist. *)
Definition the_df (attr : string) : method F (DataFrame F) :=
  fun self =>
    match self_df self with
    | Some d => (Returned d, self)
    | None =>
        (Raised (AttributeError ("'NoneType' object has no attribute '" +:+ attr +:+ "'")),
         self)
    end.

(** Lifting of a computation that raises or yields a value. *)
Definition lift {A : Type} (r : exn + A) : method F A :=
  match r with
  | inl e => raise e
  | inr a => ret a
  end.

(** [__init__] *)
Definition init (file_path : option string) (df : option (DataFrame F))
    (fname : option string) : checker F :=
  let name :=
    match fname with
    | Some (String a s) => String a s
    | _ => if truthy file_path then last_component (default EmptyString file_path)
           else "DataFrame"
    end in
  Checker file_path df name ∅
    [LogInfo ("Initialized DataQualityChecker for: " +:+ name)] [].

Definition unsupported_format : exn :=
  ValueError "Unsupported file format. Use CSV, XLSX, or PARQUET.".

(** The dispatch on the suffix inside the [try] of [load_data]: the frame
    that is read, or the exception that the [except] clause receives. *)
Definition read_file (path : string) : exn + DataFrame F :=
  if endswith path ".csv" then read_csv rt path
  else if endswith path ".xlsx" then read_excel rt path
  else if endswith path ".parquet" then read_parquet rt path
  else inl unsupported_format.

Definition basic_info_of (name : string) (d : DataFrame F) : check_result F :=
  RBasicInfo {| file_name := name;
                total_rows := df_len d;
                total_columns := length (df_columns d);
                load_timestamp := now rt |}.

Definition load_data : method F bool :=
  fun self =>
    match self_df self with
    | Some d =>
        (set_report "basic_info" (basic_info_of (self_file_name self) d) ;;;
         logging (LogInfo "Using provided DataFrame.") ;;;
         ret true) self
    | None =>
        if negb (truthy (self_file_path self)) then
          (logging (LogError "No file path or DataFrame provided.") ;;;
           ret false) self
        else
          let path := default EmptyString (self_file_path self) in
          match read_file path with
          | inr d =>
              (set_df d ;;;
               set_report "basic_info" (basic_info_of (last_component path) d) ;;;
               logging (LogInfo "Data loaded successfully from file.") ;;;
               ret true) self
          | inl e =>
              (logging (LogError ("Error loading file: " +:+ exn_str e)) ;;;
               print ("❌ Error loading file: " +:+ exn_str e) ;;;
               ret false) self
          end
    end.

Definition check_missing_values : method F unit :=
  d <- the_df "isnull" ;;
  set_report "missing_values" (RMissingValues (missing_values d)) ;;;
  logging (LogInfo "Checked missing values.").

Definition check_data_types : method F unit :=
  d <- the_df "dtypes" ;;
  set_report "data_types" (RDataTypes (data_types d)) ;;;
  logging (LogInfo "Checked data types.").

Definition check_duplicates : method F unit :=
  d <- the_df "duplicated" ;;
  set_report "duplicates" (RDuplicates (duplicates d)) ;;;
  logging (LogInfo "Checked duplicates.").

Definition check_numeric_outliers : method F unit :=
  d <- the_df "select_dtypes" ;;
  set_report "outliers" (ROutliers (numeric_outliers d)) ;;;
  logging (LogInfo "Checked numeric outliers.").

Definition inspect_column_samples (sample_size : nat) : method F unit :=
  d <- the_df "columns" ;;
  set_report "sample_inspection" (RSampleInspection (column_samples rt sample_size d)) ;;;
  logging (LogInfo "Inspected column samples.").

Definition check_cardinality : method F unit :=
  d <- the_df "select_dtypes" ;;
  cardinality <- lift (cardinality d) ;;
  set_report "cardinality" (RCardinality cardinality) ;;;
  logging (LogInfo "Checked cardinality.").

Definition generate_summary_statistics : method F unit :=
  d <- the_df "select_dtypes" ;;
  summary <- lift (summary_statistics d) ;;
  set_report "summary_statistics" (RSummaryStatistics summary) ;;;
  logging (LogInfo "Generated summary statistics.").

(** [run_all_checks]: [None] when loading failed, else the report after
    the seven checks; an exception of a check is not caught. *)
Definition run_all_checks : method F (option (gmap string (check_result F))) :=
  loaded <- load_data ;;
  if negb loaded then ret None
  else
    check_missing_values ;;;
    check_data_types ;;;
    check_duplicates ;;;
    check_numeric_outliers ;;;
    check_cardinality ;;;
    generate_summary_statistics ;;;
    inspect_column_samples 3 ;;;
    logging (LogInfo "All checks completed.") ;;;
    (fun self => (Returned (Some (self_quality_report self)), self)).

End Checker.

(** ** Vocabulary of the properties *)

Section Vocabulary.
Context {F : Type} `{!Float64 F}.

Definition report_keys : list string :=
  ["basic_info"; "missing_values"; "data_types"; "duplicates"; "outliers";
   "cardinality"; "summary_statistics"; "sample_inspection"].

(** The report holds every key of the list. *)
Definition complete_report (report : gmap string (check_result F)) : Prop :=
  Forall (fun key => is_Some (report !! key)) report_keys.

(** The suffixes [load_data] dispatches on. *)
Definition recognized (path : string) : bool :=
  endswith path ".csv" || endswith path ".xlsx" || endswith path ".parquet".

(** The number of null entries of a column. *)
Definition null_entries (c : column F) : nat :=
  length (List.filter isnull (col_cells c)).

(** Row [i] equals some earlier row, across all columns. *)
Definition repeats_earlier (d : DataFrame F) (i : nat) : bool :=
  existsb (fun j => row_eqb (row d i) (row d j)) (seq 0 i).

(** On this dataset the three percentage computations are safe: none
    raises and none yields not-a-number. *)
Definition percentages_safe (d : DataFrame F) : Prop :=
  (forall name p,
     missing_percentage_by_column (missing_values d) !! name = Some p ->
     fisnan p = false)
  /\ fisnan (duplicate_percentage (duplicates d)) = false
  /\ exists m, cardinality d = inr m
       /\ forall name r, m !! name = Some r -> fisnan (cardinality_percentage r) = false.

(** The fences of the outlier check are ordered around the quartiles,
    for every numeric column with a non-null value; a numeric column
    without one has no entry. *)
Definition fences_ordered (d : DataFrame F) : Prop :=
  forall c, In c (select_dtypes is_number d) ->
    (dropna (col_cells c) <> [] ->
     exists r,
       numeric_outliers d !! col_name c = Some r
       /\ lower_bound r = fsub (Q1 c) (fmul c1_5 (IQR c))
       /\ upper_bound r = fadd (Q3 c) (fmul c1_5 (IQR c))
       /\ fle (lower_bound r) (Q1 c) = true
       /\ fle (Q1 c) (Q3 c) = true
       /\ fle (Q3 c) (upper_bound r) = true)
    /\ (dropna (col_cells c) = [] -> numeric_outliers d !! col_name c = None).

(** The integers of the dataset are so small that the [int64]
    subtraction of two of them does not wrap around. *)
Definition small_int (z : Z) : Prop := - 2 ^ 62 <= z < 2 ^ 62.

Definition int64_small (d : DataFrame F) : Prop :=
  forall c vs, In c (df_columns d) -> col_data c = IntCol vs -> List.Forall small_int vs.

(** The set of the non-null values of a text column. *)
Definition distinct_values (c : column F) : gset string :=
  match col_data c with
  | ObjectCol vs => list_to_set (omap (fun o => o) vs)
  | _ => ∅
  end.

End Vocabulary.

(** ** Vocabulary of binary64 rounding

    The operations of [binary64] are specified on sign, mantissa and
    exponent by the functions of [SpecFloat]. *)

(** The magnitude of a binary64 number [m * 2 ^ e], as a multiple of the
    smallest positive number [2 ^ -1074]. *)
Definition mag (m : positive) (e : Z) : Z := Z.pos m * 2 ^ (e + 1074).

(** The value of a finite number, in the same unit. *)
Definition sval (s : bool) (m : positive) (e : Z) : Z :=
  if s then - mag m e else mag m e.

(** The non-negative numbers: a zero, a positive number, plus infinity. *)
Definition nonneg (x : spec_float) : bool :=
  match x with
  | S754_zero _ => true
  | S754_infinity s | S754_finite s _ _ => negb s
  | S754_nan => false
  end.

(** After [k] steps of the right shift from an exact record of [M]: the
    mantissa is [M / 2 ^ k], and nothing was recorded if nothing was
    lost. *)
Definition shifted (M : Z) (k : Z) (mrs : shr_record) : Prop :=
  shr_m mrs = M / 2 ^ k
  /\ (M mod 2 ^ k = 0 -> shr_r mrs = false /\ shr_s mrs = false).

(** [r] is a rounding of the positive magnitude [V] with sign [s]: for
    some target exponent [E], [V] is truncated to a multiple of [2 ^ E]
    of at least 53 digits when [E] is above the smallest exponent, at
    most one unit is added, none if nothing was lost, and [r] is the valid
    number of exactly that magnitude unless it overflows. *)
Definition rounds_to (V : Z) (r : spec_float) (s : bool) : Prop :=
  exists E m2,
    -1074 <= E
    /\ V / 2 ^ (E + 1074) <= m2 <= V / 2 ^ (E + 1074) + 1
    /\ (V mod 2 ^ (E + 1074) = 0 -> m2 = V / 2 ^ (E + 1074))
    /\ 1 <= V / 2 ^ (E + 1074)
    /\ (-1074 < E -> 2 ^ 52 <= V / 2 ^ (E + 1074))
    /\ ((r = S754_infinity s /\ 2 ^ 2098 <= m2 * 2 ^ (E + 1074))
        \/ exists m3 e3, r = S754_finite s m3 e3
                         /\ mag m3 e3 = m2 * 2 ^ (E + 1074)
                         /\ bounded prec emax m3 e3 = true).

(** The value of a number, in units of [2 ^ -1074]. *)
Definition qval (x : spec_float) : Z :=
  match x with
  | S754_finite s m e => sval s m e
  | _ => 0
  end.

(** [x] is the number [k / 4], with a positive zero. *)
Definition quarters (x : spec_float) (k : Z) : Prop :=
  match k with
  | 0 => x = S754_zero false
  | Z.pos p => exists m e, x = S754_finite false m e /\ mag m e = Z.pos p * 2 ^ 1072
  | Z.neg p => exists m e, x = S754_finite true m e /\ mag m e = Z.pos p * 2 ^ 1072
  end.

(** [B64.floor] on sign, mantissa and exponent. *)
Definition sf_floor (x : spec_float) : Z :=
  match x with
  | S754_finite s m e =>
      let v := if s then Z.neg m else Z.pos m in
      if 0 <=? e then v * 2 ^ e else v / 2 ^ (- e)
  | _ => 0
  end.

(** ** Vocabulary of the exact runs on binary64 *)

(** The float [f] is the number [k / 4]. *)
Definition b64_quarters (f : float) (k : Z) : Prop := quarters (Prim2SF f) k.

(** The quartile of a sorted array of integers, in quarters: the linear
    interpolation at the index [t / 4], for [t] in quarters of an index. *)
Definition interpolated (arr : list Z) (t : Z) : Z :=
  let i := Z.to_nat (t / 4) in
  match arr !! i, arr !! Nat.min (S i) (length arr - 1) with
  | Some a, Some b => 4 * a + (b - a) * (t mod 4)
  | _, _ => 0
  end.

(** The integers of a column are small: at most [2 ^ 49] in absolute
    value. *)
Definition tiny_int (z : Z) : Prop := - 2 ^ 49 <= z <= 2 ^ 49.

(** The non-null values of a numeric column are integers of absolute value
    at most [2 ^ 49], stored as [int64] or as floats. *)
Definition small_integers (cd : coldata float) : Prop :=
  match cd with
  | IntCol vs => List.Forall tiny_int vs
  | FloatCol vs =>
      List.Forall (fun x => fisnan x = true \/ exists z, tiny_int z /\ x = fofZ z) vs
  | _ => False
  end.

(** The rational of an exact number, and the exact numbers that have one. *)
Definition exact_val (x : exact) : Q :=
  match x with EFin q => q | ENaN => 0%Q end.

Definition is_fin (x : exact) : Prop := exists q, x = EFin q.

(** The strings of a list in the order they are first met, as a loop with
    the list of the strings seen so far. *)
Definition first_seen (l : list string) : list string :=
  foldl (fun seen x => if existsb (String.eqb x) seen then seen else seen ++ [x]) [] l.

(** A numeric literal as the specification words it: digits with at most
    one decimal point. *)
Definition point_char (c : ascii) : bool := Ascii.eqb c ".".

Fixpoint count_points (s : string) : nat :=
  match s with
  | EmptyString => 0
  | String c s' => ((if point_char c then 1 else 0) + count_points s')%nat
  end.

Fixpoint remove_points (s : string) : string :=
  match s with
  | EmptyString => EmptyString
  | String c s' => if point_char c then remove_points s' else String c (remove_points s')
  end.

Section SampleVocabulary.
Context {F : Type} `{!Float64 F}.
Variable rt : runtime F.

(** At most one point, and digits once the point is taken out. *)
Definition plain_decimal (s : string) : bool :=
  (count_points s <=? 1)%nat && str_isdigit rt (remove_points s).

(** No string of digits contains a point: a fact of the Unicode database. *)
Definition digits_exclude_point : Prop :=
  forall s, str_isdigit rt s = true -> count_points s = 0%nat.

(** The set of the display strings of the non-null values of a column. *)
Definition display_strings (c : column F) : gset string :=
  list_to_set (map (astype_str rt) (dropna (col_cells c))).

(** Values that the program takes as equal have the same display string. *)
Definition displays_agree (c : column F) : Prop :=
  forall x y, In x (dropna (col_cells c)) -> In y (dropna (col_cells c)) ->
    cell_eqb x y = true -> astype_str rt x = astype_str rt y.

(** No column has more samples than [min 3] of the number of its distinct
    non-null values, unless it has no non-null value. *)
Definition samples_within_distinct (d : DataFrame F) : Prop :=
  forall c r, In c (df_columns d) -> dropna (col_cells c) <> [] ->
    column_samples rt 3 d !! col_name c = Some r ->
    (length (sample_values r) <= Nat.min 3 (nunique c))%nat.

End SampleVocabulary.

(** [k] of [n] is strictly more than 60 percent. *)
Definition above_60_percent (k n : nat) : bool := (3 * n <? 5 * k)%nat.

(** ** Sample data *)

(** A runtime whose readers find no parsable file, and a plain display of
    floats by their integer part. *)
Definition no_files : runtime float :=
  Runtime (fun _ => inl (OtherException "Error tokenizing data"))
          (fun _ => inl (OtherException "File is not a zip file"))
          (fun _ => inl (OtherException "Parquet magic bytes not found"))
          "2024-01-01 00:00:00"
          (fun f => pretty (B64.floor f))
          (fun t => pretty t)
          ascii_isdigit.

(** The same runtime with a display of floats that shows the sign, as
    Python does: [str(0.0)] is [0.0] and [str(-0.0)] is [-0.0]. *)
Definition signed_display (f : float) : string :=
  (if PrimFloat.get_sign f then "-" else "")
  +:+ pretty (Z.abs (B64.floor f)) +:+ ".0".

Definition no_files_signed : runtime float :=
  Runtime (read_csv no_files) (read_excel no_files) (read_parquet no_files)
          (now no_files) signed_display (datetime_str no_files) ascii_isdigit.

(** A float column with the two zeros. *)
Definition zeros : column float :=
  Column "z" (FloatCol [PrimFloat.zero; PrimFloat.neg_zero]).
Definition two_zeros : DataFrame float := Frame 2 [zeros].

(** Scenario A: four rows, the third [age] missing, the last row equal to
    the first. *)
Definition scenario_A : DataFrame float :=
  Frame 4 [Column "age" (FloatCol [25; 30; PrimFloat.nan; 25]%float);
           Column "name" (ObjectCol [Some "ann"; Some "bob"; None; Some "ann"])].


(** Scenario C: a text column, two of its three values numeric literals. *)
Definition codes : column float :=
  Column "code" (ObjectCol [Some "1"; Some "2"; Some "x"]).
Definition scenario_C : DataFrame float := Frame 3 [codes].

(** Scenario D: a file with a header and no row. *)
Definition scenario_D : DataFrame float :=
  Frame 0 [Column "age" (FloatCol []); Column "name" (ObjectCol [])].

(** A column whose only value is infinite, and a column of two finite
    values whose difference overflows. *)
Definition infinite_column : DataFrame float :=
  Frame 1 [Column "x" (FloatCol [PrimFloat.infinity])].

Definition huge_column : DataFrame float :=
  Frame 2 [Column "x" (FloatCol [-0x1.fp1023; 0x1.fp1023]%float)].

(** Scenario B with a column of floats with gaps and a column without any
    value. *)
Definition gaps : column float :=
  Column "y" (FloatCol [0.5; PrimFloat.nan; 2.5; 0; PrimFloat.nan; -4]%float).
Definition blanks : column float :=
  Column "z" (FloatCol [PrimFloat.nan; PrimFloat.nan; PrimFloat.nan;
                        PrimFloat.nan; PrimFloat.nan; PrimFloat.nan]).
Definition scenario_B_gaps : DataFrame float :=
  Frame 6 [Column "x" (IntCol [1; 2; 3; 4; 5; 100]); gaps; blanks].

(** The same frame in exact arithmetic. *)
Definition scenario_B_exact : DataFrame exact :=
  Frame 6 [Column "x" (IntCol [1; 2; 3; 4; 5; 100]);
           Column "y" (FloatCol [EFin (1 # 2); ENaN; EFin (7 # 3); EFin 0; ENaN; EFin (-4)]);
           Column "z" (FloatCol [ENaN; ENaN; ENaN; ENaN; ENaN; ENaN])].


(** ** Vocabulary of the further properties *)

(** A string without a slash. *)
Fixpoint no_slash (s : string) : bool :=
  match s with
  | EmptyString => true
  | String c s' => negb (Ascii.eqb c "/") && no_slash s'
  end.

(** The last character of a string. *)
Fixpoint last_char (s : string) : option ascii :=
  match s with
  | EmptyString => None
  | String c EmptyString => Some c
  | String _ s' => last_char s'
  end.

Section RunVocabulary.
Context {F : Type} `{!Float64 F}.
Variable rt : runtime F.

(** The report after [load_data] and the first four checks on frame [d]. *)
Definition report_before_cardinality (name : string) (d : DataFrame F)
    (report : gmap string (check_result F)) : gmap string (check_result F) :=
  <["outliers" := ROutliers (numeric_outliers d)]>
  (<["duplicates" := RDuplicates (duplicates d)]>
  (<["data_types" := RDataTypes (data_types d)]>
  (<["missing_values" := RMissingValues (missing_values d)]>
  (<["basic_info" := basic_info_of rt name d]> report)))).

(** The report after all the checks. *)
Definition full_report (name : string) (d : DataFrame F)
    (c : gmap string (cardinality_info F)) (m : summary_info)
    (report : gmap string (check_result F)) : gmap string (check_result F) :=
  <["sample_inspection" := RSampleInspection (column_samples rt 3 d)]>
  (<["summary_statistics" := RSummaryStatistics m]>
  (<["cardinality" := RCardinality c]>
  (report_before_cardinality name d report))).

End RunVocabulary.

(** ** The head of [generate_text_report] *)

(** How the statements before the formatting end: with the three entries
    read by subscript and the one read by [get], with the [KeyError] of a
    subscript, or with the exception of [run_all_checks]. *)
Inductive report_head (F : Type) : Type :=
  | Head (basic missing dupes : check_result F) (samples : option (check_result F))
  | KeyError (key : string)
  | RunRaised (e : exn).
Arguments Head {F} basic missing dupes samples.
Arguments KeyError {F} key.
Arguments RunRaised {F} e.

Section TextReport.
Context {F : Type} `{!Float64 F}.
Variable rt : runtime F.

(** [self.quality_report[...]] three times, then [get] *)
Definition report_entries (report : gmap string (check_result F)) : report_head F :=
  match report !! "basic_info" with
  | None => KeyError "basic_info"
  | Some basic =>
      match report !! "missing_values" with
      | None => KeyError "missing_values"
      | Some missing =>
          match report !! "duplicates" with
          | None => KeyError "duplicates"
          | Some dupes => Head basic missing dupes (report !! "sample_inspection")
          end
      end
  end.

(** [generate_text_report], up to the formatting of the lines: the
    checks are run when the report is empty, and only then. *)
Definition generate_text_report_head (self : checker F) : report_head F * checker F :=
  if (size (self_quality_report self) =? 0)%nat then
    match run_all_checks rt self with
    | (Raised e, self') => (RunRaised e, self')
    | (Returned _, self') => (report_entries (self_quality_report self'), self')
    end
  else (report_entries (self_quality_report self), self).

End TextReport.
(** * Properties *)

(** ** Arithmetic on binary64 *)

Example b64_ofZ_100 : B64.ofZ 100 = 100%float.
Proof. reflexivity. Qed.

Example b64_floor_ex : B64.floor 3.75%float = 3 /\ B64.floor (-0.5)%float = -1.
Proof. split; reflexivity. Qed.

Example b64_lit : (fdiv (fofZ 6) (fofZ 10) = c0_6 :> float) /\ (fdiv (fofZ 3) (fofZ 4) = c0_75 :> float).
Proof. split; reflexivity. Qed.

Example scenario_B_run :
  numeric_outliers scenario_B !! "x"
  = Some (OutlierInfo 1%nat (1 / 6 * 100)%float (-1.5)%float 8.5%float).
Proof. vm_compute. reflexivity. Qed.

(** ** Loading and orchestration *)

Section Orchestration.
Context {F : Type} `{!Float64 F}.
Variable rt : runtime F.

Lemma read_file_unrecognized path :
  recognized path = false -> read_file rt path = inl unsupported_format.
Proof.
  unfold recognized, read_file. intros H.
  apply orb_false_iff in H as [H Hp]. apply orb_false_iff in H as [Hc Hx].
  now rewrite Hc, Hx, Hp.
Qed.

(** [load_data] never raises. *)
Lemma load_data_returns (self : checker F) :
  exists b self', load_data rt self = (Returned b, self').
Proof.
  unfold load_data. destruct (self_df self) as [d|]; [eauto|].
  destruct (truthy (self_file_path self)); cbn [negb]; [|eauto].
  destruct (read_file rt _); eauto.
Qed.

(** A failed load leaves the report and the data frame as they were. *)
Lemma load_data_false (self self' : checker F) :
  load_data rt self = (Returned false, self') ->
  self_quality_report self' = self_quality_report self /\ self_df self' = self_df self.
Proof.
  unfold load_data. destruct (self_df self) as [d|] eqn:Hd.
  - cbn. intros [=].
  - destruct (truthy (self_file_path self)); cbn [negb].
    + destruct (read_file rt _); cbn; intros [=]; subst; cbn; auto.
    + cbn. intros [=]. subst. cbn. auto.
Qed.

(** When the [try] of [load_data] receives an exception, the method logs
    it and answers [False]. *)
Lemma load_data_failure (self : checker F) path e :
  self_df self = None ->
  self_file_path self = Some path ->
  truthy (Some path) = true ->
  read_file rt path = inl e ->
  exists self',
    load_data rt self = (Returned false, self')
    /\ logged self' = logged self ++ [LogError ("Error loading file: " +:+ exn_str e)].
Proof.
  intros Hd Hp Ht He. unfold load_data. rewrite Hd, Hp, Ht.
  change (default EmptyString (Some path)) with path. cbn [negb].
  rewrite He. cbn. eauto.
Qed.

Lemma run_all_checks_not_loaded (self self' : checker F) :
  load_data rt self = (Returned false, self') ->
  run_all_checks rt self = (Returned None, self').
Proof. intros H. unfold run_all_checks, bind. now rewrite H. Qed.

End Orchestration.

Section Reports.
Context {F : Type} `{!Float64 F}.
Variable rt : runtime F.

(** A successful load stores a frame and the first key. *)
Lemma load_data_true (self self' : checker F) :
  load_data rt self = (Returned true, self') ->
  is_Some (self_df self') /\ is_Some (self_quality_report self' !! "basic_info").
Proof.
  unfold load_data. destruct (self_df self) as [d|] eqn:Hd.
  - cbn. intros [=]. subst. cbn. rewrite Hd. split; [eauto|].
    rewrite lookup_insert_eq. eauto.
  - destruct (truthy (self_file_path self)); cbn [negb].
    + destruct (read_file rt _); cbn; intros [=]; subst; cbn.
      split; [eauto|]. rewrite lookup_insert_eq. eauto.
    + cbn. intros [=].
Qed.

(** The run after a successful load, step by step: the two checks that
    can raise decide whether a report is returned, and the report is the
    one of the object with the seven keys added. *)
Lemma checks_after_load (s : checker F) d rep s' :
  self_df s = Some d ->
  (check_missing_values ;;;
   check_data_types ;;;
   check_duplicates ;;;
   check_numeric_outliers ;;;
   check_cardinality ;;;
   generate_summary_statistics ;;;
   inspect_column_samples rt 3 ;;;
   logging (LogInfo "All checks completed.") ;;;
   (fun self => (Returned (Some (self_quality_report self)), self))) s
  = (Returned (Some rep), s') ->
  exists c m,
    cardinality d = inr c /\ summary_statistics d = inr m
    /\ rep =
       <["sample_inspection" := RSampleInspection (column_samples rt 3 d)]>
       (<["summary_statistics" := RSummaryStatistics m]>
       (<["cardinality" := RCardinality c]>
       (<["outliers" := ROutliers (numeric_outliers d)]>
       (<["duplicates" := RDuplicates (duplicates d)]>
       (<["data_types" := RDataTypes (data_types d)]>
       (<["missing_values" := RMissingValues (missing_values d)]>
          (self_quality_report s))))))).
Proof.
  intros Hd. destruct s as [fp df fn qr lg pr]. cbn in Hd. subst df.
  unfold bind, check_missing_values, check_data_types, check_duplicates,
    check_numeric_outliers, check_cardinality, generate_summary_statistics,
    inspect_column_samples, bind, the_df, set_report, logging, lift, raise, ret.
  cbn. destruct (cardinality d) as [e|c]; cbn; [intros [=]|].
  destruct (summary_statistics d) as [e|m]; cbn; [intros [=]|].
  intros [= <- <-]. eauto.
Qed.

End Reports.

Section Run.
Context {F : Type} `{!Float64 F}.
Variable rt : runtime F.

(** C3. When [run_all_checks] returns a report, the report holds the
    eight keys [basic_info], [missing_values], [data_types], [duplicates],
    [outliers], [cardinality], [summary_statistics] and
    [sample_inspection]: no partly filled report is ever returned. *)
Theorem run_all_checks_complete (self self' : checker F) rep :
  run_all_checks rt self = (Returned (Some rep), self') ->
  complete_report rep.
Proof.
  unfold run_all_checks. unfold bind at 1.
  destruct (load_data_returns rt self) as (b & s1 & Hload). rewrite Hload.
  destruct b; cbn [negb]; [|intros [=]].
  destruct (load_data_true rt _ _ Hload) as [[d Hd] Hbasic].
  intros Hrun. destruct (checks_after_load rt s1 d rep self' Hd Hrun)
    as (c & m & _ & _ & ->).
  unfold complete_report, report_keys.
  repeat (apply Forall_cons; split;
          [repeat (rewrite lookup_insert_ne by discriminate);
           first [exact Hbasic | rewrite lookup_insert_eq; by eexists]|]).
  by apply Forall_nil.
Qed.

(** C4. A path with an unrecognized suffix makes the [try] of [load_data]
    raise the unsupported-format [ValueError]; a recognized file whose
    reader raises [e] makes it raise [e].  Either exception is caught:
    [run_all_checks] does not raise, returns [None], runs no check (the
    report stays empty, no frame is stored), and the failure is logged
    with its cause. *)
Theorem load_failure_recovered (path : string) (fname : option string) (e : exn) :
  (recognized path = false /\ e = unsupported_format)
  \/ (recognized path = true /\ read_file rt path = inl e) ->
  read_file rt path = inl e
  /\ exists self',
       run_all_checks rt (init (Some path) None fname) = (Returned None, self')
       /\ self_quality_report self' = ∅
       /\ self_df self' = None
       /\ (path <> EmptyString ->
           logged self' = logged (init (F:=F) (Some path) None fname)
                          ++ [LogError ("Error loading file: " +:+ exn_str e)]).
Proof.
  intros H.
  assert (He : read_file rt path = inl e).
  { destruct H as [[Hn ->]|[_ He]]; [now apply read_file_unrecognized | exact He]. }
  split; [exact He|].
  destruct path as [|a path].
  - eexists. split; [apply run_all_checks_not_loaded; reflexivity|].
    cbn. repeat split; first [reflexivity | intros Hne; now contradiction Hne].
  - destruct (load_data_failure rt (init (Some (String a path)) None fname)
                (String a path) e) as (self' & Hload & Hlog);
      [reflexivity | reflexivity | reflexivity | exact He |].
    exists self'. split; [now apply run_all_checks_not_loaded|].
    destruct (load_data_false rt _ _ Hload) as [Hr Hd].
    repeat split; [now rewrite Hr | now rewrite Hd | intros _; exact Hlog].
Qed.

(** C10. An object built with neither a path nor a frame: [load_data]
    answers [False] and [run_all_checks] returns [None] without raising,
    the report empty and no frame stored, as after a failed load. *)
Theorem no_input_no_report (fname : option string) :
  exists self',
    load_data rt (init None None fname) = (Returned false, self')
    /\ run_all_checks rt (init None None fname) = (Returned None, self')
    /\ self_quality_report self' = ∅
    /\ self_df self' = None
    /\ logged self' = logged (init (F:=F) None None fname)
                      ++ [LogError "No file path or DataFrame provided."].
Proof.
  eexists. split; [reflexivity|].
  split; [apply run_all_checks_not_loaded; reflexivity|].
  cbn. auto.
Qed.

End Run.

Lemma run_all_checks_complete_witness :
  exists rep self',
    run_all_checks no_files (init None (Some scenario_A) (Some "people.csv"))
    = (Returned (Some rep), self')
    /\ complete_report rep.
Proof.
  destruct (run_all_checks no_files (init None (Some scenario_A) (Some "people.csv")))
    as [[[rep|]|e] self'] eqn:E.
  - exists rep, self'. split; [reflexivity|].
    exact (run_all_checks_complete no_files _ _ _ E).
  - vm_compute in E. discriminate E.
  - vm_compute in E. discriminate E.
Defined.

Lemma load_failure_recovered_witness :
  (read_file no_files "notes.txt" = inl unsupported_format
   /\ exists self',
        run_all_checks no_files (init (Some "notes.txt") None None) = (Returned None, self')
        /\ self_quality_report self' = ∅
        /\ self_df self' = None
        /\ ("notes.txt" <> EmptyString ->
            logged self' = logged (init (F:=float) (Some "notes.txt") None None)
              ++ [LogError ("Error loading file: " +:+ exn_str unsupported_format)]))
  /\ (read_file no_files "data/broken.csv" = inl (OtherException "Error tokenizing data")
      /\ exists self',
        run_all_checks no_files (init (Some "data/broken.csv") None None)
        = (Returned None, self')
        /\ self_quality_report self' = ∅
        /\ self_df self' = None
        /\ ("data/broken.csv" <> EmptyString ->
            logged self' = logged (init (F:=float) (Some "data/broken.csv") None None)
              ++ [LogError ("Error loading file: "
                            +:+ exn_str (OtherException "Error tokenizing data"))])).
Proof.
  split.
  - apply (load_failure_recovered no_files "notes.txt" None unsupported_format).
    left. split; reflexivity.
  - apply (load_failure_recovered no_files "data/broken.csv" None
             (OtherException "Error tokenizing data")).
    right. split; reflexivity.
Defined.

(** ** Dictionaries filled by a loop *)

Section Dicts.
Context {A V : Type} (key : A -> string) (val : A -> option V).

Lemma fill_dict_cons m x items :
  fill_dict key val m (x :: items)
  = fill_dict key val (match val x with Some v => <[key x := v]> m | None => m end) items.
Proof. reflexivity. Qed.

(** A key that no item has keeps its entry. *)
Lemma fill_dict_other m items k :
  ~ In k (map key items) -> fill_dict key val m items !! k = m !! k.
Proof.
  revert m. induction items as [|x items IH]; intros m Hk; [reflexivity|].
  rewrite fill_dict_cons, IH.
  - destruct (val x); [|reflexivity].
    apply lookup_insert_ne. intros E. apply Hk. left. exact E.
  - intros H. apply Hk. right. exact H.
Qed.

(** With pairwise different keys, the entry of an item is its value, or
    the previous entry when the item is skipped. *)
Lemma fill_dict_item m items x :
  NoDup (map key items) -> In x items ->
  fill_dict key val m items !! key x
  = match val x with Some v => Some v | None => m !! key x end.
Proof.
  revert m. induction items as [|y items IH]; intros m Hnd Hin; [destruct Hin|].
  cbn [map] in Hnd. apply NoDup_cons in Hnd as [Hy Hnd].
  rewrite fill_dict_cons. destruct Hin as [->|Hin].
  - rewrite fill_dict_other by (rewrite <- list_elem_of_In; exact Hy).
    destruct (val x); [apply lookup_insert_eq | reflexivity].
  - rewrite IH by assumption. destruct (val x) as [v|]; [reflexivity|].
    destruct (val y); [|reflexivity].
    apply lookup_insert_ne. intros E. apply Hy.
    rewrite list_elem_of_In, E. now apply in_map.
Qed.

(** Every entry comes from an item or was there before. *)
Lemma fill_dict_origin m items k v :
  fill_dict key val m items !! k = Some v ->
  (exists x, In x items /\ key x = k /\ val x = Some v) \/ m !! k = Some v.
Proof.
  revert m. induction items as [|y items IH]; intros m H; [now right|].
  rewrite fill_dict_cons in H. apply IH in H as [(x & Hx & Hk & Hv)|H].
  - left. exists x. split; [now right | now split].
  - destruct (val y) as [w|] eqn:Hw; [|now right].
    destruct (decide (key y = k)) as [E|E].
    + subst k. rewrite lookup_insert_eq in H. injection H as ->.
      left. exists y. split; [now left | now split].
    + rewrite lookup_insert_ne in H by exact E. now right.
Qed.

End Dicts.

(** ** Counting *)

Lemma sum_bools_filter {A : Type} (f : A -> bool) (l : list A) :
  sum_bools (map f l) = length (List.filter f l).
Proof.
  unfold sum_bools. induction l as [|x l IH]; [reflexivity|].
  cbn. destruct (f x); cbn; now rewrite IH.
Qed.

Lemma sum_bools_le (bs : list bool) : (sum_bools bs <= length bs)%nat.
Proof. unfold sum_bools. induction bs as [|[] bs IH]; cbn in *; lia. Qed.

Lemma filter_length_le {A : Type} (f : A -> bool) (l : list A) :
  (length (List.filter f l) <= length l)%nat.
Proof. induction l as [|x l IH]; cbn; [lia|]. destruct (f x); cbn; lia. Qed.

Lemma filter_series {A V : Type} (k : A -> string) (v : A -> V) (p : V -> bool)
    (l : list A) :
  map fst (List.filter (fun kv => p kv.2) (map (fun c => (k c, v c)) l))
  = map k (List.filter (fun c => p (v c)) l).
Proof.
  induction l as [|x l IH]; [reflexivity|].
  cbn [map List.filter snd]. destruct (p (v x)); cbn [map fst]; now rewrite IH.
Qed.

Lemma scenario_A_wf : wf_frame scenario_A.
Proof.
  split; [repeat constructor|]. split; [|discriminate].
  cbn. apply (bool_decide_unpack _). vm_compute. reflexivity.
Qed.

Lemma select_dtypes_NoDup {F : Type} `{!Float64 F} (p : coldata F -> bool)
    (d : DataFrame F) :
  wf_frame d -> NoDup (map col_name (select_dtypes p d)).
Proof.
  intros (_ & Hnd & _). unfold select_dtypes.
  induction (df_columns d) as [|x l IH]; [constructor|].
  cbn in Hnd. apply NoDup_cons in Hnd as [Hx Hnd]. cbn [List.filter].
  destruct (p (col_data x)); [|now apply IH].
  cbn [map]. apply NoDup_cons. split; [|now apply IH].
  rewrite list_elem_of_In in *. intros H. apply Hx.
  apply in_map_iff in H as (y & Hy & Hin). apply filter_In in Hin as [Hin _].
  rewrite <- Hy. now apply in_map.
Qed.

(** ** Missing values *)

Section Missing.
Context {F : Type} `{!Float64 F}.

Lemma isnull_sum_keys (d : DataFrame F) :
  map fst (isnull_sum d) = map col_name (df_columns d).
Proof. unfold isnull_sum. rewrite map_map. reflexivity. Qed.

(** The percentage recorded for a column. *)
Lemma missing_percentage_lookup (d : DataFrame F) (c : column F) :
  wf_frame d -> In c (df_columns d) ->
  missing_percentage_by_column (missing_values d) !! col_name c
  = Some (fmul (fdiv (fofnat (null_entries c)) (fofnat (df_len d))) c100).
Proof.
  intros (_ & Hnd & _) Hc. unfold missing_values. cbn. unfold to_dict.
  rewrite (fill_dict_item fst (fun kv => Some kv.2) ∅ _
             (col_name c, percent (null_entries c) (df_len d))).
  - reflexivity.
  - unfold isnull_sum. now rewrite !map_map.
  - unfold isnull_sum. rewrite map_map. apply in_map_iff. exists c.
    cbn. now rewrite sum_bools_filter.
Qed.

(** C6. In a dataset, for every column [c]: [missing_by_column] holds the
    number of null entries of [c]; [missing_percentage_by_column] holds
    that count divided by the number of rows, times 100, in the float
    arithmetic of the program; [total_missing] is the sum of the counts
    over the columns; [columns_with_missing] lists the columns with at
    least one null entry, in the order of the dataset.  This holds for
    every number of rows, so for [total_rows > 0]. *)
Theorem missing_values_correct (d : DataFrame F) (c : column F) :
  wf_frame d -> In c (df_columns d) ->
  missing_by_column (missing_values d) !! col_name c = Some (null_entries c)
  /\ missing_percentage_by_column (missing_values d) !! col_name c
     = Some (fmul (fdiv (fofnat (null_entries c)) (fofnat (df_len d))) c100)
  /\ total_missing (missing_values d) = list_sum (map null_entries (df_columns d))
  /\ columns_with_missing (missing_values d)
     = map col_name (List.filter (fun c => (0 <? null_entries c)%nat) (df_columns d)).
Proof.
  intros (_ & Hnd & _) Hc. unfold missing_values. cbn.
  assert (Hent : forall c, sum_bools (map isnull (col_cells c)) = null_entries c)
    by (intros; apply sum_bools_filter).
  repeat split.
  - unfold to_dict.
    rewrite (fill_dict_item fst (fun kv => Some kv.2) ∅ (isnull_sum d)
               (col_name c, null_entries c)).
    + reflexivity.
    + now rewrite isnull_sum_keys.
    + unfold isnull_sum. apply in_map_iff. exists c. now rewrite Hent.
  - unfold to_dict.
    rewrite (fill_dict_item fst (fun kv => Some kv.2) ∅ _
               (col_name c, percent (null_entries c) (df_len d))).
    + reflexivity.
    + unfold isnull_sum. now rewrite !map_map.
    + unfold isnull_sum. rewrite map_map. apply in_map_iff. exists c.
      cbn. now rewrite Hent.
  - unfold isnull_sum, series_sum. clear Hc Hnd.
    induction (df_columns d) as [|x l IH]; [reflexivity|].
    cbn. cbn in IH. now rewrite IH, Hent.
  - unfold isnull_sum.
    rewrite (filter_series col_name _ (fun n => (0 <? n)%nat)).
    f_equal. apply filter_ext. intros x. now rewrite Hent.
Qed.

End Missing.

Lemma missing_values_correct_witness :
  missing_by_column (missing_values scenario_A) !! "age" = Some 1%nat
  /\ missing_percentage_by_column (missing_values scenario_A) !! "age" = Some 25%float
  /\ total_missing (missing_values scenario_A) = 2%nat
  /\ columns_with_missing (missing_values scenario_A) = ["age"; "name"].
Proof.
  exact (missing_values_correct scenario_A
           (Column "age" (FloatCol [25; 30; PrimFloat.nan; 25]%float))
           scenario_A_wf (or_introl eq_refl)).
Defined.

(** ** Duplicate rows *)

Section Duplicates.
Context {F : Type} `{!Float64 F}.

Lemma existsb_over_map {A B : Type} (f : B -> bool) (g : A -> B) (l : list A) :
  existsb f (map g l) = existsb (fun x => f (g x)) l.
Proof. induction l as [|x l IH]; [reflexivity|]. cbn. now rewrite IH. Qed.

(** The mask of [duplicated], once the rows before [k] have been seen. *)
Lemma duplicated_from_rows (d : DataFrame F) (n k : nat) :
  duplicated_from (map (row d) (seq 0 k)) (map (row d) (seq k n))
  = map (repeats_earlier d) (seq k n).
Proof.
  revert k. induction n as [|n IH]; intros k; [reflexivity|].
  cbn [seq map duplicated_from]. f_equal.
  - unfold repeats_earlier. apply existsb_over_map.
  - replace (map (row d) (seq 0 k) ++ [row d k]) with (map (row d) (seq 0 (S k))).
    + apply IH.
    + now rewrite seq_S, map_app.
Qed.

Lemma duplicated_mask (d : DataFrame F) :
  wf_frame d -> duplicated d = map (repeats_earlier d) (seq 0 (df_len d)).
Proof.
  intros (_ & _ & Hcols). unfold duplicated, df_empty.
  destruct (df_len d) as [|n] eqn:Hn; [reflexivity|].
  destruct (df_columns d) as [|c cs] eqn:Hc; [now specialize (Hcols eq_refl)|].
  cbn [Nat.eqb length orb]. unfold rows. rewrite Hn.
  apply (duplicated_from_rows d (S n) 0).
Qed.

(** C7. The duplicate-row check marks exactly the rows equal, across all
    columns, to some earlier row, and counts them; the first of equal rows
    is not marked, so in a dataset with at least one row the count is at
    most the number of rows minus one. *)
Theorem duplicates_correct (d : DataFrame F) :
  wf_frame d ->
  duplicated d = map (repeats_earlier d) (seq 0 (df_len d))
  /\ total_duplicate_rows (duplicates d)
     = length (List.filter (repeats_earlier d) (seq 0 (df_len d)))
  /\ ((0 < df_len d)%nat ->
      (total_duplicate_rows (duplicates d) <= df_len d - 1)%nat).
Proof.
  intros Hwf. pose proof (duplicated_mask d Hwf) as Hmask.
  split; [exact Hmask|]. unfold duplicates. cbn [total_duplicate_rows].
  rewrite Hmask, sum_bools_filter. split; [reflexivity|].
  intros Hpos. destruct (df_len d) as [|n]; [lia|].
  cbn [seq List.filter repeats_earlier existsb].
  pose proof (filter_length_le (repeats_earlier d) (seq 1 n)) as Hle.
  rewrite length_seq in Hle. lia.
Qed.

End Duplicates.

Lemma duplicates_correct_witness :
  duplicated scenario_A = [false; false; false; true]
  /\ total_duplicate_rows (duplicates scenario_A) = 1%nat
  /\ (total_duplicate_rows (duplicates scenario_A) <= 4 - 1)%nat.
Proof.
  destruct (duplicates_correct scenario_A scenario_A_wf) as (Hmask & Hcount & Hle).
  split; [exact Hmask|]. split; [exact Hcount|].
  apply Hle. cbn. lia.
Defined.

(** ** Values in the order of first appearance *)

Section Unique.
Context {A : Type} (eqb : A -> A -> bool).

Lemma unique_by_length (l : list A) : (length (unique_by eqb l) <= length l)%nat.
Proof.
  induction l as [|x l IH]; [reflexivity|]. cbn [unique_by length].
  pose proof (filter_length_le (fun y => negb (eqb x y)) (unique_by eqb l)). lia.
Qed.

Hypothesis eqb_eq : forall a b, eqb a b = true <-> a = b.

Lemma unique_by_In (l : list A) (z : A) : In z (unique_by eqb l) <-> In z l.
Proof.
  induction l as [|x l IH]; [reflexivity|]. cbn [unique_by In].
  rewrite filter_In, IH, negb_true_iff. split.
  - intros [->|[Hz _]]; [now left | now right].
  - intros [->|Hz]; [now left|].
    destruct (eqb x z) eqn:E; [left; now apply eqb_eq | now right].
Qed.

Lemma unique_by_NoDup (l : list A) : NoDup (unique_by eqb l).
Proof.
  induction l as [|x l IH]; [constructor|]. cbn [unique_by].
  apply NoDup_cons. split.
  - rewrite list_elem_of_In, filter_In, negb_true_iff. intros [_ E].
    assert (eqb x x = true) by now apply eqb_eq. congruence.
  - apply NoDup_ListNoDup, List.NoDup_filter, NoDup_ListNoDup, IH.
Qed.

End Unique.

Lemma unique_by_map {A B : Type} (eqA : A -> A -> bool) (eqB : B -> B -> bool)
    (g : A -> B) (l : list A) :
  (forall a b, eqB (g a) (g b) = eqA a b) ->
  unique_by eqB (map g l) = map g (unique_by eqA l).
Proof.
  intros Hg. induction l as [|x l IH]; [reflexivity|].
  cbn [map unique_by]. f_equal. rewrite IH.
  generalize (unique_by eqA l) as u. intros u.
  induction u as [|y u IHu]; [reflexivity|].
  cbn [map List.filter]. rewrite Hg. destruct (eqA x y); cbn [negb map]; now rewrite IHu.
Qed.

Lemma string_eqb_eq (a b : string) : String.eqb a b = true <-> a = b.
Proof. apply String.eqb_eq. Qed.

(** The number of first appearances is the size of the set of values. *)
Lemma unique_strings_size (l : list string) :
  length (unique_by String.eqb l) = size (list_to_set l : gset string).
Proof.
  rewrite <- (size_list_to_set (C := gset string) (unique_by String.eqb l))
    by apply unique_by_NoDup, string_eqb_eq.
  f_equal. apply set_eq. intros x.
  rewrite !elem_of_list_to_set, !list_elem_of_In.
  apply unique_by_In, string_eqb_eq.
Qed.

(** ** Cardinality *)

Section CardinalityFacts.
Context {F : Type} `{!Float64 F}.

Lemma dropna_object (vs : list (option string)) :
  dropna (cells (ObjectCol (F := F) vs)) = map CStr (omap (fun o => o) vs).
Proof.
  induction vs as [|[s|] vs IH]; [reflexivity| |]; cbn in *; now rewrite IH.
Qed.

Lemma nunique_object (c : column F) vs :
  col_data c = ObjectCol vs -> nunique c = size (distinct_values c).
Proof.
  intros Hc. unfold nunique, distinct_values, col_cells. rewrite Hc, dropna_object.
  rewrite (unique_by_map String.eqb cell_eqb CStr) by reflexivity.
  rewrite length_map. apply unique_strings_size.
Qed.

Lemma nunique_le (d : DataFrame F) (c : column F) :
  wf_frame d -> In c (df_columns d) -> (nunique c <= df_len d)%nat.
Proof.
  intros (Hlen & _) Hc. rewrite Forall_forall in Hlen.
  rewrite <- (Hlen c) by (now apply list_elem_of_In).
  unfold nunique. etransitivity; [apply unique_by_length|]. apply filter_length_le.
Qed.

(** The loop of [check_cardinality] either raises at its first column or
    fills the dictionary with the record of every column. *)
Lemma cardinality_loop_inr (d : DataFrame F) cols acc m :
  cardinality_loop d cols acc = inr m ->
  m = fill_dict col_name
        (fun c => match cardinality_of d c with inr r => Some r | inl _ => None end)
        acc cols
  /\ Forall (fun c => exists r, cardinality_of d c = inr r) cols.
Proof.
  revert acc. induction cols as [|c cols IH]; intros acc; cbn [cardinality_loop].
  - intros [= <-]. split; [reflexivity | constructor].
  - destruct (cardinality_of d c) as [e|r] eqn:Hc; [intros [=]|].
    intros H. apply IH in H as [-> Hall]. split.
    + rewrite fill_dict_cons, Hc. reflexivity.
    + constructor; [eauto | exact Hall].
Qed.

(** C8. When the cardinality check returns, every entry of its result
    belongs to a text column of the dataset; its [unique_values] is the
    number of distinct non-null values of that column and is at most the
    number of rows; its [high_cardinality] is the comparison
    [unique_values > total_rows * 0.5]; and every text column has an
    entry. *)
Theorem cardinality_correct (d : DataFrame F) m :
  wf_frame d -> cardinality d = inr m ->
  (forall name r, m !! name = Some r ->
     exists c, In c (df_columns d) /\ col_name c = name
       /\ is_object (col_data c) = true
       /\ unique_values r = size (distinct_values c)
       /\ (unique_values r <= df_len d)%nat
       /\ high_cardinality r
          = flt (fmul (fofnat (df_len d)) c0_5) (fofnat (unique_values r)))
  /\ (forall c, In c (df_columns d) -> is_object (col_data c) = true ->
        is_Some (m !! col_name c)).
Proof.
  intros Hwf Hm. unfold cardinality in Hm.
  apply cardinality_loop_inr in Hm as [-> Hall]. split.
  - intros name r Hr. apply fill_dict_origin in Hr as [(c & Hc & Hk & Hv)|Hr];
      [|now rewrite lookup_empty in Hr].
    unfold select_dtypes in Hc. apply filter_In in Hc as [Hc Hobj].
    exists c. split; [exact Hc|]. split; [exact Hk|]. split; [exact Hobj|].
    unfold cardinality_of in Hv. destruct (df_len d =? 0)%nat; [discriminate|].
    injection Hv as <-. cbn.
    destruct (col_data c) as [| |vs| |] eqn:Hd; try discriminate.
    split; [now apply (nunique_object c vs)|]. split; [now apply nunique_le|reflexivity].
  - intros c Hc Hobj.
    assert (Hsel : In c (select_dtypes is_object d)) by (apply filter_In; now split).
    rewrite (fill_dict_item col_name _ ∅ _ c).
    + rewrite Forall_forall in Hall.
      destruct (Hall c) as [r ->]; [now apply list_elem_of_In | eauto].
    + now apply select_dtypes_NoDup.
    + exact Hsel.
Qed.

End CardinalityFacts.

Lemma cardinality_correct_witness :
  exists m,
    cardinality scenario_A = inr m
    /\ m !! "name" = Some (CardinalityInfo 2%nat 50%float false)
    /\ (forall name r, m !! name = Some r ->
         exists c, In c (df_columns scenario_A) /\ col_name c = name
           /\ is_object (col_data c) = true
           /\ unique_values r = size (distinct_values c)
           /\ (unique_values r <= df_len scenario_A)%nat
           /\ high_cardinality r
              = flt (F := float) (fmul (fofnat (df_len scenario_A)) c0_5)
                  (fofnat (unique_values r)))
    /\ (forall c, In c (df_columns scenario_A) -> is_object (col_data c) = true ->
         is_Some (m !! col_name c)).
Proof.
  destruct (cardinality scenario_A) as [e|m] eqn:E.
  - vm_compute in E. discriminate E.
  - exists m. split; [reflexivity|]. split.
    + injection E as <-. vm_compute. reflexivity.
    + exact (cardinality_correct scenario_A m scenario_A_wf E).
Defined.

(** ** Numeric literals *)

Lemma digit_not_point (c : ascii) : digit_char c = true -> point_char c = false.
Proof.
  unfold point_char. destruct (Ascii.eqb_spec c ".") as [->|]; [|reflexivity].
  vm_compute. discriminate.
Qed.

(** The ASCII digit test satisfies the fact assumed of [str.isdigit]. *)
Lemma ascii_isdigit_no_point (s : string) :
  ascii_isdigit s = true -> count_points s = 0%nat.
Proof.
  destruct s as [|a s]; [discriminate|]. unfold ascii_isdigit.
  generalize (String a s). clear. intros s.
  induction s as [|c s IH]; [reflexivity|]. cbn [all_digits count_points].
  intros H. apply andb_true_iff in H as [Hc Hs].
  now rewrite (digit_not_point c Hc), IH.
Qed.

Lemma replace_first_point_count (s : string) :
  count_points (replace_first_point s) = Nat.pred (count_points s).
Proof.
  induction s as [|c s IH]; [reflexivity|].
  cbn [replace_first_point count_points]. fold (point_char c).
  destruct (point_char c) eqn:Hc; [reflexivity|].
  cbn [count_points]. rewrite Hc, IH. reflexivity.
Qed.

Lemma remove_points_none (s : string) :
  count_points s = 0%nat -> remove_points s = s.
Proof.
  induction s as [|c s IH]; [reflexivity|]. cbn [count_points remove_points].
  destruct (point_char c); [discriminate|]. cbn [Nat.add]. intros H. now rewrite IH.
Qed.

Lemma replace_first_point_one (s : string) :
  (count_points s <= 1)%nat -> replace_first_point s = remove_points s.
Proof.
  induction s as [|c s IH]; [reflexivity|].
  cbn [replace_first_point count_points remove_points]. fold (point_char c).
  destruct (point_char c); cbn [Nat.add]; intros H.
  - symmetry. apply remove_points_none. lia.
  - now rewrite IH.
Qed.

Section Literals.
Context {F : Type} `{!Float64 F}.
Variable rt : runtime F.
Hypothesis no_point : digits_exclude_point rt.

(** The test of the source accepts exactly the strings that have at most
    one decimal point and are digits without it. *)
Lemma numeric_literal_plain (s : string) : numeric_literal rt s = plain_decimal rt s.
Proof.
  unfold numeric_literal, plain_decimal.
  destruct (count_points s <=? 1)%nat eqn:E.
  - apply Nat.leb_le in E. now rewrite replace_first_point_one.
  - apply Nat.leb_gt in E. cbn [andb].
    destruct (str_isdigit rt (replace_first_point s)) eqn:D; [|reflexivity].
    apply no_point in D. rewrite replace_first_point_count in D. lia.
Qed.

End Literals.

(** ** The order of first appearance *)

Lemma filter_twice {A : Type} (p q : A -> bool) (l : list A) :
  List.filter p (List.filter q l) = List.filter (fun y => q y && p y) l.
Proof.
  induction l as [|x l IH]; [reflexivity|]. cbn [List.filter].
  destruct (q x); cbn [andb List.filter]; [destruct (p x)|]; now rewrite IH.
Qed.

Lemma first_seen_from (acc l : list string) :
  foldl (fun seen x => if existsb (String.eqb x) seen then seen else seen ++ [x]) acc l
  = acc ++ List.filter (fun y => negb (existsb (String.eqb y) acc))
             (unique_by String.eqb l).
Proof.
  revert acc. induction l as [|x l IH]; intros acc.
  - cbn. now rewrite app_nil_r.
  - cbn [foldl unique_by List.filter]. destruct (existsb (String.eqb x) acc) eqn:Hx.
    + rewrite IH. cbn [negb]. f_equal. rewrite filter_twice. apply filter_ext.
      intros y. destruct (String.eqb_spec x y) as [->|]; [|reflexivity].
      now rewrite Hx.
    + rewrite IH, <- app_assoc. cbn [negb app]. do 2 f_equal.
      rewrite filter_twice. apply filter_ext. intros y.
      rewrite existsb_app. cbn [existsb]. rewrite orb_false_r, negb_orb.
      rewrite (String.eqb_sym y x). apply andb_comm.
Qed.

(** [unique] yields the values as a loop meets them. *)
Lemma unique_by_first_seen (l : list string) :
  unique_by String.eqb l = first_seen l.
Proof.
  unfold first_seen. rewrite first_seen_from. cbn [app existsb negb].
  symmetry. clear. induction (unique_by String.eqb l) as [|x u IH]; [reflexivity|].
  cbn [List.filter]. now rewrite IH.
Qed.

(** ** Sample inspection, on binary64 *)

(** For a sample of one to three strings, the float comparison of the
    source with [0.6] decides "strictly more than 60 percent". *)
Lemma ratio_above_0_6 (k n : nat) :
  (1 <= n <= 3)%nat -> (k <= n)%nat ->
  flt (F := float) c0_6 (fdiv (fofnat k) (fofnat n)) = above_60_percent k n.
Proof.
  intros Hn Hk.
  destruct n as [|[|[|[|n]]]]; try lia;
    destruct k as [|[|[|[|k]]]]; try lia; vm_compute; reflexivity.
Qed.

Section SampleFacts.
Variable rt : runtime float.

Lemma dtype_object (cd : coldata float) :
  String.eqb (dtype_str cd) "object" = is_object cd.
Proof. now destruct cd. Qed.

Lemma first_samples_nil (n : nat) (c : column float) :
  dropna (col_cells c) = [] -> first_samples rt n c = [].
Proof. unfold first_samples. intros ->. now destruct n. Qed.

Lemma first_samples_cons (n : nat) (c : column float) :
  dropna (col_cells c) <> [] -> exists s l, first_samples rt (S n) c = s :: l.
Proof.
  unfold first_samples. destruct (dropna (col_cells c)) as [|x xs]; [congruence|].
  intros _. cbn [map unique_by take]. eauto.
Qed.

(** As many samples as distinct display strings, up to the sample size. *)
Lemma first_samples_length (n : nat) (c : column float) :
  length (first_samples rt n c) = Nat.min n (size (display_strings rt c)).
Proof.
  unfold first_samples, display_strings.
  now rewrite length_take, unique_strings_size.
Qed.

(** Every display string is the display string of a value that [unique]
    keeps, when equal values are displayed alike. *)
Lemma unique_cells_cover (l : list (cell float)) (x : cell float) :
  (forall a b, In a l -> In b l -> cell_eqb a b = true ->
     astype_str rt a = astype_str rt b) ->
  In x l ->
  exists y, In y (unique_by cell_eqb l) /\ astype_str rt y = astype_str rt x.
Proof.
  induction l as [|a l IH]; intros Hagree Hx; [destruct Hx|].
  cbn [unique_by]. destruct Hx as [->|Hx]; [exists x; split; [now left | reflexivity]|].
  destruct IH as (y & Hy & Hyx); [|exact Hx|].
  { intros u v Hu Hv. apply Hagree; now right. }
  assert (Hyl : In y l).
  { clear -Hy. induction l as [|b l IH]; [exact Hy|]. cbn [unique_by] in Hy.
    destruct Hy as [->|Hy]; [now left|]. apply filter_In in Hy as [Hy _].
    right. now apply IH. }
  destruct (cell_eqb a y) eqn:E.
  - exists a. split; [now left|]. rewrite <- Hyx.
    apply Hagree; [now left | now right | exact E].
  - exists y. split; [|exact Hyx]. right. apply filter_In. split; [exact Hy|].
    now rewrite E.
Qed.

(** Then there are no more display strings than distinct values. *)
Lemma display_strings_le (c : column float) :
  displays_agree rt c -> (size (display_strings rt c) <= nunique c)%nat.
Proof.
  intros Hagree. unfold display_strings, nunique.
  rewrite <- unique_strings_size.
  rewrite <- (length_map (astype_str rt) (unique_by cell_eqb (dropna (col_cells c)))).
  apply submseteq_length, NoDup_submseteq.
  - apply unique_by_NoDup, string_eqb_eq.
  - intros s Hs. rewrite list_elem_of_In in Hs.
    apply unique_by_In in Hs; [|apply string_eqb_eq].
    apply in_map_iff in Hs as (x & <- & Hx).
    destruct (unique_cells_cover _ x Hagree Hx) as (y & Hy & <-).
    apply list_elem_of_In. now apply in_map.
Qed.

(** Outside the float columns, equal values are the same value. *)
Lemma displays_agree_not_float (c : column float) :
  (forall vs, col_data c <> FloatCol vs) -> displays_agree rt c.
Proof.
  intros Hc x y Hx _ E.
  assert (Hnf : forall f, x <> CFloat f).
  { intros f ->. unfold dropna in Hx. apply filter_In in Hx as [Hx _].
    unfold col_cells in Hx. destruct (col_data c) as [vs|vs|vs|vs|vs].
    - apply in_map_iff in Hx as (z & Hz & _). discriminate Hz.
    - now contradiction (Hc vs).
    - apply in_map_iff in Hx as ([z|] & Hz & _); discriminate Hz.
    - apply in_map_iff in Hx as ([z|] & Hz & _); discriminate Hz.
    - apply in_map_iff in Hx as (z & Hz & _). discriminate Hz. }
  destruct x as [|a|a|a|a|a], y as [|b|b|b|b|b]; cbn in E; try discriminate E;
    try reflexivity.
  - apply Z.eqb_eq in E. now subst.
  - now contradiction (Hnf a).
  - apply String.eqb_eq in E. now subst.
  - apply Z.eqb_eq in E. now subst.
  - apply Bool.eqb_prop in E. now subst.
Qed.

(** The note of a record, from its samples. *)
Lemma sample_of_notes (c : column float) :
  digits_exclude_point rt ->
  notes (sample_of rt 3 c)
  = if is_object (col_data c)
       && above_60_percent
            (length (List.filter (plain_decimal rt) (sample_values (sample_of rt 3 c))))
            (length (sample_values (sample_of rt 3 c)))
    then numeric_flag else EmptyString.
Proof.
  intros Hlaw. unfold sample_of. cbn [notes sample_values]. rewrite dtype_object.
  destruct (is_object (col_data c)); [|reflexivity]. cbn [andb].
  set (samples := match first_samples rt 3 c with [] => [no_values] | l => l end).
  assert (Hn : (1 <= length samples <= 3)%nat).
  { subst samples. pose proof (first_samples_length 3 c) as H.
    destruct (first_samples rt 3 c); cbn [length] in *; lia. }
  rewrite sum_bools_filter.
  rewrite ratio_above_0_6 by (try exact Hn; apply filter_length_le).
  replace (0 <? length samples)%nat with true by (symmetry; apply Nat.ltb_lt; lia).
  cbn [andb].
  rewrite (filter_ext (numeric_literal rt) (plain_decimal rt)
             (numeric_literal_plain rt Hlaw)).
  reflexivity.
Qed.


End SampleFacts.

Lemma scenario_C_wf : wf_frame scenario_C.
Proof.
  split; [repeat constructor|]. split; [|discriminate].
  cbn. apply (bool_decide_unpack _). vm_compute. reflexivity.
Qed.

Lemma no_files_digits : digits_exclude_point no_files.
Proof. intros s. apply ascii_isdigit_no_point. Qed.



Example two_zeros_run :
  sample_values (sample_of no_files_signed 3 zeros) = ["0.0"; "-0.0"]
  /\ nunique zeros = 1%nat.
Proof. split; vm_compute; reflexivity. Qed.

(** ** Zero rows, on binary64 *)

Lemma scenario_D_wf : wf_frame scenario_D.
Proof.
  split; [repeat constructor|]. split; [|discriminate].
  cbn. apply (bool_decide_unpack _). vm_compute. reflexivity.
Qed.

Lemma percent_0_0 : percent (F := float) 0 0 = PrimFloat.nan.
Proof. reflexivity. Qed.

Lemma cardinality_zero_rows (d : DataFrame float) :
  df_len d = 0%nat ->
  cardinality d
  = match select_dtypes is_object d with
    | [] => inr ∅
    | _ :: _ => inl (ZeroDivisionError "division by zero")
    end.
Proof.
  intros Hlen. unfold cardinality.
  destruct (select_dtypes is_object d) as [|c cols]; [reflexivity|].
  cbn [cardinality_loop]. unfold cardinality_of. now rewrite Hlen.
Qed.

(** C5, as stated, fails on the dataset of scenario D: the percentages of
    the missing-value check and of the duplicate check are not-a-number,
    and the cardinality check raises. *)
Lemma zero_rows_not_safe :
  df_len scenario_D = 0%nat /\ ~ percentages_safe scenario_D.
Proof.
  split; [reflexivity|]. intros (_ & Hdup & _). vm_compute in Hdup. discriminate Hdup.
Qed.

(** What the three checks do on scenario D. *)
Example scenario_D_run :
  missing_percentage_by_column (missing_values scenario_D) !! "age" = Some PrimFloat.nan
  /\ duplicate_percentage (duplicates scenario_D) = PrimFloat.nan
  /\ cardinality scenario_D = inl (ZeroDivisionError "division by zero")
  /\ exists self',
       run_all_checks no_files (init None (Some scenario_D) None)
       = (Raised (ZeroDivisionError "division by zero"), self').
Proof.
  split; [vm_compute; reflexivity|]. split; [reflexivity|]. split; [reflexivity|].
  eexists. vm_compute. reflexivity.
Qed.

(** C5, amended. On a dataset without rows the source has no fallback:
    the missing-value percentage of every column and the duplicate
    percentage are computed without an exception and are not-a-number; the
    cardinality check raises [ZeroDivisionError] when the dataset has a
    text column, and returns an empty result otherwise. *)
Theorem zero_rows_no_fallback (d : DataFrame float) :
  wf_frame d -> df_len d = 0%nat ->
  (forall c, In c (df_columns d) ->
     missing_percentage_by_column (missing_values d) !! col_name c
     = Some PrimFloat.nan)
  /\ total_duplicate_rows (duplicates d) = 0%nat
  /\ duplicate_percentage (duplicates d) = PrimFloat.nan
  /\ cardinality d
     = match select_dtypes is_object d with
       | [] => inr ∅
       | _ :: _ => inl (ZeroDivisionError "division by zero")
       end.
Proof.
  intros Hwf Hlen. split; [|split; [|split]].
  - intros c Hc.
    rewrite (missing_percentage_lookup d c Hwf Hc).
    destruct Hwf as (Hcols & _). rewrite Forall_forall in Hcols.
    assert (Hnull : null_entries c = 0%nat).
    { pose proof (filter_length_le isnull (col_cells c)) as Hle.
      rewrite (Hcols c) in Hle by (now apply list_elem_of_In).
      unfold null_entries. lia. }
    rewrite Hnull, Hlen. reflexivity.
  - unfold duplicates, duplicated, df_empty. now rewrite Hlen.
  - unfold duplicates, duplicated, df_empty. now rewrite Hlen.
  - now apply cardinality_zero_rows.
Qed.

Lemma zero_rows_no_fallback_witness :
  (forall c, In c (df_columns scenario_D) ->
     missing_percentage_by_column (missing_values scenario_D) !! col_name c
     = Some PrimFloat.nan)
  /\ total_duplicate_rows (duplicates scenario_D) = 0%nat
  /\ duplicate_percentage (duplicates scenario_D) = PrimFloat.nan
  /\ cardinality scenario_D = inl (ZeroDivisionError "division by zero").
Proof. exact (zero_rows_no_fallback scenario_D scenario_D_wf eq_refl). Defined.

(** ** Scenario B, on binary64 *)

Lemma scenario_B_wf : wf_frame scenario_B.
Proof.
  split; [repeat constructor|]. split; [|discriminate].
  cbn. apply (bool_decide_unpack _). vm_compute. reflexivity.
Qed.

(** C2. In a dataset of six rows, a numeric column with the values
    1, 2, 3, 4, 5, 100 (as integers or as floats) has Q1 = 2.25,
    Q3 = 4.75, IQR = 2.5, and the outlier check reports for it the bounds
    -1.5 and 8.5 and one outlier, the value 100. *)
Theorem scenario_B_outliers (d : DataFrame float) (c : column float) :
  wf_frame d -> In c (df_columns d) ->
  col_data c = IntCol [1; 2; 3; 4; 5; 100]
  \/ col_data c = FloatCol [1; 2; 3; 4; 5; 100]%float ->
  df_len d = 6%nat
  /\ Q1 c = 2.25%float /\ Q3 c = 4.75%float /\ IQR c = 2.5%float
  /\ numeric_outliers d !! col_name c
     = Some (OutlierInfo 1%nat (percent 1 6) (-1.5)%float 8.5%float)
  /\ map (fun x => flt x (-1.5)%float || flt 8.5%float x) (as_floats (col_data c))
     = [false; false; false; false; false; true].
Proof.
  intros Hwf Hc Hdata.
  assert (Hlen : df_len d = 6%nat).
  { destruct Hwf as (Hcols & _). rewrite Forall_forall in Hcols.
    rewrite <- (Hcols c) by (now apply list_elem_of_In).
    unfold col_cells. now destruct Hdata as [-> | ->]. }
  split; [exact Hlen|].
  assert (Hsel : In c (select_dtypes is_number d)).
  { apply filter_In. split; [exact Hc|]. now destruct Hdata as [-> | ->]. }
  unfold numeric_outliers.
  rewrite (fill_dict_item col_name (outliers_of d) ∅ _ c)
    by (try exact Hsel; now apply select_dtypes_NoDup).
  unfold outliers_of, IQR, Q1, Q3, col_cells. rewrite Hlen.
  destruct Hdata as [-> | ->]; repeat split; vm_compute; reflexivity.
Qed.

Lemma scenario_B_outliers_witness :
  Q1 (Column "x" (IntCol [1; 2; 3; 4; 5; 100])) = 2.25%float
  /\ Q3 (Column "x" (IntCol [1; 2; 3; 4; 5; 100])) = 4.75%float
  /\ numeric_outliers scenario_B !! "x"
     = Some (OutlierInfo 1%nat (percent 1 6) (-1.5)%float 8.5%float).
Proof.
  destruct (scenario_B_outliers scenario_B (Column "x" (IntCol [1; 2; 3; 4; 5; 100]))
              scenario_B_wf (or_introl eq_refl) (or_introl eq_refl))
    as (_ & H1 & H3 & _ & Hout & _).
  split; [exact H1|]. split; [exact H3|exact Hout].
Defined.

(** ** Quantiles in exact arithmetic *)

Section ExactQuantile.
Context {V : Type} (leb : V -> V -> bool) (toF : V -> exact) (sub : V -> V -> exact).

(** The value of an element as a rational, for the elements ([good]) on
    which the operations of the array compute without error. *)
Context (val : V -> Q) (good : V -> Prop).
Hypothesis toF_val : forall a, good a -> toF a = EFin (val a).
Hypothesis sub_val :
  forall a b, good a -> good b -> exists q, sub b a = EFin q /\ (q == val b - val a)%Q.
Hypothesis leb_val : forall a b, good a -> good b -> leb a b = Qle_bool (val a) (val b).

Local Abbreviation below := (fun a b => (val a <= val b)%Q).

Lemma insert_sorted_In (x z : V) (l : list V) :
  In z (insert_sorted leb x l) <-> z = x \/ In z l.
Proof.
  induction l as [|y l IH]; cbn [insert_sorted In]; [intuition congruence|].
  destruct (leb x y); cbn [In]; [intuition congruence|]. rewrite IH. tauto.
Qed.

Lemma insert_sorted_length (x : V) (l : list V) :
  length (insert_sorted leb x l) = S (length l).
Proof.
  induction l as [|y l IH]; [reflexivity|]. cbn [insert_sorted].
  destruct (leb x y); cbn [length]; now rewrite ?IH.
Qed.

Lemma sort_length (l : list V) : length (sort leb l) = length l.
Proof.
  induction l as [|x l IH]; [reflexivity|]. cbn [sort fold_right].
  fold (sort leb l). now rewrite insert_sorted_length, IH.
Qed.

Lemma sort_In (z : V) (l : list V) : In z (sort leb l) <-> In z l.
Proof.
  induction l as [|x l IH]; [reflexivity|]. cbn [sort fold_right].
  fold (sort leb l). rewrite insert_sorted_In, IH. cbn [In]. intuition congruence.
Qed.

Lemma insert_sorted_ordered (x : V) (l : list V) :
  good x -> List.Forall good l ->
  StronglySorted below l -> StronglySorted below (insert_sorted leb x l).
Proof.
  intros Hx Hl Hs. induction l as [|y l IH]; cbn [insert_sorted].
  - repeat constructor.
  - apply List.Forall_cons_iff in Hl as [Hy Hl].
    apply StronglySorted_inv in Hs as [Hs Hall].
    destruct (leb x y) eqn:E; rewrite (leb_val x y Hx Hy) in E.
    + apply Qle_bool_iff in E. constructor; [constructor; [exact Hs | exact Hall]|].
      constructor; [exact E|].
      eapply List.Forall_impl; [|exact Hall]. cbn. intros z Hz.
      now apply Qle_trans with (val y).
    + assert (Hyx : (val y <= val x)%Q).
      { apply Qlt_le_weak, Qnot_le_lt. intros H. apply Qle_bool_iff in H. congruence. }
      constructor; [now apply IH|].
      apply List.Forall_forall. intros z Hz. apply insert_sorted_In in Hz as [->|Hz].
      * exact Hyx.
      * rewrite List.Forall_forall in Hall. now apply Hall.
Qed.

Lemma sort_ordered (l : list V) :
  List.Forall good l -> StronglySorted below (sort leb l).
Proof.
  induction l as [|x l IH]; intros Hl; [constructor|].
  apply List.Forall_cons_iff in Hl as [Hx Hl]. cbn [sort fold_right]. fold (sort leb l).
  apply insert_sorted_ordered; [exact Hx | | now apply IH].
  apply List.Forall_forall. intros z Hz. apply (proj1 (sort_In z l)) in Hz.
  rewrite List.Forall_forall in Hl. now apply Hl.
Qed.

(** In a sorted array, a later index holds a value at least as large. *)
Lemma ordered_lookup (l : list V) (i j : nat) (x y : V) :
  StronglySorted below l -> (i <= j)%nat ->
  l !! i = Some x -> l !! j = Some y -> (val x <= val y)%Q.
Proof.
  intros Hs. revert i j. induction Hs as [|a l Hs IH Hall]; intros i j Hij Hi Hj.
  - discriminate.
  - destruct i as [|i], j as [|j]; cbn in Hi, Hj; try lia.
    + injection Hi as <-. injection Hj as <-. apply Qle_refl.
    + injection Hi as <-. rewrite List.Forall_forall in Hall.
      apply Hall, list_elem_of_In, list_elem_of_lookup. eauto.
    + apply (IH i j); [lia | assumption..].
Qed.


Lemma sort_good (l : list V) : List.Forall good l -> List.Forall good (sort leb l).
Proof.
  intros Hl. apply List.Forall_forall. intros z Hz.
  apply (proj1 (sort_In z l)) in Hz. rewrite List.Forall_forall in Hl. now apply Hl.
Qed.

Lemma lookup_good (l : list V) (i : nat) (x : V) :
  List.Forall good l -> l !! i = Some x -> good x.
Proof.
  intros Hl Hx. rewrite List.Forall_forall in Hl.
  apply Hl, list_elem_of_In, list_elem_of_lookup. eauto.
Qed.

(** The interpolation, without rounding. *)
Lemma lerp_exact (a b : V) (g : Q) :
  good a -> good b ->
  exists r, lerp toF sub a b (EFin g) = EFin r /\ (r == val a + (val b - val a) * g)%Q.
Proof.
  intros Ha Hb. unfold lerp.
  destruct (sub_val a b Ha Hb) as (q & -> & Hq).
  rewrite (toF_val a Ha), (toF_val b Hb).
  cbn [fle fsub fadd fmul fofZ c0_5 exact_arith Ex.cmp Ex.lift2].
  destruct (Qle_bool (1 # 2) g); eexists; (split; [reflexivity|]); rewrite Hq.
  - change (inject_Z 1) with 1%Q. ring.
  - ring.
Qed.

(** An array of one element: every percentile is that element. *)
Lemma percentile_single (q : Q) (x : V) :
  good x ->
  exists p, percentile leb toF sub (EFin q) [x] = EFin p /\ (p == val x)%Q.
Proof.
  intros Hx. unfold percentile.
  cbn [sort fold_right insert_sorted length].
  cbn [fle flt fmul fsub fofZ ffloor exact_arith Ex.cmp Ex.lift2 Ex.floor].
  change (Z.of_nat 1 - 1) with 0.
  replace (Qle_bool (inject_Z 0) (inject_Z 0 * q)) with true
    by (symmetry; apply Qle_bool_iff; change (inject_Z 0) with 0%Q; lra).
  cbv beta iota zeta. change (at_index [x] (-1)) with (Some x).
  cbv beta iota.
  destruct (lerp_exact x x (inject_Z 0 * q - inject_Z (-1)) Hx Hx) as (r & -> & Hr).
  exists r. split; [reflexivity|]. rewrite Hr. ring.
Qed.

(** An array of two elements or more: the percentile interpolates the two
    neighbours of the virtual index [(n - 1) * q]. *)
Lemma percentile_inner (q : Q) (l : list V) :
  (2 <= length l)%nat -> List.Forall good l -> (0 <= q)%Q -> (q < 1)%Q ->
  let v := (inject_Z (Z.of_nat (length l) - 1) * q)%Q in
  exists x y p,
    sort leb l !! Z.to_nat (Qfloor v) = Some x
    /\ sort leb l !! S (Z.to_nat (Qfloor v)) = Some y
    /\ percentile leb toF sub (EFin q) l = EFin p
    /\ (p == val x + (val y - val x) * (v - inject_Z (Qfloor v)))%Q.
Proof.
  intros Hn Hl Hq0 Hq1 v. unfold percentile.
  cbn [fle flt fmul fsub fofZ ffloor exact_arith Ex.cmp Ex.lift2 Ex.floor].
  rewrite sort_length. fold v.
  set (N := Z.of_nat (length l) - 1) in *.
  assert (HN : (1 <= inject_Z N)%Q).
  { change 1%Q with (inject_Z 1). rewrite <- Zle_Qle. lia. }
  assert (Hv0 : (0 <= v)%Q) by (subst v; nra).
  assert (HvN : (v < inject_Z N)%Q) by (subst v; nra).
  replace (Qle_bool (inject_Z N) v) with false
    by (symmetry; apply not_true_is_false; intros H; apply Qle_bool_iff in H; lra).
  replace (Ex.Qlt_bool v (inject_Z 0)) with false
    by (symmetry; unfold Ex.Qlt_bool; apply negb_false_iff, Qle_bool_iff;
        change (inject_Z 0) with 0%Q; lra).
  cbv beta iota zeta.
  assert (Hf0 : 0 <= Qfloor v).
  { change 0 with (Qfloor 0). now apply Qfloor_resp_le. }
  assert (HfN : Qfloor v < N).
  { rewrite Zlt_Qlt. apply Qle_lt_trans with v; [apply Qfloor_le | exact HvN]. }
  unfold at_index.
  replace (Qfloor v <? 0) with false by (symmetry; apply Z.ltb_ge; lia).
  replace (Qfloor v + 1 <? 0) with false by (symmetry; apply Z.ltb_ge; lia).
  replace (Z.to_nat (Qfloor v + 1)) with (S (Z.to_nat (Qfloor v))) by lia.
  destruct (lookup_lt_is_Some_2 (sort leb l) (Z.to_nat (Qfloor v))) as [x Hx];
    [rewrite sort_length; lia|].
  destruct (lookup_lt_is_Some_2 (sort leb l) (S (Z.to_nat (Qfloor v)))) as [y Hy];
    [rewrite sort_length; lia|].
  rewrite Hx, Hy.
  pose proof (sort_good l Hl) as Hs.
  destruct (lerp_exact x y (v - inject_Z (Qfloor v))
              (lookup_good _ _ _ Hs Hx) (lookup_good _ _ _ Hs Hy)) as (r & -> & Hr).
  exists x, y, r. auto.
Qed.

(** Percentiles grow with the level. *)
Lemma percentile_mono (q1 q2 : Q) (l : list V) :
  l <> [] -> List.Forall good l -> (0 <= q1)%Q -> (q1 <= q2)%Q -> (q2 < 1)%Q ->
  exists p1 p2,
    percentile leb toF sub (EFin q1) l = EFin p1
    /\ percentile leb toF sub (EFin q2) l = EFin p2
    /\ (p1 <= p2)%Q.
Proof.
  intros Hne Hl H0 H12 H1. destruct l as [|a [|b l]]; [congruence| |].
  - apply List.Forall_cons_iff in Hl as [Ha _].
    destruct (percentile_single q1 a Ha) as (p1 & E1 & Hp1).
    destruct (percentile_single q2 a Ha) as (p2 & E2 & Hp2).
    exists p1, p2. split; [exact E1|]. split; [exact E2|]. rewrite Hp1, Hp2. apply Qle_refl.
  - assert (Hn : (2 <= length (a :: b :: l))%nat) by (cbn; lia).
    destruct (percentile_inner q1 _ Hn Hl) as (x1 & y1 & p1 & Hx1 & Hy1 & E1 & Hp1);
      [lra | lra |].
    destruct (percentile_inner q2 _ Hn Hl) as (x2 & y2 & p2 & Hx2 & Hy2 & E2 & Hp2);
      [lra | lra |].
    exists p1, p2. split; [exact E1|]. split; [exact E2|].
    set (N := Z.of_nat (length (a :: b :: l)) - 1) in *.
    assert (HN : (1 <= inject_Z N)%Q).
    { change 1%Q with (inject_Z 1). rewrite <- Zle_Qle. subst N. cbn [length]. lia. }
    set (v1 := (inject_Z N * q1)%Q) in *. set (v2 := (inject_Z N * q2)%Q) in *.
    assert (Hv1 : (0 <= v1)%Q) by (subst v1; nra).
    assert (Hv : (v1 <= v2)%Q) by (subst v1 v2; nra).
    assert (Hf1 : 0 <= Qfloor v1) by (change 0 with (Qfloor 0); now apply Qfloor_resp_le).
    assert (Hf : Qfloor v1 <= Qfloor v2) by now apply Qfloor_resp_le.
    pose proof (Qfloor_le v1) as Hg1. pose proof (Qlt_floor v1) as Hg1'.
    pose proof (Qfloor_le v2) as Hg2. pose proof (Qlt_floor v2) as Hg2'.
    rewrite inject_Z_plus in Hg1', Hg2'. change (inject_Z 1) with 1%Q in Hg1', Hg2'.
    pose proof (sort_ordered _ Hl) as Hs.
    assert (Hd1 : (val x1 <= val y1)%Q)
      by (apply (ordered_lookup _ _ _ _ _ Hs (Nat.le_succ_diag_r _) Hx1 Hy1)).
    assert (Hd2 : (val x2 <= val y2)%Q)
      by (apply (ordered_lookup _ _ _ _ _ Hs (Nat.le_succ_diag_r _) Hx2 Hy2)).
    destruct (Z.eq_dec (Qfloor v1) (Qfloor v2)) as [Heq|Hlt].
    + rewrite <- Heq in *. rewrite Hx1 in Hx2. rewrite Hy1 in Hy2.
      injection Hx2 as <-. injection Hy2 as <-.
      rewrite Hp1, Hp2. nra.
    + assert (Hyx : (val y1 <= val x2)%Q).
      { apply (ordered_lookup _ (S (Z.to_nat (Qfloor v1))) (Z.to_nat (Qfloor v2))
                 _ _ Hs); [lia | exact Hy1 | exact Hx2]. }
      rewrite Hp1, Hp2. nra.
Qed.

End ExactQuantile.

(** ** The fences of the outlier check *)

Section ExactColumns.

Lemma wrap64_small (a b : Z) : small_int a -> small_int b -> wrap64 (b - a) = b - a.
Proof.
  unfold small_int, wrap64. intros Ha Hb.
  rewrite Z.mod_small; lia.
Qed.

Lemma float_values_fin (vs : list exact) : List.Forall is_fin (float_values vs).
Proof.
  apply List.Forall_forall. intros x Hx. unfold float_values in Hx.
  apply filter_In in Hx as [_ Hx]. destruct x as [|q]; [discriminate|]. now exists q.
Qed.

Lemma dropna_float {F : Type} `{!Float64 F} (vs : list F) :
  dropna (cells (FloatCol vs)) = map CFloat (float_values vs).
Proof.
  induction vs as [|x vs IH]; [reflexivity|]. cbn in *.
  destruct (fisnan x); cbn; now rewrite IH.
Qed.

Lemma dropna_int {F : Type} `{!Float64 F} (vs : list Z) :
  dropna (cells (IntCol (F := F) vs)) = map CInt vs.
Proof. induction vs as [|x vs IH]; [reflexivity|]. cbn in *. now rewrite IH. Qed.

(** The quartiles of a numeric column with a non-null value are numbers,
    in order. *)
Lemma quartiles_ordered (c : column exact) :
  is_number (col_data c) = true ->
  dropna (col_cells c) <> [] ->
  (forall vs, col_data c = IntCol vs -> List.Forall small_int vs) ->
  exists p1 p3, Q1 c = EFin p1 /\ Q3 c = EFin p3 /\ (p1 <= p3)%Q.
Proof.
  intros Hnum Hne Hsmall. unfold Q1, Q3, quantile, col_cells in *.
  destruct (col_data c) as [vs|vs| | |]; try discriminate.
  - rewrite dropna_int in Hne. specialize (Hsmall vs eq_refl).
    destruct vs as [|z vs]; [now contradiction Hne|].
    apply (percentile_mono Z.leb fofZ (fun b a => fofZ (wrap64 (b - a)))
             inject_Z small_int).
    + reflexivity.
    + intros a b Ha Hb. exists (inject_Z (b - a)). split.
      * cbn. now rewrite wrap64_small.
      * unfold Z.sub. now rewrite inject_Z_plus, inject_Z_opp.
    + intros a b _ _. unfold Qle_bool. cbn. now rewrite !Z.mul_1_r.
    + discriminate.
    + exact Hsmall.
    + lra.
    + lra.
    + lra.
  - rewrite dropna_float in Hne. pose proof (float_values_fin vs) as Hfin.
    destruct (float_values vs) as [|x xs]; [now contradiction Hne|].
    apply (percentile_mono fle (fun x => x) fsub exact_val is_fin).
    + intros a [q ->]. reflexivity.
    + intros a b [qa ->] [qb ->]. exists (qb - qa)%Q. split; reflexivity.
    + intros a b [qa ->] [qb ->]. reflexivity.
    + discriminate.
    + exact Hfin.
    + lra.
    + lra.
    + lra.
Qed.

End ExactColumns.

(** C1, as stated, fails on binary64: a column whose only value is
    infinite is included in the result with not-a-number fences, which are
    not below or above anything. *)
Lemma infinite_column_fences :
  wf_frame infinite_column /\ ~ fences_ordered infinite_column.
Proof.
  split.
  - split; [repeat constructor|]. split; [|discriminate].
    cbn. apply (bool_decide_unpack _). vm_compute. reflexivity.
  - intros H.
    destruct (H (Column "x" (FloatCol [PrimFloat.infinity])) (or_introl eq_refl))
      as [Hsome _].
    destruct Hsome as (r & Hr & _ & _ & Hlow & _); [discriminate|].
    vm_compute in Hr. injection Hr as <-. vm_compute in Hlow. discriminate Hlow.
Qed.

(** Finite values do not save the order on binary64 either: when the
    difference of two neighbours overflows, Q1 is above Q3. *)
Example huge_column_quartiles :
  Q1 (Column "x" (FloatCol [-0x1.fp1023; 0x1.fp1023]%float)) = PrimFloat.infinity
  /\ Q3 (Column "x" (FloatCol [-0x1.fp1023; 0x1.fp1023]%float)) = PrimFloat.neg_infinity
  /\ ~ fences_ordered huge_column.
Proof.
  split; [reflexivity|]. split; [reflexivity|]. intros H.
  destruct (H (Column "x" (FloatCol [-0x1.fp1023; 0x1.fp1023]%float))
              (or_introl eq_refl)) as [Hsome _].
  destruct Hsome as (r & _ & _ & _ & _ & Hq & _); [discriminate|].
  vm_compute in Hq. discriminate Hq.
Qed.

(** The failures are those of binary64: with the same code on exact
    numbers (finite values, no rounding, no overflow, integers whose
    differences fit [int64]) the fences of every numeric column with a
    non-null value are ordered around the quartiles. *)
Lemma fences_ordered_exact (d : DataFrame exact) :
  wf_frame d -> int64_small d -> fences_ordered d.
Proof.
  intros Hwf Hsmall c Hc.
  pose proof (select_dtypes_NoDup is_number d Hwf) as Hnd.
  unfold numeric_outliers.
  rewrite (fill_dict_item col_name (outliers_of d) ∅ _ c Hnd Hc).
  apply filter_In in Hc as [Hin Hnum]. unfold outliers_of. split.
  - intros Hne.
    destruct (quartiles_ordered c Hnum Hne) as (p1 & p3 & H1 & H3 & Hle).
    { intros vs Hvs. exact (Hsmall c vs Hin Hvs). }
    destruct (dropna (col_cells c)) as [|x xs]; [now contradiction Hne|].
    eexists. split; [reflexivity|]. cbn [lower_bound upper_bound].
    split; [reflexivity|]. split; [reflexivity|].
    unfold IQR. rewrite H1, H3.
    cbn [fle fsub fadd fmul c1_5 exact_arith Ex.cmp Ex.lift2].
    repeat split; apply Qle_bool_iff; lra.
  - intros ->. apply lookup_empty.
Qed.

Lemma scenario_B_exact_wf : wf_frame scenario_B_exact /\ int64_small scenario_B_exact.
Proof.
  split.
  - split; [repeat constructor|]. split; [|discriminate].
    cbn. apply (bool_decide_unpack _). vm_compute. reflexivity.
  - intros c vs [<-|[<-|[<-|[]]]]; cbn; intros [= <-].
    repeat constructor; unfold small_int; lia.
Qed.

Lemma fences_ordered_exact_witness :
  fences_ordered scenario_B_exact
  /\ is_Some (numeric_outliers scenario_B_exact !! "y")
  /\ numeric_outliers scenario_B_exact !! "z" = None.
Proof.
  split; [|split].
  - exact (fences_ordered_exact scenario_B_exact
             (proj1 scenario_B_exact_wf) (proj2 scenario_B_exact_wf)).
  - vm_compute. eauto.
  - vm_compute. reflexivity.
Defined.

(** ** Rounding to binary64 is monotone *)

(** The number of binary digits of a mantissa bounds it. *)
Lemma digits2_pos_bounds (m : positive) :
  2 ^ (Z.pos (digits2_pos m) - 1) <= Z.pos m < 2 ^ Z.pos (digits2_pos m).
Proof.
  induction m as [m IH|m IH|]; cbn [digits2_pos].
  - rewrite Pos2Z.inj_succ. replace (Z.succ (Z.pos (digits2_pos m)) - 1)
      with (Z.succ (Z.pos (digits2_pos m) - 1)) by lia.
    rewrite !Z.pow_succ_r by lia. lia.
  - rewrite Pos2Z.inj_succ. replace (Z.succ (Z.pos (digits2_pos m)) - 1)
      with (Z.succ (Z.pos (digits2_pos m) - 1)) by lia.
    rewrite !Z.pow_succ_r by lia. lia.
  - cbn. lia.
Qed.

(** The digits are determined by the bounds. *)
Lemma digits2_pos_unique (m : positive) (d : Z) :
  2 ^ (d - 1) <= Z.pos m < 2 ^ d -> 0 < d -> Z.pos (digits2_pos m) = d.
Proof.
  intros [Hlo Hhi] Hd. pose proof (digits2_pos_bounds m) as [Hlo' Hhi'].
  destruct (Z.lt_trichotomy (Z.pos (digits2_pos m)) d) as [H|[H|H]]; [|exact H|].
  - assert (2 ^ Z.pos (digits2_pos m) <= 2 ^ (d - 1)) by (apply Z.pow_le_mono_r; lia).
    lia.
  - assert (2 ^ d <= 2 ^ (Z.pos (digits2_pos m) - 1)) by (apply Z.pow_le_mono_r; lia).
    lia.
Qed.

(** An invariant of [iter_pos], counted in steps. *)
Lemma iter_pos_invariant {A : Type} (f : A -> A) (P : Z -> A -> Prop) :
  (forall k x, 0 <= k -> P k x -> P (k + 1) (f x)) ->
  forall p k x, 0 <= k -> P k x -> P (k + Z.pos p) (SpecFloat.iter_pos f p x).
Proof.
  intros Hstep. induction p as [p IH|p IH|]; intros k x Hk Hx; cbn [SpecFloat.iter_pos].
  - replace (k + Z.pos p~1) with (k + 1 + Z.pos p + Z.pos p) by lia.
    apply IH; [lia|]. apply IH; [lia|]. now apply Hstep.
  - replace (k + Z.pos p~0) with (k + Z.pos p + Z.pos p) by lia.
    apply IH; [lia|]. now apply IH.
  - now apply Hstep.
Qed.

(** One step of the right shift halves a non-negative mantissa, and keeps
    the record of what was shifted out. *)
Lemma shr_1_spec (mrs : shr_record) :
  0 <= shr_m mrs ->
  shr_m (shr_1 mrs) = shr_m mrs / 2
  /\ shr_r (shr_1 mrs) = Z.odd (shr_m mrs)
  /\ shr_s (shr_1 mrs) = shr_r mrs || shr_s mrs.
Proof.
  destruct mrs as [m r s]. cbn [shr_m shr_r shr_s]. intros Hm.
  destruct m as [|[p|p|]|p]; cbn [shr_1 shr_m shr_r shr_s]; try lia.
  - repeat split.
  - split; [|split; reflexivity].
    apply (Z.div_unique (Z.pos p~1) 2 (Z.pos p) 1); lia.
  - split; [|split; reflexivity].
    apply (Z.div_unique (Z.pos p~0) 2 (Z.pos p) 0); lia.
  - repeat split.
Qed.

Lemma shifted_step (M k : Z) (mrs : shr_record) :
  0 <= M -> 0 <= k -> shifted M k mrs -> shifted M (k + 1) (shr_1 mrs).
Proof.
  intros HM Hk [Hm Hex].
  assert (Hpow : 0 < 2 ^ k) by (apply Z.pow_pos_nonneg; lia).
  assert (Hm0 : 0 <= shr_m mrs) by (rewrite Hm; apply Z.div_pos; lia).
  destruct (shr_1_spec mrs Hm0) as (H1 & H2 & H3).
  unfold shifted. rewrite Z.pow_add_r, Z.pow_1_r by lia. split.
  - rewrite H1, Hm. now rewrite Z.div_div by lia.
  - intros Hmod.
    assert (Hk0 : M mod 2 ^ k = 0).
    { apply Z.mod_divide in Hmod; [|lia]. apply Z.mod_divide; [lia|].
      destruct Hmod as [q Hq]. exists (q * 2). lia. }
    destruct (Hex Hk0) as [Hr Hs]. rewrite H2, H3, Hr, Hs. split; [|reflexivity].
    rewrite Hm. apply Z.mod_divide in Hmod; [|lia]. destruct Hmod as [q Hq].
    subst M. replace (q * (2 ^ k * 2)) with (q * 2 * 2 ^ k) by lia.
    rewrite Z.div_mul by lia. rewrite Z.odd_mul. apply andb_false_r.
Qed.

Lemma shr_spec (M e n : Z) :
  0 <= M ->
  shifted M (Z.max n 0) (fst (shr (Build_shr_record M false false) e n))
  /\ snd (shr (Build_shr_record M false false) e n) = e + Z.max n 0.
Proof.
  intros HM. assert (H0 : shifted M 0 (Build_shr_record M false false)).
  { split; cbn; [now rewrite Z.div_1_r | auto]. }
  destruct n as [|p|p]; cbn [shr fst snd].
  - split; [exact H0 | cbn; lia].
  - replace (Z.max (Z.pos p) 0) with (Z.pos p) by lia. split; [|reflexivity].
    apply (iter_pos_invariant shr_1 (shifted M)
             (fun k x Hk => shifted_step M k x HM Hk) p 0 _ (Z.le_refl 0) H0).
  - split; [exact H0 | cbn; lia].
Qed.

(** Rounding to nearest adds at most one to the truncated mantissa, and
    nothing when the truncation lost nothing. *)
Lemma round_nearest_even_delta (M k : Z) (mrs : shr_record) :
  shifted M k mrs ->
  exists delta,
    round_nearest_even (shr_m mrs) (loc_of_shr_record mrs) = M / 2 ^ k + delta
    /\ 0 <= delta <= 1
    /\ (M mod 2 ^ k = 0 -> delta = 0).
Proof.
  intros [Hm Hex]. destruct mrs as [m r s]. cbn [shr_m shr_r shr_s] in *. subst m.
  destruct r, s; cbn [loc_of_shr_record round_nearest_even].
  - exists 1. split; [reflexivity|]. split; [lia|].
    intros H. now destruct (Hex H).
  - destruct (Z.even (M / 2 ^ k)).
    + exists 0. split; [lia|]. split; [lia|reflexivity].
    + exists 1. split; [reflexivity|]. split; [lia|].
      intros H. now destruct (Hex H).
  - exists 0. split; [lia|]. split; [lia|reflexivity].
  - exists 0. split; [lia|]. split; [lia|reflexivity].
Qed.

(** The left shift of a mantissa. *)
Lemma pos_iter_xO (m d : positive) :
  Z.pos (Pos.iter xO m d) = Z.pos m * 2 ^ Z.pos d
  /\ Z.pos (digits2_pos (Pos.iter xO m d)) = Z.pos (digits2_pos m) + Z.pos d.
Proof.
  induction d as [|d IH] using Pos.peano_ind.
  - cbn [Pos.iter digits2_pos]. rewrite Pos2Z.inj_xO, Pos2Z.inj_succ, Z.pow_1_r. lia.
  - rewrite Pos.iter_succ. cbn [digits2_pos].
    rewrite Pos2Z.inj_xO, !Pos2Z.inj_succ, Z.pow_succ_r by lia.
    destruct IH as [-> ->]. lia.
Qed.

Lemma fexp64 (x : Z) : fexp prec emax x = Z.max (x - 53) (-1074).
Proof. reflexivity. Qed.

Lemma pow2_pos (k : Z) : 0 <= k -> 0 < 2 ^ k.
Proof. intros H. apply Z.pow_pos_nonneg; lia. Qed.

Lemma pow2_split (a b : Z) : 0 <= a -> 0 <= b -> 2 ^ (a + b) = 2 ^ a * 2 ^ b.
Proof. intros. apply Z.pow_add_r; lia. Qed.

(** A canonical mantissa has at most 53 digits, exactly 53 above the
    smallest exponent. *)
Lemma canonical_facts (m : positive) (e : Z) :
  canonical_mantissa prec emax m e = true ->
  -1074 <= e /\ Z.pos m < 2 ^ 53 /\ (-1074 < e -> 2 ^ 52 <= Z.pos m).
Proof.
  unfold canonical_mantissa. rewrite fexp64. intros H. apply Z.eqb_eq in H.
  pose proof (digits2_pos_bounds m) as [Hlo Hhi].
  assert (Hd : Z.pos (digits2_pos m) <= 53) by lia.
  split; [lia|]. split.
  - assert (2 ^ Z.pos (digits2_pos m) <= 2 ^ 53) by (apply Z.pow_le_mono_r; lia). lia.
  - intros He. assert (Z.pos (digits2_pos m) = 53) as Hd53 by lia.
    rewrite Hd53 in Hlo. exact Hlo.
Qed.

Lemma bounded_facts (m : positive) (e : Z) :
  bounded prec emax m e = true ->
  -1074 <= e <= 971 /\ Z.pos m < 2 ^ 53 /\ (-1074 < e -> 2 ^ 52 <= Z.pos m).
Proof.
  unfold bounded. intros H. apply andb_true_iff in H as [Hc He].
  apply Z.leb_le in He. change (emax - prec) with 971 in He.
  destruct (canonical_facts m e Hc) as (H1 & H2 & H3). repeat split; auto; lia.
Qed.

(** The second shift of [binary_round_aux] keeps the value. *)
Lemma renormalize (m2 E t : Z) :
  1 <= t <= 53 -> 2 ^ (t - 1) <= m2 <= 2 ^ t -> -1074 <= E ->
  (-1074 < E -> t = 53) ->
  exists m3 e3,
    shr_m (fst (shr_fexp prec emax m2 E loc_Exact)) = Z.pos m3
    /\ snd (shr_fexp prec emax m2 E loc_Exact) = e3
    /\ mag m3 e3 = m2 * 2 ^ (E + 1074)
    /\ -1074 <= e3
    /\ (972 <= e3 -> 2 ^ 2098 <= m2 * 2 ^ (E + 1074))
    /\ canonical_mantissa prec emax m3 e3 = true.
Proof.
  intros Ht Hm HE Hnorm.
  assert (Hpos : 0 < m2).
  { assert (0 < 2 ^ (t - 1)) by (apply pow2_pos; lia). lia. }
  destruct m2 as [|q|q]; try lia.
  unfold shr_fexp. cbn [Zdigits2 shr_record_of_loc]. rewrite fexp64.
  destruct (Z.eq_dec (Z.pos q) (2 ^ t)) as [Heq|Hne].
  - (* the mantissa is a power of two with one digit too many *)
    assert (Hd : Z.pos (digits2_pos q) = t + 1).
    { apply digits2_pos_unique; [|lia]. replace (t + 1 - 1) with t by lia.
      rewrite Heq. split; [lia|]. rewrite Z.pow_add_r, Z.pow_1_r by lia.
      assert (0 < 2 ^ t) by (apply pow2_pos; lia). lia. }
    rewrite Hd. destruct (Z.eq_dec t 53) as [->|Ht53].
    + replace (Z.max (53 + 1 + E - 53) (-1074) - E) with 1 by lia.
      destruct (shr_spec (Z.pos q) E 1 (Pos2Z.is_nonneg q)) as [[Hm3 _] He3].
      change (Z.max 1 0) with 1 in *. rewrite Z.pow_1_r in Hm3.
      assert (Hm3' : Z.pos q / 2 = 2 ^ 52) by (rewrite Heq; reflexivity).
      rewrite Hm3' in Hm3.
      exists (4503599627370496%positive), (E + 1). rewrite Hm3, He3.
      split; [reflexivity|]. split; [reflexivity|]. unfold mag. rewrite Heq.
      replace (E + 1 + 1074) with (1 + (E + 1074)) by lia.
      rewrite pow2_split by lia. change (2 ^ 1) with 2.
      change (2 ^ 53) with 9007199254740992.
      split; [lia|]. split; [lia|]. split.
      * intros He. replace (E + 1074) with ((E - 971) + 2045) by lia.
        rewrite pow2_split by lia.
        replace (2 ^ 2098) with (9007199254740992 * 2 ^ 2045) by reflexivity.
        assert (1 <= 2 ^ (E - 971)) by (pose proof (pow2_pos (E - 971)); lia).
        assert (0 < 2 ^ 2045) by (apply pow2_pos; lia). nia.
      * unfold canonical_mantissa. rewrite fexp64.
        change (Z.pos (digits2_pos 4503599627370496)) with 53.
        apply Z.eqb_eq. lia.
    + assert (E = -1074) by lia. subst E.
      replace (Z.max (t + 1 + -1074 - 53) (-1074) - -1074) with 0 by lia.
      cbn [shr fst snd shr_m]. exists q, (-1074). unfold mag.
      split; [reflexivity|]. split; [reflexivity|]. split; [reflexivity|].
      split; [lia|]. split; [lia|].
      unfold canonical_mantissa. rewrite fexp64, Hd. apply Z.eqb_eq. lia.
  - assert (Hd : Z.pos (digits2_pos q) = t) by (apply digits2_pos_unique; lia).
    rewrite Hd.
    assert (Hn : Z.max (t + E - 53) (-1074) - E <= 0) by lia.
    assert (Hshr : shr (Build_shr_record (Z.pos q) false false) E
                     (Z.max (t + E - 53) (-1074) - E)
                   = (Build_shr_record (Z.pos q) false false, E)).
    { destruct (Z.max (t + E - 53) (-1074) - E); try reflexivity. lia. }
    rewrite Hshr. cbn [fst snd shr_m]. exists q, E. unfold mag.
    split; [reflexivity|]. split; [reflexivity|]. split; [reflexivity|].
    split; [lia|]. split.
    + intros He. assert (t = 53) as -> by lia.
      replace (E + 1074) with ((E - 972) + 2046) by lia.
      rewrite pow2_split by lia. change (2 ^ 2098) with (2 ^ 52 * 2 ^ 2046).
      change (2 ^ (53 - 1)) with (2 ^ 52) in Hm.
      assert (1 <= 2 ^ (E - 972)) by (pose proof (pow2_pos (E - 972)); lia).
      assert (0 < 2 ^ 2046) by (apply pow2_pos; lia). nia.
    + unfold canonical_mantissa. rewrite fexp64, Hd. apply Z.eqb_eq. lia.
Qed.

(** [binary_round_aux] without its pattern bindings. *)
Lemma binary_round_aux_eq (s : bool) (m e : Z) (l : location) :
  binary_round_aux prec emax s m e l =
  match shr_m (fst (shr_fexp prec emax
          (round_nearest_even (shr_m (fst (shr_fexp prec emax m e l)))
             (loc_of_shr_record (fst (shr_fexp prec emax m e l))))
          (snd (shr_fexp prec emax m e l)) loc_Exact)) with
  | Z0 => S754_zero s
  | Zpos m3 =>
      if Z.leb (snd (shr_fexp prec emax
          (round_nearest_even (shr_m (fst (shr_fexp prec emax m e l)))
             (loc_of_shr_record (fst (shr_fexp prec emax m e l))))
          (snd (shr_fexp prec emax m e l)) loc_Exact)) (emax - prec)
      then S754_finite s m3 (snd (shr_fexp prec emax
          (round_nearest_even (shr_m (fst (shr_fexp prec emax m e l)))
             (loc_of_shr_record (fst (shr_fexp prec emax m e l))))
          (snd (shr_fexp prec emax m e l)) loc_Exact))
      else S754_infinity s
  | Zneg _ => S754_nan
  end.
Proof.
  unfold binary_round_aux. destruct (shr_fexp prec emax m e l) as [mrs' e'].
  cbn [fst snd].
  destruct (shr_fexp prec emax (round_nearest_even (shr_m mrs') (loc_of_shr_record mrs'))
              e' loc_Exact) as [mrs'' e''].
  reflexivity.
Qed.

(** The first shift of an exact mantissa. *)
Lemma shr_fexp_exact (M e : Z) :
  0 <= M ->
  shifted M (Z.max (fexp prec emax (Zdigits2 M + e) - e) 0)
    (fst (shr_fexp prec emax M e loc_Exact))
  /\ snd (shr_fexp prec emax M e loc_Exact)
     = e + Z.max (fexp prec emax (Zdigits2 M + e) - e) 0.
Proof. intros HM. unfold shr_fexp. cbn [shr_record_of_loc]. now apply shr_spec. Qed.

(** Rounding a non-negative mantissa never gives a NaN, and keeps the sign. *)
Lemma binary_round_aux_sign (s : bool) (m e : Z) :
  0 <= m ->
  match binary_round_aux prec emax s m e loc_Exact with
  | S754_nan => False
  | S754_zero s' | S754_infinity s' | S754_finite s' _ _ => s' = s
  end.
Proof.
  intros Hm. rewrite binary_round_aux_eq.
  destruct (shr_fexp_exact m e Hm) as [Hs1 _].
  destruct (round_nearest_even_delta _ _ _ Hs1) as (delta & Hr & Hd & _).
  set (k1 := Z.max (fexp prec emax (Zdigits2 m + e) - e) 0) in *.
  assert (H1 : 0 <= m / 2 ^ k1).
  { apply Z.div_pos; [lia|]. apply pow2_pos. unfold k1. lia. }
  set (m2 := round_nearest_even _ _) in *.
  assert (H2 : 0 <= m2) by lia.
  set (e1 := snd (shr_fexp prec emax m e loc_Exact)).
  destruct (shr_fexp_exact m2 e1 H2) as [[Hs2 _] _].
  set (k2 := Z.max (fexp prec emax (Zdigits2 m2 + e1) - e1) 0) in *.
  assert (H3 : 0 <= m2 / 2 ^ k2).
  { apply Z.div_pos; [lia|]. apply pow2_pos. unfold k2. lia. }
  destruct (shr_m (fst (shr_fexp prec emax m2 e1 loc_Exact))) as [|p|p]; try lia.
  - reflexivity.
  - destruct (_ <=? _); reflexivity.
Qed.

Lemma binary_round_aux_analysis (s : bool) (M : positive) (e : Z) :
  -1074 <= e -> e <= fexp prec emax (Z.pos (digits2_pos M) + e) ->
  rounds_to (mag M e) (binary_round_aux prec emax s (Z.pos M) e loc_Exact) s.
Proof.
  intros He HE. rewrite fexp64 in HE.
  set (d := Z.pos (digits2_pos M)) in *.
  set (E := Z.max (d + e - 53) (-1074)) in *.
  set (n := E - e).
  assert (Hn : 0 <= n) by (unfold n; lia).
  pose proof (digits2_pos_bounds M) as [Mlo Mhi]. fold d in Mlo, Mhi.
  assert (Hd : 1 <= d) by (unfold d; lia).
  set (t := d - n).
  assert (Ht : 1 <= t <= 53) by (unfold t, n, E; lia).
  assert (Hnorm : -1074 < E -> t = 53) by (unfold t, n, E; lia).
  assert (Hpn : 0 < 2 ^ n) by (apply pow2_pos; lia).
  assert (Hpe : 0 < 2 ^ (e + 1074)) by (apply pow2_pos; lia).
  assert (HP : 2 ^ (E + 1074) = 2 ^ n * 2 ^ (e + 1074)).
  { rewrite <- pow2_split by lia. f_equal. unfold n. lia. }
  assert (Hdiv : mag M e / 2 ^ (E + 1074) = Z.pos M / 2 ^ n).
  { unfold mag. rewrite HP. apply Z.div_mul_cancel_r; lia. }
  assert (Hmod : mag M e mod 2 ^ (E + 1074) = 0 -> Z.pos M mod 2 ^ n = 0).
  { unfold mag. rewrite HP. rewrite Z.mul_mod_distr_r by lia. nia. }
  assert (Hm1 : 2 ^ (t - 1) <= Z.pos M / 2 ^ n < 2 ^ t).
  { split.
    - apply Z.div_le_lower_bound; [lia|]. rewrite <- pow2_split by lia.
      replace (n + (t - 1)) with (d - 1) by (unfold t; lia). exact Mlo.
    - apply Z.div_lt_upper_bound; [lia|]. rewrite <- pow2_split by lia.
      replace (n + t) with d by (unfold t; lia). exact Mhi. }
  rewrite binary_round_aux_eq.
  destruct (shr_fexp_exact (Z.pos M) e (Pos2Z.is_nonneg M)) as [Hs1 He1].
  cbn [Zdigits2] in Hs1, He1. rewrite fexp64 in Hs1, He1. fold d in Hs1, He1.
  fold E in Hs1, He1. fold n in Hs1, He1.
  replace (Z.max n 0) with n in Hs1, He1 by lia.
  replace (e + n) with E in He1 by (unfold n; lia).
  destruct (round_nearest_even_delta _ _ _ Hs1) as (delta & Hr & Hdl & Hex).
  rewrite Hr, He1.
  set (m2 := Z.pos M / 2 ^ n + delta) in *.
  assert (H2 : 2 ^ (t - 1) <= m2 <= 2 ^ t) by (unfold m2; lia).
  destruct (renormalize m2 E t Ht H2 ltac:(unfold E; lia) Hnorm)
    as (m3 & e3 & Hm3 & He3 & Hmag & Hlo3 & Hov & Hcan).
  rewrite Hm3, He3. exists E, m2. rewrite Hdiv.
  assert (H52 : -1074 < E -> 2 ^ 52 <= Z.pos M / 2 ^ n).
  { intros H. rewrite (Hnorm H) in Hm1. exact (proj1 Hm1). }
  assert (H1 : 1 <= Z.pos M / 2 ^ n).
  { assert (0 < 2 ^ (t - 1)) by (apply pow2_pos; lia). lia. }
  split; [unfold E; lia|]. split; [unfold m2; lia|].
  split; [intros H; unfold m2; rewrite (Hex (Hmod H)); lia|].
  split; [exact H1|]. split; [exact H52|].
  change (emax - prec) with 971. destruct (Z.leb_spec e3 971) as [Hle|Hgt].
  - right. exists m3, e3. split; [reflexivity|]. split; [exact Hmag|].
    unfold bounded. rewrite Hcan. apply Z.leb_le. exact Hle.
  - left. split; [reflexivity|]. apply Hov. lia.
Qed.

Lemma binary_round_analysis (s : bool) (mz : positive) (ez : Z) :
  -1074 <= ez -> rounds_to (mag mz ez) (binary_round prec emax s mz ez) s.
Proof.
  intros He. unfold binary_round, shl_align. rewrite fexp64.
  set (d := Z.pos (digits2_pos mz)).
  destruct (Z.max (d + ez - 53) (-1074) - ez) as [|k|k] eqn:Hk.
  - apply binary_round_aux_analysis; [exact He|]. rewrite fexp64. fold d. lia.
  - apply binary_round_aux_analysis; [exact He|]. rewrite fexp64. fold d. lia.
  - destruct (pos_iter_xO mz k) as [Hv Hdg].
    assert (Hmag : mag (Pos.iter xO mz k) (Z.max (d + ez - 53) (-1074)) = mag mz ez).
    { unfold mag. rewrite Hv.
      replace (ez + 1074) with (Z.pos k + (Z.max (d + ez - 53) (-1074) + 1074)) by lia.
      rewrite (pow2_split (Z.pos k)) by lia. ring. }
    rewrite <- Hmag. apply binary_round_aux_analysis; [lia|].
    rewrite fexp64, Hdg. fold d. lia.
Qed.

(** A magnitude relative to a target exponent [E]: a representable number
    is a multiple of [2 ^ E], or lies below every number of 53 digits at
    that exponent. *)
Lemma bounded_grid (ma : positive) (ea E : Z) :
  bounded prec emax ma ea = true -> -1074 <= E ->
  (E <= ea /\ exists c, mag ma ea = c * 2 ^ (E + 1074))
  \/ (ea < E /\ -1074 < E /\ mag ma ea < 2 ^ 52 * 2 ^ (E + 1074)).
Proof.
  intros Hb HE. destruct (bounded_facts ma ea Hb) as (He & Hm & _).
  destruct (Z.le_gt_cases E ea) as [Hle|Hgt].
  - left. split; [exact Hle|]. exists (Z.pos ma * 2 ^ (ea - E)). unfold mag.
    replace (ea + 1074) with ((ea - E) + (E + 1074)) by lia.
    rewrite pow2_split by lia. ring.
  - right. split; [lia|]. split; [lia|]. unfold mag.
    replace (E + 1074) with ((E - ea - 1) + (1 + (ea + 1074))) by lia.
    rewrite (pow2_split (E - ea - 1)) by lia.
    rewrite (pow2_split 1) by lia. change (2 ^ 1) with 2.
    assert (HK : 1 <= 2 ^ (E - ea - 1)) by (pose proof (pow2_pos (E - ea - 1)); lia).
    assert (HA : 0 < 2 ^ (ea + 1074)) by (apply pow2_pos; lia).
    change (2 ^ 53) with 9007199254740992 in Hm.
    change (2 ^ 52) with 4503599627370496.
    set (K := 2 ^ (E - ea - 1)) in *. set (A := 2 ^ (ea + 1074)) in *.
    assert (Z.pos ma * A < 9007199254740992 * A) by nia.
    assert (9007199254740992 * A <= 4503599627370496 * (K * (2 * A))) by nia.
    lia.
Qed.

Lemma bounded_below_overflow (ma : positive) (ea : Z) :
  bounded prec emax ma ea = true -> mag ma ea < 2 ^ 2098.
Proof.
  intros Hb. destruct (bounded_facts ma ea Hb) as (He & Hm & _). unfold mag.
  replace (2 ^ 2098) with (9007199254740992 * 2 ^ 2045) by reflexivity.
  change (2 ^ 53) with 9007199254740992 in Hm.
  assert (2 ^ (ea + 1074) <= 2 ^ 2045) by (apply Z.pow_le_mono_r; lia).
  assert (0 < 2 ^ (ea + 1074)) by (apply pow2_pos; lia).
  nia.
Qed.

(** Rounding is monotone against representable numbers: from above ... *)
Lemma rounds_to_below (V : Z) (r : spec_float) (s : bool) (ma : positive) (ea : Z) :
  rounds_to V r s -> bounded prec emax ma ea = true -> V <= mag ma ea ->
  exists m3 e3, r = S754_finite s m3 e3 /\ mag m3 e3 <= mag ma ea.
Proof.
  intros (E & m2 & HE & Hm2 & Hex & H1 & H52 & Hr) Hb Hle.
  assert (HP : 0 < 2 ^ (E + 1074)) by (apply pow2_pos; lia).
  set (P := 2 ^ (E + 1074)) in *.
  pose proof (Z.div_mod V P ltac:(lia)) as Hdm.
  pose proof (Z.mod_pos_bound V P HP) as Hrem.
  set (q := V / P) in *. set (rm := V mod P) in *.
  assert (Hbound : m2 * P <= mag ma ea).
  { destruct (bounded_grid ma ea E Hb HE) as [[_ [c Hc]]|(_ & HE' & Hlt)];
      [fold P in Hc | fold P in Hlt].
    - destruct (Z.eq_dec rm 0) as [H0|Hn0].
      + rewrite (Hex H0). nia.
      + assert (q < c) by nia. nia.
    - specialize (H52 HE'). change (2 ^ 52) with 4503599627370496 in *. nia. }
  destruct Hr as [[_ Hov]|(m3 & e3 & -> & Hmag & _)].
  - pose proof (bounded_below_overflow ma ea Hb). lia.
  - exists m3, e3. split; [reflexivity|]. lia.
Qed.

(** ... and from below. *)
Lemma rounds_to_above (V : Z) (r : spec_float) (s : bool) (ma : positive) (ea : Z) :
  rounds_to V r s -> bounded prec emax ma ea = true -> mag ma ea <= V ->
  r = S754_infinity s
  \/ exists m3 e3, r = S754_finite s m3 e3 /\ mag ma ea <= mag m3 e3.
Proof.
  intros (E & m2 & HE & Hm2 & Hex & H1 & H52 & Hr) Hb Hle.
  assert (HP : 0 < 2 ^ (E + 1074)) by (apply pow2_pos; lia).
  set (P := 2 ^ (E + 1074)) in *.
  pose proof (Z.div_mod V P ltac:(lia)) as Hdm.
  pose proof (Z.mod_pos_bound V P HP) as Hrem.
  set (q := V / P) in *. set (rm := V mod P) in *.
  assert (Hbound : mag ma ea <= m2 * P).
  { destruct (bounded_grid ma ea E Hb HE) as [[_ [c Hc]]|(_ & HE' & Hlt)];
      [fold P in Hc | fold P in Hlt].
    - assert (c <= q) by nia. nia.
    - specialize (H52 HE'). change (2 ^ 52) with 4503599627370496 in *. nia. }
  destruct Hr as [[-> _]|(m3 & e3 & -> & Hmag & _)].
  - now left.
  - right. exists m3, e3. split; [reflexivity|]. lia.
Qed.

(** A rounded positive magnitude is an infinity or a finite number. *)
Lemma rounds_to_cases (V : Z) (r : spec_float) (s : bool) :
  rounds_to V r s -> r = S754_infinity s \/ exists m3 e3, r = S754_finite s m3 e3.
Proof.
  intros (E & m2 & _ & _ & _ & _ & _ & [[-> _]|(m3 & e3 & -> & _)]); eauto.
Qed.

(** ** Comparison of valid numbers *)

Lemma mag_pos (m : positive) (e : Z) : -1074 <= e -> 0 < mag m e.
Proof.
  intros He. unfold mag. assert (0 < 2 ^ (e + 1074)) by (apply pow2_pos; lia). nia.
Qed.

Lemma mag_lt_exponent (m1 m2 : positive) (e1 e2 : Z) :
  bounded prec emax m1 e1 = true -> bounded prec emax m2 e2 = true ->
  e1 < e2 -> mag m1 e1 < mag m2 e2.
Proof.
  intros H1 H2 Hlt. destruct (bounded_facts m2 e2 H2) as (He2 & _ & Hn2).
  destruct (bounded_facts m1 e1 H1) as (He1 & _ & _).
  destruct (bounded_grid m1 e1 e2 H1 ltac:(lia)) as [[Hle _]|(_ & _ & Hm)]; [lia|].
  assert (0 < 2 ^ (e2 + 1074)) by (apply pow2_pos; lia).
  specialize (Hn2 ltac:(lia)). change (2 ^ 52) with 4503599627370496 in *.
  unfold mag at 2. nia.
Qed.

Lemma mag_compare (m1 m2 : positive) (e1 e2 : Z) :
  bounded prec emax m1 e1 = true -> bounded prec emax m2 e2 = true ->
  match Z.compare e1 e2 with
  | Lt => Lt
  | Gt => Gt
  | Eq => Pos.compare_cont Eq m1 m2
  end = Z.compare (mag m1 e1) (mag m2 e2).
Proof.
  intros H1 H2. destruct (Z.compare_spec e1 e2) as [->|Hlt|Hgt].
  - destruct (bounded_facts m2 e2 H2) as (He2 & _ & _).
    assert (0 < 2 ^ (e2 + 1074)) by (apply pow2_pos; lia).
    change (Pos.compare_cont Eq m1 m2) with (Z.compare (Z.pos m1) (Z.pos m2)).
    unfold mag. symmetry. destruct (Z.compare_spec (Z.pos m1) (Z.pos m2)) as [->|Hl|Hg].
    + apply Z.compare_refl.
    + apply Z.compare_lt_iff. nia.
    + apply Z.compare_gt_iff. nia.
  - symmetry. apply Z.compare_lt_iff. now apply mag_lt_exponent.
  - symmetry. apply Z.compare_gt_iff. now apply mag_lt_exponent.
Qed.

(** The comparison of two valid finite numbers is that of their values. *)
Lemma SFcompare_finite (s1 s2 : bool) (m1 m2 : positive) (e1 e2 : Z) :
  bounded prec emax m1 e1 = true -> bounded prec emax m2 e2 = true ->
  SFcompare (S754_finite s1 m1 e1) (S754_finite s2 m2 e2)
  = Some (Z.compare (sval s1 m1 e1) (sval s2 m2 e2)).
Proof.
  intros H1 H2. pose proof (mag_compare m1 m2 e1 e2 H1 H2) as Hc.
  destruct (bounded_facts m1 e1 H1) as (He1 & _ & _).
  destruct (bounded_facts m2 e2 H2) as (He2 & _ & _).
  pose proof (mag_pos m1 e1 ltac:(lia)). pose proof (mag_pos m2 e2 ltac:(lia)).
  unfold SFcompare, sval. f_equal. destruct s1, s2.
  - rewrite Z.compare_opp. rewrite <- (mag_compare m2 m1 e2 e1 H2 H1).
    rewrite (Z.compare_antisym e2 e1).
    destruct (e2 ?= e1); cbn [CompOpp]; try reflexivity.
    change (Pos.compare_cont Eq m1 m2) with (Pos.compare m1 m2).
    change (Pos.compare_cont Eq m2 m1) with (Pos.compare m2 m1).
    now rewrite (Pos.compare_antisym m1 m2).
  - symmetry. apply Z.compare_lt_iff. lia.
  - symmetry. apply Z.compare_gt_iff. lia.
  - exact Hc.
Qed.

Lemma SFleb_finite (s1 s2 : bool) (m1 m2 : positive) (e1 e2 : Z) :
  bounded prec emax m1 e1 = true -> bounded prec emax m2 e2 = true ->
  SFleb (S754_finite s1 m1 e1) (S754_finite s2 m2 e2) = true
  <-> sval s1 m1 e1 <= sval s2 m2 e2.
Proof.
  intros H1 H2. unfold SFleb. rewrite (SFcompare_finite _ _ _ _ _ _ H1 H2).
  destruct (Z.compare_spec (sval s1 m1 e1) (sval s2 m2 e2)); split; intros; try lia;
    try reflexivity; discriminate.
Qed.

(** ** Sums and differences *)

Lemma shl_align_mag (m : positive) (e e' : Z) :
  -1074 <= e' -> e' <= e ->
  Z.pos (fst (shl_align m e e')) * 2 ^ (e' + 1074) = mag m e.
Proof.
  intros He' Hle. unfold shl_align, mag. destruct (e' - e) as [|k|k] eqn:Hk; cbn [fst].
  - replace e' with e by lia. reflexivity.
  - lia.
  - destruct (pos_iter_xO m k) as [-> _].
    replace (e + 1074) with (Z.pos k + (e' + 1074)) by lia.
    rewrite (pow2_split (Z.pos k)) by lia. ring.
Qed.

Lemma aligned_sval (s : bool) (m : positive) (e e' : Z) :
  -1074 <= e' -> e' <= e ->
  cond_Zopp s (Z.pos (fst (shl_align m e e'))) * 2 ^ (e' + 1074) = sval s m e.
Proof.
  intros He' Hle. pose proof (shl_align_mag m e e' He' Hle) as H.
  unfold sval. destruct s; cbn [cond_Zopp]; lia.
Qed.

(** The rounded integer [z * 2 ^ ez] against a representable number above
    it ... *)
Lemma binary_normalize_le_above (z ez : Z) (s : bool) (m : positive) (e : Z) :
  -1074 <= ez -> bounded prec emax m e = true ->
  valid_binary (binary_normalize prec emax z ez false) = true ->
  z * 2 ^ (ez + 1074) <= sval s m e ->
  SFleb (binary_normalize prec emax z ez false) (S754_finite s m e) = true.
Proof.
  intros Hez Hb Hv Hle. destruct (bounded_facts m e Hb) as (He & _ & _).
  pose proof (mag_pos m e ltac:(lia)) as Hm.
  destruct z as [|p|p]; cbn [binary_normalize] in *.
  - destruct s; [unfold sval in Hle; lia | reflexivity].
  - pose proof (binary_round_analysis false p ez Hez) as Hr.
    pose proof (mag_pos p ez Hez) as Hp. fold (mag p ez) in Hle.
    destruct s; [unfold sval in Hle; lia|]. unfold sval in Hle.
    destruct (rounds_to_below _ _ _ m e Hr Hb Hle) as (m3 & e3 & Heq & Hlt).
    rewrite Heq in *. cbn [SpecFloat.valid_binary] in Hv.
    apply SFleb_finite; auto.
  - pose proof (binary_round_analysis true p ez Hez) as Hr.
    pose proof (mag_pos p ez Hez) as Hp.
    change (Z.neg p) with (- Z.pos p) in Hle.
    assert (Hle' : - mag p ez <= sval s m e) by (unfold mag; lia).
    destruct s.
    + unfold sval in Hle'.
      destruct (rounds_to_above _ _ _ m e Hr Hb ltac:(lia))
        as [Heq|(m3 & e3 & Heq & Hlt)]; rewrite Heq in *; [reflexivity|].
      cbn [SpecFloat.valid_binary] in Hv. apply SFleb_finite; auto. unfold sval. lia.
    + destruct (rounds_to_cases _ _ _ Hr) as [Heq|(m3 & e3 & Heq)]; rewrite Heq;
        reflexivity.
Qed.

(** ... and against one below it. *)
Lemma binary_normalize_le_below (z ez : Z) (s : bool) (m : positive) (e : Z) :
  -1074 <= ez -> bounded prec emax m e = true ->
  valid_binary (binary_normalize prec emax z ez false) = true ->
  sval s m e <= z * 2 ^ (ez + 1074) ->
  SFleb (S754_finite s m e) (binary_normalize prec emax z ez false) = true.
Proof.
  intros Hez Hb Hv Hle. destruct (bounded_facts m e Hb) as (He & _ & _).
  pose proof (mag_pos m e ltac:(lia)) as Hm.
  destruct z as [|p|p]; cbn [binary_normalize] in *.
  - destruct s; [reflexivity | unfold sval in Hle; lia].
  - pose proof (binary_round_analysis false p ez Hez) as Hr.
    pose proof (mag_pos p ez Hez) as Hp. fold (mag p ez) in Hle.
    destruct s.
    + destruct (rounds_to_cases _ _ _ Hr) as [Heq|(m3 & e3 & Heq)]; rewrite Heq;
        reflexivity.
    + unfold sval in Hle.
      destruct (rounds_to_above _ _ _ m e Hr Hb Hle)
        as [Heq|(m3 & e3 & Heq & Hlt)]; rewrite Heq in *; [reflexivity|].
      cbn [SpecFloat.valid_binary] in Hv. apply SFleb_finite; auto.
  - pose proof (binary_round_analysis true p ez Hez) as Hr.
    pose proof (mag_pos p ez Hez) as Hp.
    change (Z.neg p) with (- Z.pos p) in Hle.
    assert (Hle' : sval s m e <= - mag p ez) by (unfold mag; lia).
    destruct s; [|unfold sval in Hle'; lia]. unfold sval in Hle'.
    destruct (rounds_to_below _ _ _ m e Hr Hb ltac:(lia)) as (m3 & e3 & Heq & Hlt).
    rewrite Heq in *. cbn [SpecFloat.valid_binary] in Hv.
    apply SFleb_finite; auto. unfold sval. lia.
Qed.

(** The sign of a rounded integer. *)
Lemma binary_normalize_nonneg (z ez : Z) :
  -1074 <= ez -> 0 <= z -> nonneg (binary_normalize prec emax z ez false) = true.
Proof.
  intros Hez Hz. destruct z as [|p|p]; cbn [binary_normalize]; [reflexivity| |lia].
  destruct (rounds_to_cases _ _ _ (binary_round_analysis false p ez Hez))
    as [Heq|(m3 & e3 & Heq)]; rewrite Heq; reflexivity.
Qed.

Lemma SFleb_refl_finite (s : bool) (m : positive) (e : Z) :
  SFleb (S754_finite s m e) (S754_finite s m e) = true.
Proof.
  unfold SFleb, SFcompare. rewrite Z.compare_refl.
  change (Pos.compare_cont Eq m m) with (Pos.compare m m). rewrite Pos.compare_refl.
  now destruct s.
Qed.

(** Subtracting a non-negative number does not increase a number. *)
Lemma SFsub_le (x y : spec_float) :
  valid_binary x = true -> valid_binary y = true ->
  valid_binary (SFsub prec emax x y) = true ->
  nonneg y = true -> x <> S754_nan -> x <> S754_infinity false ->
  SFleb (SFsub prec emax x y) x = true.
Proof.
  intros Hx Hy Hr Hn Hnan Hinf.
  destruct x as [sx|sx| |sx mx ex]; [ | |congruence| ];
    (destruct y as [sy|sy| |sy my ey]; cbn [nonneg] in Hn; try discriminate).
  1-6: destruct sx, sy; try discriminate; try congruence; reflexivity.
  - cbn [SFsub]. apply SFleb_refl_finite.
  - destruct sx, sy; try discriminate; reflexivity.
  - destruct sy; [discriminate|]. cbn [SpecFloat.valid_binary] in Hx, Hy. cbn [SFsub] in *.
    destruct (bounded_facts mx ex Hx) as (Hex & _ & _).
    destruct (bounded_facts my ey Hy) as (Hey & _ & _).
    apply binary_normalize_le_above; auto; [lia|].
    rewrite Z.mul_sub_distr_r, !aligned_sval by lia.
    pose proof (mag_pos my ey ltac:(lia)). unfold sval at 2. lia.
Qed.

(** Adding a non-negative number does not decrease a number. *)
Lemma SFadd_le (x y : spec_float) :
  valid_binary x = true -> valid_binary y = true ->
  valid_binary (SFadd prec emax x y) = true ->
  nonneg y = true -> x <> S754_nan -> x <> S754_infinity true ->
  SFleb x (SFadd prec emax x y) = true.
Proof.
  intros Hx Hy Hr Hn Hnan Hinf.
  destruct x as [sx|sx| |sx mx ex]; [ | |congruence| ];
    (destruct y as [sy|sy| |sy my ey]; cbn [nonneg] in Hn; try discriminate).
  1-6: destruct sx, sy; try discriminate; try congruence; reflexivity.
  - cbn [SFadd]. apply SFleb_refl_finite.
  - destruct sx, sy; try discriminate; reflexivity.
  - destruct sy; [discriminate|]. cbn [SpecFloat.valid_binary] in Hx, Hy. cbn [SFadd] in *.
    destruct (bounded_facts mx ex Hx) as (Hex & _ & _).
    destruct (bounded_facts my ey Hy) as (Hey & _ & _).
    apply binary_normalize_le_below; auto; [lia|].
    rewrite Z.mul_add_distr_r, !aligned_sval by lia.
    pose proof (mag_pos my ey ltac:(lia)). unfold sval at 3. lia.
Qed.

(** The difference of two ordered numbers is non-negative, or a NaN. *)
Lemma SFsub_nonneg (x y : spec_float) :
  valid_binary x = true -> valid_binary y = true ->
  SFleb x y = true ->
  SFsub prec emax y x = S754_nan \/ nonneg (SFsub prec emax y x) = true.
Proof.
  intros Hx Hy Hle.
  destruct x as [sx|sx| |sx mx ex]; [ | |discriminate| ];
    (destruct y as [sy|sy| |sy my ey]; [ | |destruct sx; discriminate| ]).
  1-8: destruct sx, sy; try discriminate; auto.
  cbn [SpecFloat.valid_binary] in Hx, Hy. right. cbn [SFsub].
  destruct (bounded_facts mx ex Hx) as (Hex & _ & _).
  destruct (bounded_facts my ey Hy) as (Hey & _ & _).
  apply binary_normalize_nonneg; [lia|].
  apply SFleb_finite in Hle; auto.
  assert (Hp : 0 < 2 ^ (Z.min ey ex + 1074)) by (apply pow2_pos; lia).
  pose proof (aligned_sval sx mx ex (Z.min ey ex) ltac:(lia) ltac:(lia)).
  pose proof (aligned_sval sy my ey (Z.min ey ex) ltac:(lia) ltac:(lia)).
  nia.
Qed.

(** A positive multiple of a non-negative number is non-negative. *)
Lemma SFmul_nonneg (m : positive) (e : Z) (y : spec_float) :
  nonneg y = true ->
  nonneg (SFmul prec emax (S754_finite false m e) y) = true.
Proof.
  intros Hn. destruct y as [sy|sy| |sy my ey]; cbn [nonneg] in Hn; try discriminate.
  - reflexivity.
  - destruct sy; [discriminate|reflexivity].
  - destruct sy; [discriminate|]. cbn [SFmul xorb].
    pose proof (binary_round_aux_sign false (Z.pos (m * my)) (e + ey)
                  (Pos2Z.is_nonneg _)) as H.
    destruct (binary_round_aux _ _ _ _ _ _); cbn [nonneg]; try contradiction;
      subst; reflexivity.
Qed.

(** ** On primitive floats *)

Lemma b64_is_nan_spec (x : float) : PrimFloat.is_nan x = true <-> Prim2SF x = S754_nan.
Proof.
  unfold Prim2SF. destruct (PrimFloat.is_nan x); [tauto|].
  split; [discriminate|].
  destruct (is_zero x); [discriminate|]. destruct (is_infinity x); [discriminate|].
  destruct (Z.frexp x) as [r e].
  destruct (shr_fexp prec emax _ _ _) as [mrs e'].
  destruct (shr_m mrs); discriminate.
Qed.

Lemma b64_not_nan (x : float) : PrimFloat.is_nan x = false <-> Prim2SF x <> S754_nan.
Proof.
  rewrite <- b64_is_nan_spec. destruct (PrimFloat.is_nan x); split; congruence.
Qed.

Lemma SFleb_not_nan (x y : spec_float) :
  SFleb x y = true -> x <> S754_nan /\ y <> S754_nan.
Proof.
  intros H. split; intros ->; [discriminate|]. now destruct x.
Qed.

(** The fences on binary64: they enclose the quartiles exactly when the
    quartiles are in order and their difference is a number. *)
Lemma b64_fences_enclose (q1 q3 : float) :
  ((q1 - 0x1.8p+0 * (q3 - q1) <=? q1)%float = true
   /\ (q1 <=? q3)%float = true
   /\ (q3 <=? q3 + 0x1.8p+0 * (q3 - q1))%float = true)
  <-> ((q1 <=? q3)%float = true /\ PrimFloat.is_nan (q3 - q1)%float = false).
Proof.
  assert (HC : Prim2SF 0x1.8p+0 = S754_finite false 6755399441055744 (-52))
    by reflexivity.
  rewrite !leb_spec, b64_not_nan, !sub_spec, !add_spec, !mul_spec, !sub_spec, HC.
  pose proof (Prim2SF_valid q1) as V1. pose proof (Prim2SF_valid q3) as V3.
  pose proof (Prim2SF_valid (q1 - 0x1.8p+0 * (q3 - q1))%float) as Vlo.
  pose proof (Prim2SF_valid (q3 + 0x1.8p+0 * (q3 - q1))%float) as Vup.
  pose proof (Prim2SF_valid (0x1.8p+0 * (q3 - q1))%float) as Vt.
  rewrite sub_spec, mul_spec, sub_spec, HC in Vlo.
  rewrite add_spec, mul_spec, sub_spec, HC in Vup.
  rewrite mul_spec, sub_spec, HC in Vt.
  unfold SF64sub, SF64add, SF64mul in *.
  set (x1 := Prim2SF q1) in *. set (x3 := Prim2SF q3) in *.
  split.
  - intros (Hlo & Hle & _). split; [exact Hle|]. intros Hnan.
    rewrite Hnan in Hlo. cbn [SFmul] in Hlo.
    destruct x1; discriminate Hlo.
  - intros [Hle Hnan]. split; [|split; [exact Hle|]].
    + destruct (SFsub_nonneg x1 x3 V1 V3 Hle) as [H|Hi]; [contradiction|].
      destruct (SFleb_not_nan _ _ Hle) as [N1 N3].
      apply SFsub_le; auto.
      * now apply SFmul_nonneg.
      * intros H1. rewrite H1 in Hle, Hnan.
        destruct x3 as [s|[|]| |s m e]; try discriminate Hle. now apply Hnan.
    + destruct (SFsub_nonneg x1 x3 V1 V3 Hle) as [H|Hi]; [contradiction|].
      destruct (SFleb_not_nan _ _ Hle) as [N1 N3].
      apply SFadd_le; auto.
      * now apply SFmul_nonneg.
      * intros H3. rewrite H3 in Hle, Hnan.
        destruct x1 as [s|[|]| |s m e]; try discriminate Hle. now apply Hnan.
Qed.

(** ** Exact computations on small multiples of a quarter *)

Lemma pow2_lt_inv (a b : Z) : 0 <= b -> 2 ^ a < 2 ^ b -> a < b.
Proof.
  intros Hb H. destruct (Z.lt_ge_cases a b) as [Hlt|Hge]; [exact Hlt|].
  assert (2 ^ b <= 2 ^ a) by (apply Z.pow_le_mono_r; lia). lia.
Qed.

(** A magnitude of less than 53 digits in quarters is rounded to itself. *)
Lemma rounds_to_exact (V : Z) (r : spec_float) (s : bool) (c : Z) :
  rounds_to V r s -> V = c * 2 ^ 1072 -> 0 < c < 2 ^ 53 ->
  exists m e, r = S754_finite s m e /\ mag m e = V /\ bounded prec emax m e = true.
Proof.
  intros (E & m2 & HE & Hm2 & Hex & H1 & H52 & Hr) HV Hc.
  assert (HP : 0 < 2 ^ (E + 1074)) by (apply pow2_pos; lia).
  assert (H1072 : 0 < 2 ^ 1072) by (apply pow2_pos; lia).
  assert (HEle : E + 1074 <= 1072).
  { destruct (Z.eq_dec E (-1074)) as [->|Hne]; [lia|].
    specialize (H52 ltac:(lia)).
    pose proof (Z.mul_div_le V (2 ^ (E + 1074)) HP) as Hle.
    assert (Hlt : 2 ^ (E + 1074) < 2 ^ 1073).
    { change (2 ^ 1073) with (2 * 2 ^ 1072).
      change (2 ^ 52) with 4503599627370496 in H52.
      change (2 ^ 53) with 9007199254740992 in Hc.
      set (P := 2 ^ (E + 1074)) in *. set (q := V / P) in *.
      set (T := 2 ^ 1072) in *. nia. }
    apply pow2_lt_inv in Hlt; lia. }
  assert (Hdiv : V = c * 2 ^ (1072 - (E + 1074)) * 2 ^ (E + 1074)).
  { rewrite HV, <- Z.mul_assoc, <- pow2_split by lia. do 2 f_equal. lia. }
  assert (Hmod : V mod 2 ^ (E + 1074) = 0).
  { rewrite Hdiv. apply Z.mod_mul. lia. }
  assert (Hq : V / 2 ^ (E + 1074) * 2 ^ (E + 1074) = V).
  { rewrite Hdiv at 1. rewrite Z.div_mul by lia. now rewrite <- Hdiv. }
  rewrite (Hex Hmod) in Hr. rewrite Hq in Hr.
  destruct Hr as [[_ Hov]|(m3 & e3 & -> & Hmag & Hb)].
  - exfalso. change (2 ^ 2098) with (2 ^ 1026 * 2 ^ 1072) in Hov.
    change (2 ^ 53) with 9007199254740992 in Hc.
    assert (9007199254740992 < 2 ^ 1026) by reflexivity.
    set (T := 2 ^ 1072) in *. set (U := 2 ^ 1026) in *. nia.
  - exists m3, e3. auto.
Qed.

(** A small integer number of quarters, normalized. *)
Lemma normalize_quarters (z ez k : Z) :
  -1074 <= ez -> z * 2 ^ (ez + 1074) = k * 2 ^ 1072 -> - 2 ^ 53 < k < 2 ^ 53 ->
  quarters (binary_normalize prec emax z ez false) k
  /\ valid_binary (binary_normalize prec emax z ez false) = true.
Proof.
  intros Hez Heq Hk.
  assert (HP : 0 < 2 ^ (ez + 1074)) by (apply pow2_pos; lia).
  assert (HT : 0 < 2 ^ 1072) by (apply pow2_pos; lia).
  destruct z as [|p|p]; cbn [binary_normalize].
  - assert (k = 0) by nia. subst k. split; reflexivity.
  - assert (Hpos : 0 < k) by nia.
    destruct (rounds_to_exact _ _ _ k (binary_round_analysis false p ez Hez))
      as (m & e & -> & Hmag & Hb); [exact Heq|lia|].
    destruct k as [|k|k]; try lia. split; [|exact Hb].
    exists m, e. split; [reflexivity|]. now rewrite Hmag.
  - assert (Hneg : k < 0) by nia.
    destruct (rounds_to_exact _ _ _ (- k) (binary_round_analysis true p ez Hez))
      as (m & e & -> & Hmag & Hb).
    { unfold mag. change (Z.neg p) with (- Z.pos p) in Heq. lia. }
    { lia. }
    destruct k as [|k|k]; try lia. split; [|exact Hb].
    exists m, e. split; [reflexivity|]. rewrite Hmag. unfold mag.
    change (Z.neg p) with (- Z.pos p) in Heq. change (Z.neg k) with (- Z.pos k) in Heq.
    lia.
Qed.

Lemma quarters_qval (x : spec_float) (k : Z) : quarters x k -> qval x = k * 2 ^ 1072.
Proof.
  destruct k as [|p|p]; cbn [quarters].
  - intros ->. reflexivity.
  - intros (m & e & -> & Hm). cbn [qval sval]. exact Hm.
  - intros (m & e & -> & Hm). cbn [qval sval]. rewrite Hm. reflexivity.
Qed.

Lemma quarters_cases (x : spec_float) (k : Z) :
  quarters x k ->
  (k = 0 /\ x = S754_zero false)
  \/ (k <> 0 /\ exists m e, x = S754_finite (k <? 0) m e).
Proof.
  destruct k as [|p|p]; cbn [quarters].
  - intros ->. now left.
  - intros (m & e & -> & _). right. split; [discriminate|]. now exists m, e.
  - intros (m & e & -> & _). right. split; [discriminate|]. now exists m, e.
Qed.

Lemma SFadd_quarters (x y : spec_float) (a b : Z) :
  valid_binary x = true -> valid_binary y = true ->
  quarters x a -> quarters y b -> - 2 ^ 53 < a + b < 2 ^ 53 ->
  quarters (SFadd prec emax x y) (a + b).
Proof.
  intros Vx Vy Hx Hy Hab.
  pose proof (quarters_qval x a Hx) as Qx. pose proof (quarters_qval y b Hy) as Qy.
  destruct (quarters_cases x a Hx) as [[-> ->]|[Ha (mx & ex & ->)]];
    destruct (quarters_cases y b Hy) as [[-> ->]|[Hb (my & ey & ->)]].
  - reflexivity.
  - exact Hy.
  - rewrite Z.add_0_r. exact Hx.
  - cbn [SFadd]. cbn [SpecFloat.valid_binary] in Vx, Vy.
    destruct (bounded_facts mx ex Vx) as (Hex & _ & _).
    destruct (bounded_facts my ey Vy) as (Hey & _ & _).
    apply normalize_quarters; [lia| |exact Hab].
    rewrite Z.mul_add_distr_r, !aligned_sval by lia.
    cbn [qval] in Qx, Qy. lia.
Qed.

Lemma quarters_opp (s : bool) (m : positive) (e : Z) (k : Z) :
  quarters (S754_finite s m e) k -> quarters (S754_finite (negb s) m e) (- k).
Proof.
  destruct k as [|p|p]; cbn [quarters Z.opp].
  - discriminate.
  - intros (m' & e' & [= -> -> ->] & Hm). now exists m', e'.
  - intros (m' & e' & [= -> -> ->] & Hm). now exists m', e'.
Qed.

Lemma SFsub_quarters (x y : spec_float) (a b : Z) :
  valid_binary x = true -> valid_binary y = true ->
  quarters x a -> quarters y b -> - 2 ^ 53 < a - b < 2 ^ 53 ->
  quarters (SFsub prec emax x y) (a - b).
Proof.
  intros Vx Vy Hx Hy Hab.
  pose proof (quarters_qval x a Hx) as Qx. pose proof (quarters_qval y b Hy) as Qy.
  destruct (quarters_cases x a Hx) as [[-> ->]|[Ha (mx & ex & ->)]];
    destruct (quarters_cases y b Hy) as [[-> ->]|[Hb (my & ey & ->)]].
  - reflexivity.
  - cbn [SFsub]. change (0 - b) with (- b). now apply quarters_opp.
  - rewrite Z.sub_0_r. exact Hx.
  - cbn [SFsub]. cbn [SpecFloat.valid_binary] in Vx, Vy.
    destruct (bounded_facts mx ex Vx) as (Hex & _ & _).
    destruct (bounded_facts my ey Vy) as (Hey & _ & _).
    apply normalize_quarters; [lia| |exact Hab].
    rewrite Z.mul_sub_distr_r, !aligned_sval by lia.
    cbn [qval] in Qx, Qy. lia.
Qed.

(** A number of at least a quarter has a full mantissa, with an exponent
    of at least -54. *)
Lemma quarters_normal (m : positive) (e : Z) (c : Z) :
  bounded prec emax m e = true -> mag m e = c * 2 ^ 1072 -> 0 < c ->
  -54 <= e /\ 2 ^ 52 <= Z.pos m.
Proof.
  intros Hb Hm Hc. destruct (bounded_facts m e Hb) as (He & Hlt & Hn).
  assert (He54 : -54 <= e).
  { destruct (Z.lt_ge_cases e (-54)) as [Hlo|]; [exfalso|assumption].
    unfold mag in Hm.
    assert (HA : 0 < 2 ^ (e + 1074)) by (apply pow2_pos; lia).
    assert (HT : 2 ^ 1072 = 2 ^ (1072 - 53 - (e + 1074)) * (2 ^ 53 * 2 ^ (e + 1074))).
    { rewrite <- !pow2_split by lia. f_equal. lia. }
    assert (HK : 1 <= 2 ^ (1072 - 53 - (e + 1074))).
    { pose proof (pow2_pos (1072 - 53 - (e + 1074))). lia. }
    rewrite HT in Hm. change (2 ^ 53) with 9007199254740992 in *.
    set (A := 2 ^ (e + 1074)) in *. set (K := 2 ^ (1072 - 53 - (e + 1074))) in *.
    nia. }
  split; [exact He54|]. apply Hn. lia.
Qed.

Lemma SFmul_quarters (x y : spec_float) (i g : Z) :
  valid_binary x = true -> valid_binary y = true ->
  quarters x (4 * i) -> quarters y g -> 0 <= i -> 0 <= g -> i * g < 2 ^ 53 ->
  quarters (SFmul prec emax x y) (i * g).
Proof.
  intros Vx Vy Hx Hy Hi Hg Hig.
  pose proof (quarters_qval x _ Hx) as Qx. pose proof (quarters_qval y _ Hy) as Qy.
  destruct (quarters_cases x _ Hx) as [[Hi0 ->]|[Ha (mx & ex & ->)]];
    destruct (quarters_cases y _ Hy) as [[-> ->]|[Hb (my & ey & ->)]].
  - replace i with 0 by lia. reflexivity.
  - replace i with 0 by lia. replace (g <? 0) with false by (symmetry; apply Z.ltb_ge; lia).
    reflexivity.
  - rewrite Z.mul_0_r. replace (4 * i <? 0) with false by (symmetry; apply Z.ltb_ge; lia).
    reflexivity.
  - replace (4 * i <? 0) with false in * by (symmetry; apply Z.ltb_ge; lia).
    replace (g <? 0) with false in * by (symmetry; apply Z.ltb_ge; lia).
    cbn [SpecFloat.valid_binary] in Vx, Vy. cbn [qval sval] in Qx, Qy.
    destruct (quarters_normal mx ex (4 * i) Vx Qx ltac:(lia)) as [Hex Hmx].
    destruct (quarters_normal my ey g Vy Qy ltac:(lia)) as [Hey Hmy].
    cbn [SFmul xorb].
    assert (Hmag : mag (mx * my) (ex + ey) = i * g * 2 ^ 1072).
    { unfold mag in *. rewrite Pos2Z.inj_mul.
      assert (H74 : 0 < 2 ^ 1074) by (apply pow2_pos; lia).
      apply (Z.mul_reg_r _ _ (2 ^ 1074)); [lia|].
      replace (Z.pos mx * Z.pos my * 2 ^ (ex + ey + 1074) * 2 ^ 1074)
        with ((Z.pos mx * 2 ^ (ex + 1074)) * (Z.pos my * 2 ^ (ey + 1074))).
      - rewrite Qx, Qy. change (2 ^ 1074) with (4 * 2 ^ 1072). ring.
      - replace (Z.pos mx * Z.pos my * 2 ^ (ex + ey + 1074) * 2 ^ 1074)
          with (Z.pos mx * Z.pos my * (2 ^ (ex + ey + 1074) * 2 ^ 1074)) by ring.
        rewrite <- (pow2_split (ex + ey + 1074) 1074) by lia.
        replace (ex + ey + 1074 + 1074) with ((ex + 1074) + (ey + 1074)) by lia.
        rewrite (pow2_split (ex + 1074) (ey + 1074)) by lia. ring. }
    assert (Hig0 : 0 < i * g) by nia.
    assert (Hfexp : ex + ey <= fexp prec emax (Z.pos (digits2_pos (mx * my)) + (ex + ey))).
    { rewrite fexp64.
      pose proof (digits2_pos_bounds (mx * my)) as [_ Hhi].
      rewrite Pos2Z.inj_mul in Hhi.
      assert (H104 : 2 ^ 104 < 2 ^ Z.pos (digits2_pos (mx * my))).
      { change (2 ^ 104) with (4503599627370496 * 4503599627370496).
        change (2 ^ 52) with 4503599627370496 in *. nia. }
      apply pow2_lt_inv in H104; lia. }
    destruct (rounds_to_exact _ _ false (i * g)
                (binary_round_aux_analysis false (mx * my) (ex + ey) ltac:(lia) Hfexp))
      as (m & e & Hr & Hm & _); [exact Hmag|lia|].
    rewrite Hr. destruct (i * g) as [|p|p] eqn:E; try lia.
    exists m, e. split; [reflexivity|]. now rewrite Hm, Hmag.
Qed.

(** Comparisons. *)
Lemma SFcompare_quarters (x y : spec_float) (a b : Z) :
  valid_binary x = true -> valid_binary y = true ->
  quarters x a -> quarters y b ->
  SFcompare x y = Some (a ?= b).
Proof.
  intros Vx Vy Hx Hy.
  pose proof (quarters_qval x a Hx) as Qx. pose proof (quarters_qval y b Hy) as Qy.
  assert (HT : 0 < 2 ^ 1072) by (apply pow2_pos; lia).
  destruct (quarters_cases x a Hx) as [[-> ->]|[Ha (mx & ex & ->)]];
    destruct (quarters_cases y b Hy) as [[-> ->]|[Hb (my & ey & ->)]].
  - reflexivity.
  - cbn [SFcompare]. destruct b as [|p|p]; [congruence| |]; reflexivity.
  - cbn [SFcompare]. destruct a as [|p|p]; [congruence| |]; reflexivity.
  - cbn [SpecFloat.valid_binary] in Vx, Vy. cbn [qval] in Qx, Qy.
    rewrite (SFcompare_finite _ _ _ _ _ _ Vx Vy), Qx, Qy. f_equal.
    set (T := 2 ^ 1072) in *.
    destruct (Z.compare_spec a b) as [->|Hlt|Hgt].
    + apply Z.compare_refl.
    + apply Z.compare_lt_iff. nia.
    + apply Z.compare_gt_iff. nia.
Qed.

Lemma SFleb_quarters (x y : spec_float) (a b : Z) :
  valid_binary x = true -> valid_binary y = true ->
  quarters x a -> quarters y b -> SFleb x y = (a <=? b).
Proof.
  intros Vx Vy Hx Hy. unfold SFleb, Z.leb.
  rewrite (SFcompare_quarters x y a b Vx Vy Hx Hy). now destruct (a ?= b).
Qed.

Lemma SFltb_quarters (x y : spec_float) (a b : Z) :
  valid_binary x = true -> valid_binary y = true ->
  quarters x a -> quarters y b -> SFltb x y = (a <? b).
Proof.
  intros Vx Vy Hx Hy. unfold SFltb, Z.ltb.
  rewrite (SFcompare_quarters x y a b Vx Vy Hx Hy). now destruct (a ?= b).
Qed.

(** The integer part. *)
Lemma sf_floor_quarters (x : spec_float) (k : Z) :
  valid_binary x = true -> quarters x k -> 0 <= k -> sf_floor x = k / 4.
Proof.
  intros Vx Hx Hk. pose proof (quarters_qval x k Hx) as Qx.
  destruct (quarters_cases x k Hx) as [[-> ->]|[Hne (m & e & ->)]]; [reflexivity|].
  replace (k <? 0) with false in * by (symmetry; apply Z.ltb_ge; lia).
  cbn [SpecFloat.valid_binary] in Vx. cbn [qval sval] in Qx. unfold mag in Qx.
  destruct (bounded_facts m e Vx) as (He & _ & _).
  cbn [sf_floor]. destruct (Z.leb_spec 0 e) as [Hpos|Hneg].
  - assert (Hk4 : k = Z.pos m * 2 ^ e * 4).
    { assert (HT : 0 < 2 ^ 1072) by (apply pow2_pos; lia).
      apply (Z.mul_reg_r _ _ (2 ^ 1072)); [lia|]. rewrite <- Qx.
      replace (e + 1074) with (e + (2 + 1072)) by lia.
      rewrite !pow2_split by lia. change (2 ^ 2) with 4. ring. }
    rewrite Hk4. now rewrite Z.div_mul by lia.
  - destruct (Z.le_gt_cases (- e) 2) as [Hsmall|Hbig].
    + assert (Hk4 : k = Z.pos m * 2 ^ (2 + e)).
      { assert (HT : 0 < 2 ^ 1072) by (apply pow2_pos; lia).
        apply (Z.mul_reg_r _ _ (2 ^ 1072)); [lia|]. rewrite <- Qx.
        replace (e + 1074) with ((2 + e) + 1072) by lia.
        rewrite pow2_split by lia. ring. }
      rewrite Hk4. change 4 with (2 ^ 2).
      replace (2 ^ 2) with (2 ^ (- e) * 2 ^ (2 + e)).
      * rewrite Z.div_mul_cancel_r; [reflexivity| |].
        -- pose proof (pow2_pos (- e)). lia.
        -- pose proof (pow2_pos (2 + e)). lia.
      * rewrite <- pow2_split by lia. f_equal. lia.
    + assert (Hm : Z.pos m = k * 2 ^ (- e - 2)).
      { assert (HA : 0 < 2 ^ (e + 1074)) by (apply pow2_pos; lia).
        apply (Z.mul_reg_r _ _ (2 ^ (e + 1074))); [lia|]. rewrite Qx.
        rewrite <- Z.mul_assoc, <- pow2_split by lia. do 2 f_equal. lia. }
      rewrite Hm. replace (2 ^ (- e)) with (4 * 2 ^ (- e - 2)).
      * rewrite Z.div_mul_cancel_r; [reflexivity|lia|].
        pose proof (pow2_pos (- e - 2)). lia.
      * change 4 with (2 ^ 2). rewrite <- pow2_split by lia. f_equal. lia.
Qed.

(** The conversion of a small integer. *)
Lemma ofZ_quarters (z : Z) :
  - 2 ^ 51 < z < 2 ^ 51 ->
  quarters (Prim2SF (SF2Prim (binary_normalize prec emax z 0 false))) (4 * z)
  /\ valid_binary (Prim2SF (SF2Prim (binary_normalize prec emax z 0 false))) = true.
Proof.
  intros Hz.
  destruct (normalize_quarters z 0 (4 * z)) as [Hq Hv].
  - lia.
  - change (2 ^ (0 + 1074)) with (4 * 2 ^ 1072). ring.
  - change (2 ^ 53) with (4 * 2 ^ 51). lia.
  - rewrite (Prim2SF_SF2Prim _ Hv). split; assumption.
Qed.

(** ** Integer columns on binary64 *)

Lemma b64_add (x y : float) (a b : Z) :
  b64_quarters x a -> b64_quarters y b -> - 2 ^ 53 < a + b < 2 ^ 53 ->
  b64_quarters (x + y) (a + b).
Proof.
  unfold b64_quarters. intros Hx Hy Hab. rewrite add_spec.
  apply SFadd_quarters; auto using Prim2SF_valid.
Qed.

Lemma b64_sub (x y : float) (a b : Z) :
  b64_quarters x a -> b64_quarters y b -> - 2 ^ 53 < a - b < 2 ^ 53 ->
  b64_quarters (x - y) (a - b).
Proof.
  unfold b64_quarters. intros Hx Hy Hab. rewrite sub_spec.
  apply SFsub_quarters; auto using Prim2SF_valid.
Qed.

Lemma b64_mul (x y : float) (i g : Z) :
  b64_quarters x (4 * i) -> b64_quarters y g -> 0 <= i -> 0 <= g -> i * g < 2 ^ 53 ->
  b64_quarters (x * y) (i * g).
Proof.
  unfold b64_quarters. intros Hx Hy Hi Hg Hig. rewrite mul_spec.
  apply SFmul_quarters; auto using Prim2SF_valid.
Qed.

Lemma b64_leb (x y : float) (a b : Z) :
  b64_quarters x a -> b64_quarters y b -> (x <=? y)%float = (a <=? b).
Proof.
  unfold b64_quarters. intros Hx Hy. rewrite leb_spec.
  apply SFleb_quarters; auto using Prim2SF_valid.
Qed.

Lemma b64_ltb (x y : float) (a b : Z) :
  b64_quarters x a -> b64_quarters y b -> (x <? y)%float = (a <? b).
Proof.
  unfold b64_quarters. intros Hx Hy. rewrite ltb_spec.
  apply SFltb_quarters; auto using Prim2SF_valid.
Qed.

Lemma b64_floor (x : float) (k : Z) :
  b64_quarters x k -> 0 <= k -> B64.floor x = k / 4.
Proof.
  unfold b64_quarters. intros Hx Hk.
  change (B64.floor x) with (sf_floor (Prim2SF x)).
  apply sf_floor_quarters; auto using Prim2SF_valid.
Qed.

Lemma b64_ofZ (z : Z) : - 2 ^ 51 < z < 2 ^ 51 -> b64_quarters (B64.ofZ z) (4 * z).
Proof. intros Hz. exact (proj1 (ofZ_quarters z Hz)). Qed.

Lemma b64_quarters_number (x : float) (k : Z) :
  b64_quarters x k -> PrimFloat.is_nan x = false.
Proof.
  unfold b64_quarters. intros Hx. apply b64_not_nan.
  destruct (quarters_cases _ _ Hx) as [[_ ->]|[_ (m & e & ->)]]; discriminate.
Qed.

Lemma b64_literals :
  b64_quarters c0_25 1 /\ b64_quarters c0_5 2 /\ b64_quarters c0_75 3.
Proof.
  repeat split.
  - exists 4503599627370496%positive, (-54). split; reflexivity.
  - exists 4503599627370496%positive, (-53). split; reflexivity.
  - exists 6755399441055744%positive, (-53). split; reflexivity.
Qed.

(** A sorted array of integers. *)
Lemma sort_Z_lookup (l : list Z) (i j : nat) (x y : Z) :
  (i <= j)%nat -> sort Z.leb l !! i = Some x -> sort Z.leb l !! j = Some y -> x <= y.
Proof.
  intros Hij Hi Hj. rewrite Zle_Qle.
  apply (ordered_lookup inject_Z (sort Z.leb l) i j x y); try assumption.
  apply (sort_ordered Z.leb inject_Z (fun _ => True)).
  - intros a b _ _. unfold Qle_bool. cbn. now rewrite !Z.mul_1_r.
  - apply List.Forall_forall. auto.
Qed.

Lemma sort_Z_tiny (l : list Z) (i : nat) (x : Z) :
  List.Forall tiny_int l -> sort Z.leb l !! i = Some x -> tiny_int x.
Proof.
  intros Hl Hx. rewrite List.Forall_forall in Hl. apply Hl.
  apply (proj1 (sort_In Z.leb x l)).
  apply list_elem_of_In, list_elem_of_lookup. eauto.
Qed.

(** The interpolation between two small integers is exact. *)
Lemma lerp_int (a b : Z) (gamma : float) (g : Z) :
  b64_quarters gamma g -> 0 <= g <= 4 -> tiny_int a -> tiny_int b -> a <= b ->
  b64_quarters (lerp (F := float) fofZ (fun b a => fofZ (wrap64 (b - a))) a b gamma)
    (4 * a + (b - a) * g).
Proof.
  unfold tiny_int. intros Hg Hg4 Ha Hb Hab. unfold lerp.
  cbn [fle fsub fadd fmul fofZ c0_5 binary64].
  assert (H49 : 2 ^ 49 = 562949953421312) by reflexivity.
  assert (H51 : 2 ^ 51 = 2251799813685248) by reflexivity.
  assert (H53 : 2 ^ 53 = 9007199254740992) by reflexivity.
  rewrite H49 in Ha, Hb.
  assert (Hw : wrap64 (b - a) = b - a).
  { apply wrap64_small; unfold small_int;
      change (2 ^ 62) with 4611686018427387904; lia. }
  rewrite Hw.
  assert (Hdiff : b64_quarters (B64.ofZ (b - a)) (4 * (b - a)))
    by (apply b64_ofZ; lia).
  destruct b64_literals as (_ & Hhalf & _). cbn [c0_5 binary64] in Hhalf.
  rewrite (b64_leb _ _ 2 g Hhalf Hg). destruct (Z.leb_spec 2 g) as [Hhi|Hlo].
  - replace (4 * a + (b - a) * g) with (4 * b - (b - a) * (4 * 1 - g)) by ring.
    apply b64_sub; [apply b64_ofZ; lia| |rewrite H53; nia].
    apply b64_mul; [exact Hdiff| |lia|lia|rewrite H53; nia].
    apply b64_sub; [apply b64_ofZ; lia|exact Hg|rewrite H53; lia].
  - apply b64_add; [apply b64_ofZ; lia| |rewrite H53; nia].
    apply b64_mul; [exact Hdiff|exact Hg|lia|lia|rewrite H53; nia].
Qed.

(** The percentile of a column of small integers is exact. *)
Lemma percentile_int (q : float) (q4 : Z) (vs : list Z) :
  b64_quarters q q4 -> 1 <= q4 <= 3 -> vs <> [] ->
  List.Forall tiny_int vs -> Z.of_nat (length vs) <= 2 ^ 49 ->
  b64_quarters
    (percentile (F := float) Z.leb fofZ (fun b a => fofZ (wrap64 (b - a))) q vs)
    (interpolated (sort Z.leb vs) ((Z.of_nat (length vs) - 1) * q4)).
Proof.
  intros Hq Hq4 Hne Htiny Hlen. unfold percentile, interpolated.
  rewrite sort_length. set (arr := sort Z.leb vs).
  assert (Hlarr : length arr = length vs) by apply sort_length.
  set (n := Z.of_nat (length vs)) in *.
  assert (Hn : 1 <= n) by (destruct vs; [congruence|cbn [length] in n; lia]).
  assert (H49 : 2 ^ 49 = 562949953421312) by reflexivity.
  assert (H51 : 2 ^ 51 = 2251799813685248) by reflexivity.
  assert (H53 : 2 ^ 53 = 9007199254740992) by reflexivity.
  rewrite H49 in Hlen.
  cbn [fle flt fsub fmul fofZ ffloor binary64].
  assert (Hn1 : b64_quarters (B64.ofZ (n - 1)) (4 * (n - 1))) by (apply b64_ofZ; lia).
  assert (Hvi : b64_quarters (B64.ofZ (n - 1) * q) ((n - 1) * q4)).
  { apply b64_mul; [exact Hn1|exact Hq|lia|lia|rewrite H53; nia]. }
  set (t := (n - 1) * q4) in *.
  rewrite (b64_leb _ _ _ _ Hn1 Hvi).
  assert (H0 : b64_quarters (B64.ofZ 0) (4 * 0)) by (apply b64_ofZ; lia).
  rewrite (b64_ltb _ _ _ _ Hvi H0).
  rewrite (b64_floor _ _ Hvi) by (unfold t; nia).
  destruct (Z.eq_dec n 1) as [Hone|Hmore].
  - (* a single value *)
    assert (Ht : t = 0) by (unfold t; nia). rewrite Ht in *.
    replace (4 * (n - 1) <=? 0) with true by (symmetry; apply Z.leb_le; lia).
    destruct arr as [|a [|a' arr']] eqn:Harr; cbn [length] in Hlarr; try lia.
    cbv beta iota zeta. rewrite <- Hlarr.
    change (at_index [a] (-1)) with (Some a).
    change (0 / 4) with 0. change (0 mod 4) with 0.
    change ([a] !! Z.to_nat 0) with (Some a).
    change ([a] !! Nat.min (S (Z.to_nat 0)) (1 - 1)) with (Some a).
    cbv beta iota.
    replace (4 * a + (a - a) * 0) with (4 * a + (a - a) * 4) by ring.
    assert (Ha : tiny_int a).
    { apply (sort_Z_tiny vs 0 a Htiny). fold arr. now rewrite Harr. }
    apply lerp_int; [|lia|exact Ha|exact Ha|lia].
    apply (b64_sub _ _ 0 (4 * (-1))); [exact Hvi|apply b64_ofZ; lia|rewrite H53; lia].
  - (* at least two values *)
    assert (Ht : 0 <= t < 4 * (n - 1)) by (unfold t; nia).
    replace (4 * (n - 1) <=? t) with false by (symmetry; apply Z.leb_gt; lia).
    replace (t <? 4 * 0) with false by (symmetry; apply Z.ltb_ge; lia).
    assert (Hi : 0 <= t / 4 <= n - 2).
    { split; [apply Z.div_pos; lia|].
      assert (t / 4 < n - 1) by (apply Z.div_lt_upper_bound; lia). lia. }
    set (i := t / 4) in *.
    assert (Hmod : t = 4 * i + t mod 4) by (apply Z.div_mod; lia).
    pose proof (Z.mod_pos_bound t 4 ltac:(lia)) as Hg.
    destruct (lookup_lt_is_Some_2 arr (Z.to_nat i)) as [a Ha]; [lia|].
    destruct (lookup_lt_is_Some_2 arr (Z.to_nat (i + 1))) as [b Hb]; [lia|].
    cbv beta iota zeta. unfold at_index.
    replace (i <? 0) with false by (symmetry; apply Z.ltb_ge; lia).
    replace (i + 1 <? 0) with false by (symmetry; apply Z.ltb_ge; lia).
    replace (Nat.min (S (Z.to_nat i)) (length vs - 1)) with (Z.to_nat (i + 1)) by lia.
    rewrite Ha, Hb.
    apply lerp_int.
    + replace (t mod 4) with (t - 4 * i) by lia.
      apply b64_sub; [exact Hvi|apply b64_ofZ; lia|rewrite H53; lia].
    + lia.
    + exact (sort_Z_tiny vs _ a Htiny Ha).
    + exact (sort_Z_tiny vs _ b Htiny Hb).
    + apply (sort_Z_lookup vs (Z.to_nat i) (Z.to_nat (i + 1))); [lia|exact Ha|exact Hb].
Qed.

(** The interpolated value lies between its two neighbours. *)
Lemma interpolated_spec (vs : list Z) (t : Z) :
  vs <> [] -> 0 <= t <= 3 * (Z.of_nat (length vs) - 1) ->
  exists a b,
    sort Z.leb vs !! Z.to_nat (t / 4) = Some a
    /\ sort Z.leb vs !! Nat.min (S (Z.to_nat (t / 4))) (length vs - 1) = Some b
    /\ interpolated (sort Z.leb vs) t = 4 * a + (b - a) * (t mod 4)
    /\ a <= b.
Proof.
  intros Hne Ht. unfold interpolated. rewrite sort_length.
  assert (Hn : (1 <= length vs)%nat) by (destruct vs; [congruence|cbn; lia]).
  assert (Hi : 0 <= t / 4 <= Z.of_nat (length vs) - 1).
  { split; [apply Z.div_pos; lia|].
    assert (t / 4 < Z.of_nat (length vs)) by (apply Z.div_lt_upper_bound; lia). lia. }
  destruct (lookup_lt_is_Some_2 (sort Z.leb vs) (Z.to_nat (t / 4))) as [a Ha];
    [rewrite sort_length; lia|].
  destruct (lookup_lt_is_Some_2 (sort Z.leb vs)
              (Nat.min (S (Z.to_nat (t / 4))) (length vs - 1))) as [b Hb];
    [rewrite sort_length; lia|].
  exists a, b. rewrite Ha, Hb. split; [reflexivity|]. split; [reflexivity|].
  split; [reflexivity|].
  apply (sort_Z_lookup vs (Z.to_nat (t / 4))
           (Nat.min (S (Z.to_nat (t / 4))) (length vs - 1))); [lia|exact Ha|exact Hb].
Qed.

Lemma interpolated_mono (vs : list Z) (t t' : Z) :
  vs <> [] -> 0 <= t <= t' -> t' <= 3 * (Z.of_nat (length vs) - 1) ->
  interpolated (sort Z.leb vs) t <= interpolated (sort Z.leb vs) t'.
Proof.
  intros Hne Ht Ht'.
  destruct (interpolated_spec vs t Hne ltac:(lia)) as (a & b & Ha & Hb & -> & Hab).
  destruct (interpolated_spec vs t' Hne ltac:(lia)) as (a' & b' & Ha' & Hb' & -> & Hab').
  pose proof (Z.mod_pos_bound t 4 ltac:(lia)) as Hg.
  pose proof (Z.mod_pos_bound t' 4 ltac:(lia)) as Hg'.
  pose proof (Z.div_mod t 4 ltac:(lia)) as Hd.
  pose proof (Z.div_mod t' 4 ltac:(lia)) as Hd'.
  assert (Hq : t / 4 <= t' / 4) by (apply Z.div_le_mono; lia).
  assert (H0 : 0 <= t / 4) by (apply Z.div_pos; lia).
  destruct (Z.eq_dec (t / 4) (t' / 4)) as [Heq|Hneq].
  - rewrite <- Heq in Ha', Hb'. assert (a' = a) by congruence.
    assert (b' = b) by congruence. subst a' b'. nia.
  - assert (Hba : b <= a').
    { apply (sort_Z_lookup vs (Nat.min (S (Z.to_nat (t / 4))) (length vs - 1))
               (Z.to_nat (t' / 4))); [lia|exact Hb|exact Ha']. }
    nia.
Qed.

Lemma interpolated_tiny (vs : list Z) (t : Z) :
  vs <> [] -> 0 <= t <= 3 * (Z.of_nat (length vs) - 1) -> List.Forall tiny_int vs ->
  - 2 ^ 51 <= interpolated (sort Z.leb vs) t <= 2 ^ 51.
Proof.
  intros Hne Ht Htiny.
  destruct (interpolated_spec vs t Hne Ht) as (a & b & Ha & Hb & -> & Hab).
  pose proof (sort_Z_tiny vs _ a Htiny Ha) as Ta.
  pose proof (sort_Z_tiny vs _ b Htiny Hb) as Tb.
  pose proof (Z.mod_pos_bound t 4 ltac:(lia)) as Hg.
  unfold tiny_int in *. change (2 ^ 49) with 562949953421312 in *.
  change (2 ^ 51) with 2251799813685248. nia.
Qed.

(** The quartiles of a column of small integers are in order, and their
    difference is a number. *)
Lemma int_quartiles_ordered (c : column float) (vs : list Z) :
  col_data c = IntCol vs -> vs <> [] ->
  List.Forall tiny_int vs -> Z.of_nat (length vs) <= 2 ^ 49 ->
  fle (Q1 c) (Q3 c) = true /\ fisnan (IQR c) = false.
Proof.
  intros Hdata Hne Htiny Hlen. unfold IQR, Q1, Q3, quantile. rewrite Hdata.
  destruct vs as [|v vs'] eqn:Hvs; [congruence|]. rewrite <- Hvs in *. clear Hvs.
  destruct b64_literals as (H25 & _ & H75).
  pose proof (percentile_int c0_25 1 vs H25 ltac:(lia) Hne Htiny Hlen) as P1.
  pose proof (percentile_int c0_75 3 vs H75 ltac:(lia) Hne Htiny Hlen) as P3.
  assert (Hn : 1 <= Z.of_nat (length vs)) by (destruct vs; [congruence|cbn [length]; lia]).
  set (n := Z.of_nat (length vs)) in *.
  pose proof (interpolated_mono vs ((n - 1) * 1) ((n - 1) * 3) Hne
                ltac:(lia) ltac:(unfold n; lia)) as Hmono.
  pose proof (interpolated_tiny vs ((n - 1) * 1) Hne ltac:(unfold n; lia) Htiny) as B1.
  pose proof (interpolated_tiny vs ((n - 1) * 3) Hne ltac:(unfold n; lia) Htiny) as B3.
  cbn [fle fsub fisnan binary64]. split.
  - rewrite (b64_leb _ _ _ _ P1 P3). apply Z.leb_le. exact Hmono.
  - apply (b64_quarters_number _ (interpolated (sort Z.leb vs) ((n - 1) * 3)
                                   - interpolated (sort Z.leb vs) ((n - 1) * 1))).
    apply b64_sub; [exact P3|exact P1|].
    change (2 ^ 51) with 2251799813685248 in *.
    change (2 ^ 53) with 9007199254740992. lia.
Qed.

(** ** Float columns that hold small integers *)

(** A valid number is determined by its magnitude. *)
Lemma canonical_unique (m1 m2 : positive) (e1 e2 : Z) :
  bounded prec emax m1 e1 = true -> bounded prec emax m2 e2 = true ->
  mag m1 e1 = mag m2 e2 -> m1 = m2 /\ e1 = e2.
Proof.
  intros H1 H2 Hm. pose proof (mag_compare m1 m2 e1 e2 H1 H2) as Hc.
  rewrite Hm, Z.compare_refl in Hc.
  destruct (Z.compare_spec e1 e2) as [->|Hlt|Hgt]; try discriminate.
  split; [|reflexivity]. now apply Pos.compare_eq.
Qed.

Lemma quarters_unique (x y : spec_float) (k : Z) :
  valid_binary x = true -> valid_binary y = true ->
  quarters x k -> quarters y k -> x = y.
Proof.
  intros Vx Vy Hx Hy. destruct k as [|p|p]; cbn [quarters] in Hx, Hy.
  - congruence.
  - destruct Hx as (m1 & e1 & -> & H1), Hy as (m2 & e2 & -> & H2).
    destruct (canonical_unique m1 m2 e1 e2 Vx Vy) as [-> ->]; [congruence|reflexivity].
  - destruct Hx as (m1 & e1 & -> & H1), Hy as (m2 & e2 & -> & H2).
    destruct (canonical_unique m1 m2 e1 e2 Vx Vy) as [-> ->]; [congruence|reflexivity].
Qed.

Lemma b64_quarters_unique (x y : float) (k : Z) :
  b64_quarters x k -> b64_quarters y k -> x = y.
Proof.
  intros Hx Hy. rewrite <- (SF2Prim_Prim2SF x), <- (SF2Prim_Prim2SF y). f_equal.
  apply (quarters_unique _ _ k); auto using Prim2SF_valid.
Qed.

(** Sorting the floats of small integers is sorting the integers. *)
Lemma insert_sorted_ofZ (x : Z) (l : list Z) :
  tiny_int x -> List.Forall tiny_int l ->
  insert_sorted (fle (F := float)) (B64.ofZ x) (map B64.ofZ l)
  = map B64.ofZ (insert_sorted Z.leb x l).
Proof.
  unfold tiny_int. intros Hx Hl. induction l as [|y l IH]; [reflexivity|].
  apply List.Forall_cons_iff in Hl as [Hy Hl]. cbn [map insert_sorted fle binary64].
  change (2 ^ 49) with 562949953421312 in *.
  assert (H51 : 2 ^ 51 = 2251799813685248) by reflexivity.
  rewrite (b64_leb _ _ (4 * x) (4 * y)) by (apply b64_ofZ; lia).
  replace (4 * x <=? 4 * y) with (x <=? y)
    by (destruct (Z.leb_spec x y), (Z.leb_spec (4 * x) (4 * y)); lia).
  destruct (x <=? y); [reflexivity|]. cbn [map]. f_equal. now apply IH.
Qed.

Lemma sort_ofZ (l : list Z) :
  List.Forall tiny_int l ->
  sort (fle (F := float)) (map B64.ofZ l) = map B64.ofZ (sort Z.leb l).
Proof.
  induction l as [|x l IH]; intros Hl; [reflexivity|].
  apply List.Forall_cons_iff in Hl as [Hx Hl]. cbn [map sort fold_right].
  fold (sort (fle (F := float)) (map B64.ofZ l)). fold (sort Z.leb l).
  rewrite (IH Hl). apply insert_sorted_ofZ; [exact Hx|].
  apply List.Forall_forall. intros z Hz. apply (proj1 (sort_In Z.leb z l)) in Hz.
  rewrite List.Forall_forall in Hl. now apply Hl.
Qed.

Lemma at_index_map {A B : Type} (f : A -> B) (l : list A) (i : Z) :
  at_index (map f l) i = f <$> at_index l i.
Proof. unfold at_index. rewrite length_map. destruct (i <? 0); apply list_lookup_fmap. Qed.

Lemma at_index_In {A : Type} (l : list A) (i : Z) (x : A) :
  at_index l i = Some x -> In x l.
Proof.
  unfold at_index. intros H. apply list_elem_of_In.
  destruct (i <? 0); apply list_elem_of_lookup; eauto.
Qed.

Lemma lerp_ofZ (a b : Z) (gamma : float) :
  tiny_int a -> tiny_int b ->
  lerp (F := float) (fun x => x) fsub (B64.ofZ a) (B64.ofZ b) gamma
  = lerp (F := float) fofZ (fun b a => fofZ (wrap64 (b - a))) a b gamma.
Proof.
  unfold tiny_int. intros Ha Hb. unfold lerp. cbn [fofZ fsub binary64].
  change (2 ^ 49) with 562949953421312 in *.
  assert (H51 : 2 ^ 51 = 2251799813685248) by reflexivity.
  assert (H53 : 2 ^ 53 = 9007199254740992) by reflexivity.
  assert (Hw : wrap64 (b - a) = b - a).
  { apply wrap64_small; unfold small_int;
      change (2 ^ 62) with 4611686018427387904; lia. }
  rewrite Hw.
  assert (Hd : (B64.ofZ b - B64.ofZ a)%float = B64.ofZ (b - a)).
  { apply (b64_quarters_unique _ _ (4 * (b - a))); [|apply b64_ofZ; lia].
    replace (4 * (b - a)) with (4 * b - 4 * a) by ring.
    apply b64_sub; [apply b64_ofZ; lia|apply b64_ofZ; lia|lia]. }
  now rewrite Hd.
Qed.

Lemma percentile_ofZ (q : float) (zs : list Z) :
  List.Forall tiny_int zs ->
  percentile (F := float) fle (fun x => x) fsub q (map B64.ofZ zs)
  = percentile (F := float) Z.leb fofZ (fun b a => fofZ (wrap64 (b - a))) q zs.
Proof.
  intros Htiny. unfold percentile. rewrite (sort_ofZ zs Htiny), length_map.
  assert (Hsorted : List.Forall tiny_int (sort Z.leb zs)).
  { apply List.Forall_forall. intros z Hz. apply (proj1 (sort_In Z.leb z zs)) in Hz.
    rewrite List.Forall_forall in Htiny. now apply Htiny. }
  set (arr := sort Z.leb zs) in *.
  destruct (if fle _ _ then _ else _) as [p nx].
  rewrite !at_index_map.
  destruct (at_index arr p) as [a|] eqn:Ea; [|reflexivity].
  destruct (at_index arr nx) as [b|] eqn:Eb; [|reflexivity].
  cbn [fmap option_fmap option_map]. rewrite List.Forall_forall in Hsorted.
  apply lerp_ofZ; apply Hsorted; eapply at_index_In; eassumption.
Qed.

Lemma float_values_ofZ (vs : list float) :
  List.Forall (fun x => fisnan x = true \/ exists z, tiny_int z /\ x = fofZ z) vs ->
  exists zs,
    float_values vs = map B64.ofZ zs /\ List.Forall tiny_int zs
    /\ (length zs <= length vs)%nat.
Proof.
  induction vs as [|x vs IH]; intros Hvs.
  - exists []. repeat split; constructor.
  - apply List.Forall_cons_iff in Hvs as [Hx Hvs].
    destruct (IH Hvs) as (zs & Hzs & Htiny & Hlen).
    unfold float_values in *. cbn [List.filter].
    destruct Hx as [Hnan|(z & Hz & ->)].
    + rewrite Hnan. cbn [negb]. exists zs. cbn [length]. repeat split; auto.
    + assert (Hn : fisnan (fofZ (F := float) z) = false).
      { apply (b64_quarters_number (B64.ofZ z) (4 * z)), b64_ofZ.
        unfold tiny_int in Hz. change (2 ^ 49) with 562949953421312 in Hz.
        change (2 ^ 51) with 2251799813685248. lia. }
      rewrite Hn. cbn [negb]. exists (z :: zs). cbn [map length]. rewrite Hzs.
      repeat split; [|lia]. now constructor.
Qed.

(** The quartiles of a numeric column of small integers are in order, and
    their difference is a number. *)
Lemma small_quartiles_ordered (c : column float) :
  small_integers (col_data c) -> dropna (col_cells c) <> [] ->
  Z.of_nat (length (col_cells c)) <= 2 ^ 49 ->
  fle (Q1 c) (Q3 c) = true /\ fisnan (IQR c) = false.
Proof.
  unfold col_cells. intros Hsmall Hne Hlen.
  destruct (col_data c) as [vs|vs| | |] eqn:Hdata; try contradiction.
  - rewrite dropna_int in Hne. cbn [cells] in Hlen. rewrite length_map in Hlen.
    apply (int_quartiles_ordered c vs Hdata); auto.
    intros ->. now apply Hne.
  - cbn [small_integers] in Hsmall.
    destruct (float_values_ofZ vs Hsmall) as (zs & Hzs & Htiny & Hle).
    rewrite dropna_float, Hzs in Hne. cbn [cells] in Hlen. rewrite length_map in Hlen.
    assert (Hzne : zs <> []) by (intros ->; now apply Hne).
    assert (Hq : forall q, quantile (FloatCol vs) q = quantile (IntCol zs) q).
    { intros q. unfold quantile. rewrite Hzs. clear Hzs Hle Hne.
      destruct zs as [|z zs']; [congruence|].
      exact (percentile_ofZ q (z :: zs') Htiny). }
    unfold IQR, Q1, Q3. rewrite Hdata, !Hq.
    apply (int_quartiles_ordered (Column (col_name c) (IntCol zs)) zs eq_refl); auto.
    lia.
Qed.

(** X10. On a column of integers of absolute value at most [2 ^ 49], in at
    most [2 ^ 49] rows, the quartiles are computed without any rounding:
    [Q1] and [Q3] are the linear interpolations of the sorted values at
    the indices [(n - 1) / 4] and [3 * (n - 1) / 4], and [IQR] is their
    difference. *)
Theorem quartiles_exact (c : column float) (vs : list Z) :
  col_data c = IntCol vs -> vs <> [] ->
  List.Forall tiny_int vs -> Z.of_nat (length vs) <= 2 ^ 49 ->
  b64_quarters (Q1 c) (interpolated (sort Z.leb vs) (Z.of_nat (length vs) - 1))
  /\ b64_quarters (Q3 c) (interpolated (sort Z.leb vs) (3 * (Z.of_nat (length vs) - 1)))
  /\ b64_quarters (IQR c)
       (interpolated (sort Z.leb vs) (3 * (Z.of_nat (length vs) - 1))
        - interpolated (sort Z.leb vs) (Z.of_nat (length vs) - 1)).
Proof.
  intros Hdata Hne Htiny Hlen. unfold IQR, Q1, Q3, quantile. rewrite Hdata.
  destruct vs as [|v vs'] eqn:Hvs; [congruence|]. rewrite <- Hvs in *. clear Hvs.
  destruct b64_literals as (H25 & _ & H75).
  pose proof (percentile_int c0_25 1 vs H25 ltac:(lia) Hne Htiny Hlen) as P1.
  pose proof (percentile_int c0_75 3 vs H75 ltac:(lia) Hne Htiny Hlen) as P3.
  assert (Hn : 1 <= Z.of_nat (length vs)) by (destruct vs; [congruence|cbn [length]; lia]).
  set (n := Z.of_nat (length vs)) in *.
  rewrite Z.mul_1_r in P1. rewrite (Z.mul_comm (n - 1) 3) in P3.
  pose proof (interpolated_tiny vs (n - 1) Hne ltac:(unfold n; lia) Htiny) as B1.
  pose proof (interpolated_tiny vs (3 * (n - 1)) Hne ltac:(unfold n; lia) Htiny) as B3.
  split; [exact P1|]. split; [exact P3|]. cbn [fsub binary64].
  apply b64_sub; [exact P3|exact P1|].
  change (2 ^ 51) with 2251799813685248 in *.
  change (2 ^ 53) with 9007199254740992. lia.
Qed.

Lemma quartiles_exact_witness :
  b64_quarters (Q1 (Column "x" (IntCol [1; 2; 3; 4; 5; 100]))) 9
  /\ b64_quarters (Q3 (Column "x" (IntCol [1; 2; 3; 4; 5; 100]))) 19
  /\ b64_quarters (IQR (Column "x" (IntCol [1; 2; 3; 4; 5; 100]))) 10.
Proof.
  apply (quartiles_exact (Column "x" (IntCol [1; 2; 3; 4; 5; 100]))
           [1; 2; 3; 4; 5; 100] eq_refl).
  - discriminate.
  - repeat constructor; unfold tiny_int; lia.
  - cbn. lia.
Defined.

(** ** The fences of the outlier check, on binary64 *)

Section Fences.
Context {F : Type} `{!Float64 F}.

(** Whatever the arithmetic, a numeric column has an entry exactly when it
    has a non-null value, and the entry holds the two fences. *)
Lemma outlier_entry_of_column (d : DataFrame F) (c : column F) :
  wf_frame d -> In c (df_columns d) -> is_number (col_data c) = true ->
  (dropna (col_cells c) <> [] ->
   exists r,
     numeric_outliers d !! col_name c = Some r
     /\ lower_bound r = fsub (Q1 c) (fmul c1_5 (IQR c))
     /\ upper_bound r = fadd (Q3 c) (fmul c1_5 (IQR c)))
  /\ (dropna (col_cells c) = [] -> numeric_outliers d !! col_name c = None).
Proof.
  intros Hwf Hin Hnum.
  assert (Hc : In c (select_dtypes is_number d)) by (apply filter_In; auto).
  pose proof (select_dtypes_NoDup is_number d Hwf) as Hnd.
  unfold numeric_outliers.
  rewrite (fill_dict_item col_name (outliers_of d) ∅ _ c Hnd Hc).
  unfold outliers_of. split.
  - intros Hne. destruct (dropna (col_cells c)) as [|x xs]; [now contradiction Hne|].
    eexists. split; [reflexivity|]. split; reflexivity.
  - intros ->. apply lookup_empty.
Qed.

End Fences.

(** C1, amended. On binary64, in every dataset, every numeric column with
    at least one non-null value has an entry in the outlier result, whose
    bounds are [lower_bound = Q1 - 1.5 * IQR] and
    [upper_bound = Q3 + 1.5 * IQR] with [IQR = Q3 - Q1]; the order
    [lower_bound <= Q1 <= Q3 <= upper_bound] holds exactly when
    [Q1 <= Q3] and [IQR] is a number, and so it does whenever the non-null
    values of the column are integers of absolute value at most [2 ^ 49]
    and the dataset has at most [2 ^ 49] rows; and a numeric column
    without a non-null value has no entry. *)
Theorem outlier_fences (d : DataFrame float) (c : column float) :
  wf_frame d -> In c (df_columns d) -> is_number (col_data c) = true ->
  (dropna (col_cells c) <> [] ->
   exists r,
     numeric_outliers d !! col_name c = Some r
     /\ IQR c = fsub (Q3 c) (Q1 c)
     /\ lower_bound r = fsub (Q1 c) (fmul c1_5 (IQR c))
     /\ upper_bound r = fadd (Q3 c) (fmul c1_5 (IQR c))
     /\ ((fle (lower_bound r) (Q1 c) = true
          /\ fle (Q1 c) (Q3 c) = true
          /\ fle (Q3 c) (upper_bound r) = true)
         <-> (fle (Q1 c) (Q3 c) = true /\ fisnan (IQR c) = false))
     /\ (small_integers (col_data c) -> Z.of_nat (df_len d) <= 2 ^ 49 ->
         fle (lower_bound r) (Q1 c) = true
         /\ fle (Q1 c) (Q3 c) = true
         /\ fle (Q3 c) (upper_bound r) = true))
  /\ (dropna (col_cells c) = [] -> numeric_outliers d !! col_name c = None).
Proof.
  intros Hwf Hin Hnum.
  destruct (outlier_entry_of_column d c Hwf Hin Hnum) as [Hsome Hnone].
  split; [|exact Hnone]. intros Hne.
  destruct (Hsome Hne) as (r & Hr & Hlo & Hup). exists r.
  split; [exact Hr|]. split; [reflexivity|]. split; [exact Hlo|].
  split; [exact Hup|]. rewrite Hlo, Hup.
  assert (Hiff := b64_fences_enclose (Q1 c) (Q3 c)).
  split; [exact Hiff|]. intros Hsmall Hrows. apply Hiff.
  apply small_quartiles_ordered; [exact Hsmall|exact Hne|].
  destruct Hwf as (Hcols & _). rewrite Forall_forall in Hcols.
  rewrite (Hcols c) by (now apply list_elem_of_In). exact Hrows.
Qed.

Lemma scenario_B_gaps_wf : wf_frame scenario_B_gaps.
Proof.
  split; [repeat constructor|]. split; [|discriminate].
  cbn. apply (bool_decide_unpack _). vm_compute. reflexivity.
Qed.

Lemma outlier_fences_witness :
  (exists r,
     numeric_outliers scenario_B_gaps !! "x" = Some r
     /\ fle (lower_bound r) 2.25%float = true
     /\ fle 2.25%float 4.75%float = true
     /\ fle 4.75%float (upper_bound r) = true)
  /\ (exists r,
        numeric_outliers scenario_B_gaps !! "y" = Some r
        /\ fle (lower_bound r) (Q1 gaps) = true
        /\ fle (Q1 gaps) (Q3 gaps) = true
        /\ fle (Q3 gaps) (upper_bound r) = true)
  /\ numeric_outliers scenario_B_gaps !! "z" = None.
Proof.
  split; [|split].
  - destruct (outlier_fences scenario_B_gaps (Column "x" (IntCol [1; 2; 3; 4; 5; 100]))
                scenario_B_gaps_wf (or_introl eq_refl) eq_refl) as [Hsome _].
    destruct Hsome as (r & Hr & _ & _ & _ & _ & Hint); [discriminate|].
    exists r. split; [exact Hr|]. apply Hint.
    + repeat constructor; unfold tiny_int; lia.
    + cbn. lia.
  - destruct (outlier_fences scenario_B_gaps gaps scenario_B_gaps_wf
                (or_intror (or_introl eq_refl)) eq_refl) as [Hsome _].
    destruct Hsome as (r & Hr & _ & _ & _ & Hord & _); [discriminate|].
    exists r. split; [exact Hr|]. apply Hord. split; reflexivity.
  - apply (outlier_fences scenario_B_gaps blanks scenario_B_gaps_wf
             (or_intror (or_intror (or_introl eq_refl))) eq_refl).
    reflexivity.
Defined.

(** * Further properties of the checker *)

(** ** Data types *)

Section DataTypes.
Context {F : Type} `{!Float64 F}.

Lemma selected_names_sublist (p : coldata F -> bool) (d : DataFrame F) :
  sublist (map col_name (select_dtypes p d)) (map col_name (df_columns d)).
Proof.
  unfold select_dtypes. induction (df_columns d) as [|c cols IH]; [constructor|].
  cbn [List.filter map]. destruct (p (col_data c)); cbn [map].
  - now apply sublist_skip.
  - now apply sublist_cons.
Qed.

Lemma selected_name (p : coldata F -> bool) (d : DataFrame F) (c : column F) :
  wf_frame d -> In c (df_columns d) ->
  In (col_name c) (map col_name (select_dtypes p d)) <-> p (col_data c) = true.
Proof.
  intros (_ & Hnd & _) Hc. unfold select_dtypes. rewrite in_map_iff. split.
  - intros (c' & Hname & Hin). apply filter_In in Hin as [Hin Hp].
    assert (c' = c) as <-; [|exact Hp].
    clear Hp. induction (df_columns d) as [|x l IH]; [destruct Hc|].
    cbn [map] in Hnd. apply NoDup_cons in Hnd as [Hx Hnd].
    rewrite list_elem_of_In in Hx.
    destruct Hc as [->|Hc], Hin as [->|Hin]; try reflexivity.
    + exfalso. apply Hx. rewrite <- Hname. now apply in_map.
    + exfalso. apply Hx. rewrite Hname. now apply in_map.
    + now apply IH.
  - intros Hp. exists c. split; [reflexivity|]. apply filter_In. now split.
Qed.


End DataTypes.


(** ** Outliers, on binary64 *)

Lemma b64_nan_not_lt (x y : float) :
  PrimFloat.is_nan x = true -> PrimFloat.ltb x y = false /\ PrimFloat.ltb y x = false.
Proof.
  intros Hx. rewrite !ltb_spec. unfold Prim2SF at 1 4. rewrite Hx.
  split; [reflexivity|]. unfold SFltb, SFcompare. now destruct (Prim2SF y).
Qed.

Lemma b64_outside_not_nan (v lo hi : float) :
  flt v lo || flt hi v = true -> negb (fisnan v) = true.
Proof.
  intros Hv. destruct (fisnan v) eqn:Hnan; [|reflexivity].
  destruct (b64_nan_not_lt v lo Hnan) as [H1 _].
  destruct (b64_nan_not_lt v hi Hnan) as [_ H2].
  cbn [flt binary64] in Hv. rewrite H1, H2 in Hv. discriminate Hv.
Qed.

Lemma filter_length_mono {A : Type} (p q : A -> bool) (l : list A) :
  (forall x, p x = true -> q x = true) ->
  (length (List.filter p l) <= length (List.filter q l))%nat.
Proof.
  intros Hpq. induction l as [|x l IH]; [reflexivity|]. cbn [List.filter].
  destruct (p x) eqn:Hp.
  - rewrite (Hpq x Hp). cbn [length]. lia.
  - destruct (q x); cbn [length]; lia.
Qed.

(** X2. Every entry of the outlier result is the entry of a numeric column
    with at least one non-null value, and missing values are never counted
    as outliers: the count is at most the number of non-null entries of
    the column. *)
Theorem outliers_entries (d : DataFrame float) (name : string) (r : outlier_info float) :
  numeric_outliers d !! name = Some r ->
  exists c,
    In c (df_columns d) /\ col_name c = name
    /\ is_number (col_data c) = true
    /\ dropna (col_cells c) <> []
    /\ (outlier_count r <= length (dropna (col_cells c)))%nat
    /\ outlier_percentage r = percent (outlier_count r) (df_len d).
Proof.
  intros Hr. unfold numeric_outliers in Hr.
  apply fill_dict_origin in Hr as [(c & Hc & Hname & Hout)|Hr];
    [|now rewrite lookup_empty in Hr].
  apply filter_In in Hc as [Hc Hnum]. exists c.
  split; [exact Hc|]. split; [exact Hname|]. split; [exact Hnum|].
  unfold outliers_of in Hout.
  destruct (dropna (col_cells c)) as [|x xs] eqn:Hdrop; [discriminate|].
  injection Hout as <-. cbn [outlier_count outlier_percentage].
  split; [discriminate|]. split; [|reflexivity].
  rewrite <- Hdrop, sum_bools_filter. unfold col_cells.
  destruct (col_data c) as [vs|vs| | |]; try discriminate; cbn [as_floats].
  - rewrite dropna_int, length_map.
    etransitivity; [apply filter_length_le|]. now rewrite length_map.
  - rewrite dropna_float, length_map. unfold float_values.
    apply filter_length_mono. intros v Hv. now apply b64_outside_not_nan in Hv.
Qed.

Lemma outliers_entries_witness :
  exists c,
    In c (df_columns scenario_B) /\ col_name c = "x"
    /\ is_number (col_data c) = true
    /\ dropna (col_cells c) <> []
    /\ (1 <= length (dropna (col_cells c)))%nat
    /\ percent (F := float) 1 6 = percent 1 (df_len scenario_B).
Proof.
  exact (outliers_entries scenario_B "x"
           (OutlierInfo 1%nat (percent 1 6) (-1.5)%float 8.5%float) scenario_B_run).
Defined.

(** ** Paths *)

Lemma append_cons (c : ascii) (a b : string) : String c a +:+ b = String c (a +:+ b).
Proof. reflexivity. Qed.

Lemma append_nil_r (a : string) : a +:+ EmptyString = a.
Proof. induction a as [|c a IH]; [reflexivity|]. now rewrite append_cons, IH. Qed.

Lemma append_assoc (a b c : string) : (a +:+ b) +:+ c = a +:+ (b +:+ c).
Proof. induction a as [|x a IH]; [reflexivity|]. now rewrite !append_cons, IH. Qed.

Lemma substring_whole (s : string) : substring 0 (String.length s) s = s.
Proof. induction s as [|c s IH]; [reflexivity|]. cbn. now rewrite IH. Qed.

Lemma substring_skip (pre s : string) (m : nat) :
  substring (String.length pre) m (pre +:+ s) = substring 0 m s.
Proof. induction pre as [|c pre IH]; [reflexivity|]. rewrite append_cons. cbn. exact IH. Qed.

Lemma length_app_string (a b : string) :
  String.length (a +:+ b) = (String.length a + String.length b)%nat.
Proof. induction a as [|c a IH]; [reflexivity|]. rewrite append_cons. cbn. now rewrite IH. Qed.

Lemma substring_split (s : string) (k : nat) :
  (k <= String.length s)%nat ->
  s = substring 0 k s +:+ substring k (String.length s - k) s.
Proof.
  revert k. induction s as [|c s IH]; intros k Hk.
  - destruct k; [reflexivity | cbn in Hk; lia].
  - destruct k as [|k].
    + cbn [substring String.length Nat.sub]. now rewrite substring_whole.
    + cbn [substring String.length Nat.sub]. rewrite append_cons. f_equal.
      apply IH. cbn in Hk. lia.
Qed.

(** [endswith] holds exactly of the strings that end with the suffix. *)
Lemma endswith_spec (s suffix : string) :
  endswith s suffix = true <-> exists pre, s = pre +:+ suffix.
Proof.
  unfold endswith. split.
  - intros H. apply andb_true_iff in H as [Hlen Heq].
    apply Nat.leb_le in Hlen. apply String.eqb_eq in Heq.
    exists (substring 0 (String.length s - String.length suffix) s).
    pose proof (substring_split s (String.length s - String.length suffix)) as H.
    replace (String.length s - (String.length s - String.length suffix))%nat
      with (String.length suffix) in H by lia.
    rewrite Heq in H. apply H. lia.
  - intros [pre ->]. rewrite length_app_string. apply andb_true_iff. split.
    + apply Nat.leb_le. lia.
    + replace (String.length pre + String.length suffix - String.length suffix)%nat
        with (String.length pre) by lia.
      rewrite substring_skip, substring_whole. apply String.eqb_refl.
Qed.

Lemma last_char_app (pre s : string) :
  s <> EmptyString -> last_char (pre +:+ s) = last_char s.
Proof.
  intros Hs. induction pre as [|c pre IH]; [reflexivity|].
  rewrite append_cons. cbn [last_char]. rewrite <- IH.
  destruct (pre +:+ s) eqn:E; [|reflexivity].
  destruct pre; [change (s = EmptyString) in E; congruence | discriminate E].
Qed.

(** Two suffixes with different last characters exclude each other. *)
Lemma endswith_other (pre s1 s2 : string) :
  s1 <> EmptyString -> s2 <> EmptyString -> last_char s1 <> last_char s2 ->
  endswith (pre +:+ s1) s2 = false.
Proof.
  intros H1 H2 Hne. apply not_true_is_false. intros H.
  apply endswith_spec in H as [pre' E]. apply Hne.
  rewrite <- (last_char_app pre s1 H1), E. now apply last_char_app.
Qed.

Lemma last_component_from_no_slash (acc s : string) :
  no_slash s = true -> last_component_from acc s = acc +:+ s.
Proof.
  revert acc. induction s as [|c s IH]; intros acc Hs; cbn [last_component_from].
  - now rewrite append_nil_r.
  - cbn [no_slash] in Hs. apply andb_true_iff in Hs as [Hc Hs].
    apply negb_true_iff in Hc. rewrite Hc, IH by exact Hs.
    now rewrite append_assoc.
Qed.

Lemma last_component_from_slash (acc dir base : string) :
  no_slash base = true ->
  last_component_from acc (dir +:+ String "/" base) = base.
Proof.
  intros Hb. revert acc. induction dir as [|c dir IH]; intros acc.
  - change (EmptyString +:+ String "/" base) with (String "/" base).
    cbn [last_component_from]. rewrite Ascii.eqb_refl.
    now apply (last_component_from_no_slash EmptyString).
  - rewrite append_cons. cbn [last_component_from].
    destruct (Ascii.eqb c "/"); apply IH.
Qed.

(** [split("/")[-1]]: what follows the last slash of a path, and the whole
    path when it has none. *)
Lemma last_component_spec (dir base : string) :
  no_slash base = true ->
  last_component base = base /\ last_component (dir +:+ String "/" base) = base.
Proof.
  intros Hb. split.
  - now apply (last_component_from_no_slash EmptyString).
  - now apply last_component_from_slash.
Qed.

(** ** Loading from a file *)

Section Loading.
Context {F : Type} `{!Float64 F}.
Variable rt : runtime F.

(** The reader is chosen by the suffix of the path. *)
Lemma read_file_dispatch (pre : string) :
  read_file rt (pre +:+ ".csv") = read_csv rt (pre +:+ ".csv")
  /\ read_file rt (pre +:+ ".xlsx") = read_excel rt (pre +:+ ".xlsx")
  /\ read_file rt (pre +:+ ".parquet") = read_parquet rt (pre +:+ ".parquet").
Proof.
  unfold read_file. repeat split.
  - replace (endswith (pre +:+ ".csv") ".csv") with true; [reflexivity|].
    symmetry. apply endswith_spec. now exists pre.
  - rewrite (endswith_other pre ".xlsx" ".csv") by (cbn; congruence).
    replace (endswith (pre +:+ ".xlsx") ".xlsx") with true; [reflexivity|].
    symmetry. apply endswith_spec. now exists pre.
  - rewrite (endswith_other pre ".parquet" ".csv") by (cbn; congruence).
    rewrite (endswith_other pre ".parquet" ".xlsx") by (cbn; congruence).
    replace (endswith (pre +:+ ".parquet") ".parquet") with true; [reflexivity|].
    symmetry. apply endswith_spec. now exists pre.
Qed.

(** X3. An object without a frame, whose path is [base] or [dir/base]
    with [base] ending in [.csv], [.xlsx] or [.parquet], and whose reader
    for that suffix yields a frame: [load_data] answers [True], stores the
    frame, and writes [basic_info] with [base] as the file name, the
    numbers of rows and columns of the frame and the time of the call;
    nothing else of the report changes. *)
Theorem load_data_from_file (self : checker F) (dir stem ext path : string)
    (d : DataFrame F) :
  self_df self = None ->
  self_file_path self = Some path ->
  no_slash (stem +:+ ext) = true ->
  path = stem +:+ ext \/ path = dir +:+ String "/" (stem +:+ ext) ->
  (ext = ".csv" /\ read_csv rt path = inr d)
  \/ (ext = ".xlsx" /\ read_excel rt path = inr d)
  \/ (ext = ".parquet" /\ read_parquet rt path = inr d) ->
  exists self',
    load_data rt self = (Returned true, self')
    /\ self_df self' = Some d
    /\ self_quality_report self'
       = <["basic_info" := RBasicInfo {| file_name := stem +:+ ext;
                                         total_rows := df_len d;
                                         total_columns := length (df_columns d);
                                         load_timestamp := now rt |}]>
           (self_quality_report self)
    /\ logged self' = logged self ++ [LogInfo "Data loaded successfully from file."].
Proof.
  intros Hdf Hpath Hbase Hshape Hread.
  assert (Hname : last_component path = stem +:+ ext).
  { destruct (last_component_spec dir (stem +:+ ext) Hbase) as [H1 H2].
    now destruct Hshape as [-> | ->]. }
  assert (Hpre : exists pre, path = pre +:+ ext).
  { destruct Hshape as [-> | ->]; [now exists stem|].
    exists (dir +:+ String "/" stem).
    now rewrite append_assoc, append_cons. }
  destruct Hpre as [pre Hpre].
  assert (Hfile : read_file rt path = inr d).
  { destruct (read_file_dispatch pre) as (Hc & Hx & Hp).
    destruct Hread as [[-> <-]|[[-> <-]|[-> <-]]]; subst path; assumption. }
  assert (Htruthy : truthy (Some path) = true).
  { rewrite Hpre. destruct Hread as [[-> _]|[[-> _]|[-> _]]];
      destruct pre; reflexivity. }
  unfold load_data. rewrite Hdf, Hpath, Htruthy.
  change (default EmptyString (Some path)) with path. cbn [negb].
  rewrite Hfile. unfold basic_info_of. rewrite Hname.
  eexists. split; [reflexivity|]. cbn. auto.
Qed.

End Loading.

Lemma load_data_from_file_witness :
  exists self',
    load_data (Runtime (fun _ => inr scenario_A) (read_excel no_files)
                 (read_parquet no_files) (now no_files) (float_str no_files)
                 (datetime_str no_files) (str_isdigit no_files))
      (init (Some "data/people.csv") None (Some "custom name"))
    = (Returned true, self')
    /\ self_df self' = Some scenario_A
    /\ self_quality_report self'
       = <["basic_info" := RBasicInfo (BasicInfo "people.csv" 4 2 "2024-01-01 00:00:00")]> ∅.
Proof.
  destruct (load_data_from_file
              (Runtime (fun _ => inr scenario_A) (read_excel no_files)
                 (read_parquet no_files) (now no_files) (float_str no_files)
                 (datetime_str no_files) (str_isdigit no_files))
              (init (Some "data/people.csv") None (Some "custom name"))
              "data" "people" ".csv" "data/people.csv" scenario_A
              eq_refl eq_refl eq_refl (or_intror eq_refl)
              (or_introl (conj eq_refl eq_refl)))
    as (self' & Hload & Hdf & Hrep & _).
  exists self'. split; [exact Hload|]. split; [exact Hdf|exact Hrep].
Defined.

(** ** The constructor *)

Section Init.
Context {F : Type} `{!Float64 F}.

(** X7. [__init__] keeps the path and the frame and starts with an empty
    report.  The name of the object is the given name when it is not
    empty; otherwise what follows the last slash of the path when the path
    is not empty (nothing, for a path that ends with a slash); otherwise
    the word DataFrame. *)
Theorem init_file_name (file_path : option string) (df : option (DataFrame F))
    (fname : option string) :
  self_file_path (init file_path df fname) = file_path
  /\ self_df (init file_path df fname) = df
  /\ self_quality_report (init file_path df fname) = ∅
  /\ (truthy fname = true -> Some (self_file_name (init file_path df fname)) = fname)
  /\ (truthy fname = false -> truthy file_path = false ->
      self_file_name (init file_path df fname) = "DataFrame")
  /\ (truthy fname = false ->
      forall dir base, no_slash base = true ->
        (file_path = Some base /\ base <> EmptyString)
        \/ file_path = Some (dir +:+ String "/" base) ->
        self_file_name (init file_path df fname) = base).
Proof.
  unfold init. cbn [self_file_path self_df self_quality_report self_file_name].
  split; [reflexivity|]. split; [reflexivity|]. split; [reflexivity|].
  split; [|split].
  - destruct fname as [[|a s]|]; cbn; intros; congruence.
  - intros Hn Hp. rewrite Hp. now destruct fname as [[|a s]|].
  - intros Hn dir base Hbase Hpath.
    destruct (last_component_spec dir base Hbase) as [H1 H2].
    assert (Hname : (if truthy file_path
                     then last_component (default EmptyString file_path)
                     else "DataFrame") = base).
    { destruct Hpath as [[-> Hne]| ->].
      - destruct base; [congruence|]. cbn [truthy]. exact H1.
      - change (default EmptyString (Some (dir +:+ String "/" base)))
          with (dir +:+ String "/" base).
        rewrite H2. destruct dir; reflexivity. }
    destruct fname as [[|a s]|]; try discriminate; exact Hname.
Qed.

End Init.

Lemma init_file_name_witness :
  self_file_name (init (F := float) (Some "data/people.csv") None (Some "")) = "people.csv"
  /\ self_file_name (init (F := float) (Some "data/") None None) = ""
  /\ self_file_name (init (F := float) (Some "") None None) = "DataFrame".
Proof.
  split; [|split].
  - destruct (init_file_name (F := float) (Some "data/people.csv") None (Some ""))
      as (_ & _ & _ & _ & _ & H).
    apply (H eq_refl "data" "people.csv" eq_refl). right. reflexivity.
  - destruct (init_file_name (F := float) (Some "data/") None None)
      as (_ & _ & _ & _ & _ & H).
    apply (H eq_refl "data" "" eq_refl). right. reflexivity.
  - destruct (init_file_name (F := float) (Some "") None None)
      as (_ & _ & _ & _ & H & _).
    apply H; reflexivity.
Defined.

(** ** The outcomes of a run on a given frame *)

Section Outcomes.
Context {F : Type} `{!Float64 F}.
Variable rt : runtime F.

Lemma cardinality_loop_rows (d : DataFrame F) cols acc :
  df_len d <> 0%nat -> exists m, cardinality_loop d cols acc = inr m.
Proof.
  intros Hlen. revert acc. induction cols as [|c cols IH]; intros acc.
  - cbn. eauto.
  - cbn [cardinality_loop]. unfold cardinality_of.
    destruct (df_len d =? 0)%nat eqn:E; [apply Nat.eqb_eq in E; contradiction|].
    apply IH.
Qed.

(** [check_cardinality] raises exactly on a frame without rows that has a
    text column. *)
Lemma cardinality_outcome (d : DataFrame F) :
  (df_len d = 0%nat -> select_dtypes is_object d <> [] ->
   cardinality d = inl (ZeroDivisionError "division by zero"))
  /\ (df_len d <> 0%nat \/ select_dtypes is_object d = [] ->
      exists m, cardinality d = inr m).
Proof.
  unfold cardinality. split.
  - intros Hlen Hobj. destruct (select_dtypes is_object d) as [|c cols]; [congruence|].
    cbn [cardinality_loop]. unfold cardinality_of. now rewrite Hlen.
  - intros [Hlen | ->]; [now apply cardinality_loop_rows | cbn; eauto].
Qed.

Ltac run_checks :=
  unfold run_all_checks, load_data, check_missing_values, check_data_types,
    check_duplicates, check_numeric_outliers, check_cardinality,
    generate_summary_statistics, inspect_column_samples, bind, the_df, set_report,
    logging, lift, raise, ret; cbn.

(** The run on a frame without rows that has a text column, up to the
    exception. *)
Lemma checks_aborted_by_cardinality (self : checker F) (d : DataFrame F) :
  self_df self = Some d ->
  df_len d = 0%nat -> select_dtypes is_object d <> [] ->
  exists self',
    run_all_checks rt self = (Raised (ZeroDivisionError "division by zero"), self')
    /\ self_df self' = Some d
    /\ self_quality_report self'
       = report_before_cardinality rt (self_file_name self) d (self_quality_report self).
Proof.
  intros Hdf Hlen Hobj. destruct (cardinality_outcome d) as [Hc _].
  specialize (Hc Hlen Hobj). destruct self as [fp df fn qr lg pr]. cbn in Hdf. subst df.
  run_checks. rewrite Hc. cbn. unfold report_before_cardinality.
  eexists. split; [reflexivity|]. split; reflexivity.
Qed.

(** X4. A run on a frame without rows that has a text column is aborted by
    the [ZeroDivisionError] of [check_cardinality]; the object keeps the
    frame and the entries written before the exception, [basic_info] to
    [outliers], and the entries of the later checks are what they were
    before the run. *)
Theorem run_all_checks_no_rows (self : checker F) (d : DataFrame F) :
  self_df self = Some d ->
  df_len d = 0%nat -> select_dtypes is_object d <> [] ->
  exists self',
    run_all_checks rt self = (Raised (ZeroDivisionError "division by zero"), self')
    /\ self_df self' = Some d
    /\ self_quality_report self'
       = report_before_cardinality rt (self_file_name self) d (self_quality_report self)
    /\ Forall (fun key => self_quality_report self' !! key = self_quality_report self !! key)
         ["cardinality"; "summary_statistics"; "sample_inspection"].
Proof.
  intros Hdf Hlen Hobj.
  destruct (checks_aborted_by_cardinality self d Hdf Hlen Hobj) as (s & Hrun & Hd & Hrep).
  exists s. split; [exact Hrun|]. split; [exact Hd|]. split; [exact Hrep|].
  rewrite Hrep. unfold report_before_cardinality.
  repeat (apply Forall_cons; split;
          [now rewrite !lookup_insert_ne by discriminate|]).
  by apply Forall_nil.
Qed.

(** X5. A run on a frame without numeric column, when the cardinality
    check passes, is aborted by the [ValueError] of [describe]; the object
    keeps the entries up to [cardinality], and has neither
    [summary_statistics] nor [sample_inspection] from this run. *)
Theorem run_all_checks_no_numeric (self : checker F) (d : DataFrame F) :
  self_df self = Some d ->
  df_len d <> 0%nat \/ select_dtypes is_object d = [] ->
  select_dtypes is_number d = [] ->
  exists c self',
    cardinality d = inr c
    /\ run_all_checks rt self
       = (Raised (ValueError "Cannot describe a DataFrame without columns"), self')
    /\ self_quality_report self'
       = <["cardinality" := RCardinality c]>
           (report_before_cardinality rt (self_file_name self) d
              (self_quality_report self)).
Proof.
  intros Hdf Hcard Hnum. destruct (cardinality_outcome d) as [_ Hc].
  destruct (Hc Hcard) as [c Ec]. exists c.
  destruct self as [fp df fn qr lg pr]. cbn in Hdf. subst df.
  run_checks. rewrite Ec. cbn. unfold summary_statistics. rewrite Hnum. cbn.
  unfold report_before_cardinality.
  eexists. split; [reflexivity|]. split; reflexivity.
Qed.

(** X6. A run on a frame with a numeric column, when the cardinality check
    passes, returns the report of the object: the entries of the eight
    checks on that frame, over what the report held before; the summary
    tables are keyed by the numeric columns, and the frame is kept. *)
Theorem run_all_checks_success (self : checker F) (d : DataFrame F) :
  self_df self = Some d ->
  df_len d <> 0%nat \/ select_dtypes is_object d = [] ->
  select_dtypes is_number d <> [] ->
  exists c rep self',
    cardinality d = inr c
    /\ run_all_checks rt self = (Returned (Some rep), self')
    /\ self_quality_report self' = rep
    /\ self_df self' = Some d
    /\ rep = full_report rt (self_file_name self) d c
               (SummaryInfo (map col_name (select_dtypes is_number d))
                            (map col_name (select_dtypes is_number d))
                            (map col_name (select_dtypes is_number d)))
               (self_quality_report self).
Proof.
  intros Hdf Hcard Hnum. destruct (cardinality_outcome d) as [_ Hc].
  destruct (Hc Hcard) as [c Ec]. exists c.
  destruct self as [fp df fn qr lg pr]. cbn in Hdf. subst df.
  run_checks. rewrite Ec. cbn. unfold summary_statistics.
  destruct (select_dtypes is_number d) as [|x xs] eqn:E; [congruence|].
  cbn. unfold full_report, report_before_cardinality.
  eexists _, _. split; [reflexivity|]. split; [reflexivity|].
  split; [reflexivity|]. split; reflexivity.
Qed.

End Outcomes.

Lemma run_all_checks_no_rows_witness :
  exists self',
    run_all_checks no_files (init None (Some scenario_D) None)
    = (Raised (ZeroDivisionError "division by zero"), self')
    /\ self_quality_report self' !! "outliers" = Some (ROutliers ∅)
    /\ self_quality_report self' !! "cardinality" = None.
Proof.
  assert (Hobj : select_dtypes is_object scenario_D <> []) by discriminate.
  destruct (run_all_checks_no_rows no_files (init None (Some scenario_D) None)
              scenario_D eq_refl eq_refl Hobj) as (s & Hs & _ & Hrep & _).
  exists s. split; [exact Hs|]. rewrite Hrep. unfold report_before_cardinality.
  split; [now rewrite lookup_insert_eq|].
  now rewrite !lookup_insert_ne by discriminate.
Defined.

Lemma run_all_checks_no_numeric_witness :
  exists self',
    run_all_checks no_files (init None (Some scenario_C) None)
    = (Raised (ValueError "Cannot describe a DataFrame without columns"), self')
    /\ is_Some (self_quality_report self' !! "cardinality")
    /\ self_quality_report self' !! "summary_statistics" = None.
Proof.
  assert (Hlen : df_len scenario_C <> 0%nat) by discriminate.
  destruct (run_all_checks_no_numeric no_files (init None (Some scenario_C) None)
              scenario_C eq_refl (or_introl Hlen) eq_refl) as (c & s & _ & Hs & Hrep).
  exists s. split; [exact Hs|]. rewrite Hrep. unfold report_before_cardinality.
  split; [rewrite lookup_insert_eq; by eexists|].
  now rewrite !lookup_insert_ne by discriminate.
Defined.

Lemma run_all_checks_success_witness :
  exists rep self',
    run_all_checks no_files (init None (Some scenario_A) (Some "people.csv"))
    = (Returned (Some rep), self')
    /\ self_df self' = Some scenario_A
    /\ rep !! "summary_statistics"
       = Some (RSummaryStatistics (SummaryInfo ["age"] ["age"] ["age"])).
Proof.
  assert (Hlen : df_len scenario_A <> 0%nat) by discriminate.
  assert (Hnum : select_dtypes is_number scenario_A <> []) by discriminate.
  destruct (run_all_checks_success no_files
              (init None (Some scenario_A) (Some "people.csv")) scenario_A
              eq_refl (or_introl Hlen) Hnum) as (c & rep & s & _ & Hs & _ & Hdf & Hrep).
  exists rep, s. split; [exact Hs|]. split; [exact Hdf|]. rewrite Hrep.
  unfold full_report. rewrite lookup_insert_ne by discriminate.
  now rewrite lookup_insert_eq.
Defined.

(** ** The text report *)

Section TextReportFacts.
Context {F : Type} `{!Float64 F}.
Variable rt : runtime F.

(** X8. [generate_text_report] on an object whose report is empty and
    whose data cannot be loaded does not return: the run answers [None]
    silently, and the first subscript raises [KeyError] for
    [basic_info]. *)
Theorem text_report_not_loaded (self self' : checker F) :
  self_quality_report self = ∅ ->
  load_data rt self = (Returned false, self') ->
  generate_text_report_head rt self = (KeyError "basic_info", self').
Proof.
  intros Hrep Hload. unfold generate_text_report_head.
  rewrite Hrep, map_size_empty. cbn [Nat.eqb].
  rewrite (run_all_checks_not_loaded rt self self' Hload).
  destruct (load_data_false rt self self' Hload) as [Hr _].
  unfold report_entries. now rewrite Hr, Hrep, lookup_empty.
Qed.

(** X9. After a run that [check_cardinality] aborted, the report is not
    empty any more: the next [generate_text_report] does not run the
    checks again, finds the three entries it reads by subscript, and has
    no column samples to list. *)
Theorem text_report_after_abort (self : checker F) (d : DataFrame F) :
  self_df self = Some d -> self_quality_report self = ∅ ->
  df_len d = 0%nat -> select_dtypes is_object d <> [] ->
  exists self',
    generate_text_report_head rt self
    = (RunRaised (ZeroDivisionError "division by zero"), self')
    /\ generate_text_report_head rt self'
       = (Head (basic_info_of rt (self_file_name self) d)
               (RMissingValues (missing_values d))
               (RDuplicates (duplicates d)) None, self').
Proof.
  intros Hdf Hrep Hlen Hobj.
  destruct (checks_aborted_by_cardinality rt self d Hdf Hlen Hobj)
    as (s1 & Hrun & _ & Hs1).
  exists s1. unfold generate_text_report_head.
  rewrite Hrep, map_size_empty. cbn [Nat.eqb]. rewrite Hrun.
  split; [reflexivity|]. rewrite Hs1, Hrep. unfold report_before_cardinality.
  assert (Hsize : forall k v (m : gmap string (check_result F)),
             (size (<[k := v]> m) =? 0)%nat = false).
  { intros k v m. apply Nat.eqb_neq, map_size_non_empty_iff, insert_non_empty. }
  rewrite Hsize. unfold report_entries.
  rewrite !lookup_insert_ne by discriminate. rewrite lookup_insert_eq.
  rewrite (lookup_insert_ne _ "outliers" "missing_values") by discriminate.
  rewrite (lookup_insert_ne _ "duplicates" "missing_values") by discriminate.
  rewrite (lookup_insert_ne _ "data_types" "missing_values") by discriminate.
  rewrite lookup_insert_eq.
  rewrite (lookup_insert_ne _ "outliers" "duplicates") by discriminate.
  rewrite lookup_insert_eq.
  rewrite !lookup_insert_ne by discriminate. now rewrite lookup_empty.
Qed.

End TextReportFacts.

Lemma text_report_not_loaded_witness :
  fst (generate_text_report_head no_files (init None None None)) = KeyError "basic_info"
  /\ fst (generate_text_report_head no_files (init (Some "data.txt") None None))
     = KeyError "basic_info".
Proof.
  split.
  - now rewrite (text_report_not_loaded no_files (init None None None) _ eq_refl eq_refl).
  - now rewrite (text_report_not_loaded no_files (init (Some "data.txt") None None)
                   _ eq_refl eq_refl).
Defined.

Lemma text_report_after_abort_witness :
  exists self',
    fst (generate_text_report_head no_files (init None (Some scenario_D) None))
    = RunRaised (ZeroDivisionError "division by zero")
    /\ fst (generate_text_report_head no_files self')
       = Head (basic_info_of no_files "DataFrame" scenario_D)
              (RMissingValues (missing_values scenario_D))
              (RDuplicates (duplicates scenario_D)) None.
Proof.
  assert (Hobj : select_dtypes is_object scenario_D <> []) by discriminate.
  destruct (text_report_after_abort no_files (init None (Some scenario_D) None)
              scenario_D eq_refl eq_refl eq_refl Hobj) as (s & H1 & H2).
  exists s. rewrite H1, H2. split; reflexivity.
Defined.
